(** * Unit conversions of the IvS Python repository ([ivs.units.conversions])

    A shallow embedding of [solve_aliases], [components], [breakdown],
    [convert], [nconvert], the change-of-base functions and the nonlinear
    converters of [src/units/conversions.py], followed by the properties
    the specification states about them.

    Modelling conventions.
    - Python [float]s are idealised as real numbers plus an explicit
      not-a-number ([pyfloat]); rounding and overflow are not modelled.
    - Python exceptions are the constructors of [exn]; a function that may
      raise returns a [result].  [Unmodelled] marks an evaluation that
      leaves the scalar fragment embedded here (tuple or complex values,
      [uncertainties] objects, the [ephem] library, infinities).
    - Python [str] is [string]; [dict]s iterated by the code are
      association lists in source order. *)

From Stdlib Require Import Reals Lra Lia ZArith NArith List String Ascii Bool.
From Stdlib Require Import DecimalString Decimal DecimalPos DecimalZ.
From Stdlib Require Import Permutation Sorted.
Import ListNotations.

Local Open Scope string_scope.
Local Open Scope list_scope.

(** ** Exceptions and results *)

Inductive exn : Set :=
| ValueError | KeyError | TypeError | IndexError | NameError
| AttributeError | ZeroDivisionError | OverflowError | RuntimeError.

Inductive result (A : Type) : Type :=
| Ok (a : A)
| Raise (e : exn)
| Unmodelled.
Arguments Ok {A} a.
Arguments Raise {A} e.
Arguments Unmodelled {A}.

Definition bind {A B} (m : result A) (k : A -> result B) : result B :=
  match m with
  | Ok a => k a
  | Raise e => Raise e
  | Unmodelled => Unmodelled
  end.

Notation "x <- m ;; k" := (bind m (fun x => k))
  (at level 61, m at next level, right associativity).
Notation "' p <- m ;; k" := (bind m (fun p => k))
  (at level 61, p pattern, m at next level, right associativity).

Fixpoint mapM {A B} (f : A -> result B) (l : list A) : result (list B) :=
  match l with
  | [] => Ok []
  | a :: l' => b <- f a ;; bs <- mapM f l' ;; Ok (b :: bs)
  end.

(** ** Python strings *)

Module Py.

Definition isdigit (c : ascii) : bool :=
  let n := nat_of_ascii c in (48 <=? n)%nat && (n <=? 57)%nat.

(** The characters [str.split()] treats as separators. *)
Definition isspace (c : ascii) : bool :=
  let n := nat_of_ascii c in
  ((9 <=? n)%nat && (n <=? 13)%nat) || (n =? 32)%nat.

Definition upper_char (c : ascii) : ascii :=
  let n := nat_of_ascii c in
  if (97 <=? n)%nat && (n <=? 122)%nat then ascii_of_nat (n - 32) else c.

Fixpoint upper (s : string) : string :=
  match s with
  | EmptyString => EmptyString
  | String c s' => String (upper_char c) (upper s')
  end.

Fixpoint take (n : nat) (s : string) : string :=
  match n, s with
  | S k, String c s' => String c (take k s')
  | _, _ => EmptyString
  end.

Fixpoint drop (n : nat) (s : string) : string :=
  match n, s with
  | S k, String _ s' => drop k s'
  | _, _ => s
  end.

Fixpoint last_char (s : string) : option ascii :=
  match s with
  | EmptyString => None
  | String c EmptyString => Some c
  | String _ s' => last_char s'
  end.

(** [sub in s] *)
Fixpoint contains (sub s : string) : bool :=
  prefix sub s ||
  match s with
  | EmptyString => false
  | String _ s' => contains sub s'
  end.

Fixpoint intersperse (new s : string) : string :=
  match s with
  | EmptyString => new
  | String c s' => new ++ String c (intersperse new s')
  end.

Fixpoint replace_from (old new : string) (skip : nat) (s : string) : string :=
  match s with
  | EmptyString => EmptyString
  | String c s' =>
      match skip with
      | S k => replace_from old new k s'
      | O =>
          if prefix old s
          then new ++ replace_from old new (String.length old - 1) s'
          else String c (replace_from old new 0 s')
      end
  end.

(** [s.replace(old,new)]: every non-overlapping occurrence, left to right. *)
Definition replace (old new s : string) : string :=
  match old with
  | EmptyString => intersperse new s
  | _ => replace_from old new 0 s
  end.

(** [s.split()] *)
Fixpoint split (s : string) : list string :=
  match s with
  | EmptyString => []
  | String c s' =>
      if isspace c then split s'
      else
        match s' with
        | EmptyString => [String c EmptyString]
        | String c' _ =>
            if isspace c' then String c EmptyString :: split s'
            else
              match split s' with
              | w :: ws => String c w :: ws
              | [] => [String c EmptyString]
              end
        end
  end.

(** [s.split(sep)] for a one-character separator *)
Fixpoint split_on (sep : ascii) (s : string) : list string :=
  match s with
  | EmptyString => [EmptyString]
  | String c s' =>
      if Ascii.eqb c sep then EmptyString :: split_on sep s'
      else
        match split_on sep s' with
        | w :: ws => String c w :: ws
        | [] => [String c EmptyString]
        end
  end.

(** [sep.join(l)] *)
Fixpoint join (sep : string) (l : list string) : string :=
  match l with
  | [] => EmptyString
  | [w] => w
  | w :: l' => w ++ sep ++ join sep l'
  end.

(** [int(s)] on an optional minus sign followed by digits, and [str(n)]. *)
Definition int_of_str (s : string) : option Z :=
  option_map Z.of_int (NilZero.int_of_string s).

Definition str_of_int (n : Z) : string := NilZero.string_of_int (Z.to_int n).

(** [sorted] on a list of strings (bytewise lexicographic order). *)
Fixpoint insert_sorted (x : string) (l : list string) : list string :=
  match l with
  | [] => [x]
  | y :: l' => if String.leb x y then x :: l else y :: insert_sorted x l'
  end.

Fixpoint sorted (l : list string) : list string :=
  match l with
  | [] => []
  | x :: l' => insert_sorted x (sorted l')
  end.

(** [float(digits)] is the binary64 number nearest to the integer, ties to
    even; [None] stands for an infinity.  Only [solve_aliases] prints such a
    float back with ['%d'], where the rounding is visible. *)
Definition round53 (n : N) : option N :=
  let b := N.size n in
  if (b <=? 53)%N then Some n
  else
    let sh := (b - 53)%N in
    let q := N.shiftr n sh in
    let r := (n - N.shiftl q sh)%N in
    let half := N.shiftl 1 (sh - 1) in
    let q' := if (half <? r)%N || ((r =? half)%N && N.odd q)
              then (q + 1)%N else q in
    let m := N.shiftl q' sh in
    if (2 ^ 1024 <=? m)%N then None else Some m.

End Py.

(** ** The fragment of [re] the module uses

    Every pattern of the source is a sequence of quantified character
    classes; [match_here] follows the backtracking order of [re]: a greedy
    quantifier tries the longest repetition first, a lazy one the shortest,
    and [search] returns the leftmost match. *)

Module Re.

Record atom : Type := Atom {
  cls : ascii -> bool;
  lo : nat;
  hi : option nat;      (* [None]: unbounded *)
  greedy : bool
}.

Definition allows (h : option nat) : bool :=
  match h with
  | None => true
  | Some O => false
  | Some (S _) => true
  end.

Definition decr (h : option nat) : option nat := option_map pred h.

Definition stop {A} (l : nat) (k : string -> string -> option A)
    (acc s : string) : option A :=
  match l with
  | O => k acc s
  | S _ => None
  end.

Fixpoint quant {A} (p : ascii -> bool) (g : bool) (l : nat) (h : option nat)
    (k : string -> string -> option A) (acc s : string) {struct s} : option A :=
  match s with
  | String c s' =>
      if p c && allows h then
        if g then
          match quant p g (pred l) (decr h) k (acc ++ String c EmptyString) s' with
          | Some r => Some r
          | None => stop l k acc s
          end
        else
          match stop l k acc s with
          | Some r => Some r
          | None => quant p g (pred l) (decr h) k (acc ++ String c EmptyString) s'
          end
      else stop l k acc s
  | EmptyString => stop l k acc s
  end.

(** The text consumed by each atom of the pattern, matching at the head of [s]. *)
Fixpoint match_here (atoms : list atom) (s : string) : option (list string) :=
  match atoms with
  | [] => Some []
  | a :: rest =>
      quant (cls a) (greedy a) (lo a) (hi a)
        (fun taken s' => option_map (cons taken) (match_here rest s'))
        EmptyString s
  end.

Fixpoint search (atoms : list atom) (s : string) : option (list string) :=
  match match_here atoms s with
  | Some r => Some r
  | None =>
      match s with
      | String _ s' => search atoms s'
      | EmptyString => None
      end
  end.

Definition one (p : ascii -> bool) : atom := Atom p 1 (Some 1) true.
Definition lit (c : ascii) : ascii -> bool := Ascii.eqb c.
Definition any_of (l : list ascii) (c : ascii) : bool := existsb (Ascii.eqb c) l.
(** [.] matches anything but a newline *)
Definition dot (c : ascii) : bool := negb (Ascii.eqb c "010"%char).
Definition digit : ascii -> bool := Py.isdigit.

(** The pattern of [components] and [solve_aliases]: group 1 is a greedy
    run of digits, group 2 a lazy non-empty run of any characters, group 3
    an optional minus sign and a greedy non-empty run of digits. *)
Definition unit_pattern : list atom :=
  [ Atom digit 0 None true;
    Atom dot 1 None false;
    Atom (lit "-") 0 (Some 1) true;
    Atom digit 1 None true ].

(** Two digits, a sign, two digits: the prefactor written ['10-14']. *)
Definition sci_pattern : list atom :=
  [ one digit; one digit; one (any_of ["-"; "+"]%char); one digit; one digit ].

(** Two digits, one of the characters of the class [[eE] (an opening
    bracket, [e] or [E]), a sign, two digits: the prefactor ['10e-14']. *)
Definition sci_e_pattern : list atom :=
  [ one digit; one digit; one (any_of ["["; "e"; "E"]%char);
    one (any_of ["-"; "+"]%char); one digit; one digit ].

(** The pattern of [convert] for logarithmic units: an opening bracket, a
    greedy run of any characters (the group), a closing bracket. *)
Definition log_pattern : list atom :=
  [ one (lit "["); Atom dot 0 None true; one (lit "]") ].

End Re.

(** ** Numbers, factors and the static tables *)

Local Open Scope R_scope.

(** A Python [float]: a real number or not-a-number. *)
Inductive pyfloat : Type :=
| F (x : R)
| NaN.

Definition lift1 (op : R -> R) (a : pyfloat) : pyfloat :=
  match a with
  | F x => F (op x)
  | NaN => NaN
  end.

Definition lift2 (op : R -> R -> R) (a b : pyfloat) : pyfloat :=
  match a, b with
  | F x, F y => F (op x y)
  | _, _ => NaN
  end.

Definition fadd := lift2 Rplus.
Definition fsub := lift2 Rminus.
Definition fmul := lift2 Rmult.
Definition fneg := lift1 Ropp.

(** Division of values.  A zero divisor raises [ZeroDivisionError] on a
    Python float and yields an infinity on a numpy scalar (the table
    columns are numpy scalars); neither is a real number. *)
Definition fdiv (a b : pyfloat) : result pyfloat :=
  match b with
  | F y => if Req_dec_T y 0 then Unmodelled else Ok (lift2 Rdiv a b)
  | NaN => Ok NaN
  end.

(** Division by a literal of the source that is not zero. *)
Definition fdivc (a : pyfloat) (c : R) : pyfloat := lift1 (fun x => x / c) a.

(** [10**x] *)
Definition pow10 (x : pyfloat) : pyfloat := lift1 (Rpower 10) x.

(** [x**2] *)
Definition sqr (x : pyfloat) : pyfloat := lift1 (fun r => r ^ 2) x.

(** [log10] of [ivs.units.uncertainties.unumpy] on a plain float; what it
    does at a non-positive argument is not in the sources. *)
Definition log10 (x : pyfloat) : result pyfloat :=
  match x with
  | F r => if Rlt_dec 0 r then Ok (F (ln r / ln 10)) else Unmodelled
  | NaN => Ok NaN
  end.

(** The subclasses of [NonLinearConverter]. *)
Inductive converter : Set :=
| Fahrenheit | Celcius | AmplMag | VegaMag | ABMag | STMag | Color
| JulianDay | ModJulianDay | GalCoords | EquCoords | EclCoords.

(** What [components] and [breakdown] return as factor: a float, the
    complex number [x+0j] (unit [complex_coord]), an instance of a
    converter class with its [prefix] and [power], or [None]. *)
Inductive fac : Type :=
| FNum (x : R)
| FComplex (x : R)
| FConv (c : converter) (prefix power : R)
| FNone.

(** First member of a value of [_factors]. *)
Inductive entry : Type :=
| Lin (x : R)
| LinComplex (x : R)
| Class (c : converter).

(** The names [conversions.py] takes from [ivs.units.constants]. *)
Record Constants : Type := {
  cc : R; au : R; pc : R; ly : R; Rsol : R; Rearth : R; a0 : R;
  Msol : R; Mearth : R; Mjup : R; Mlun : R; Lsol : R
}.

(** A row of the record array [filters.get_info()] returns (the columns the
    converters read). *)
Record zp_row : Type := {
  photband : string;
  vegamag : pyfloat;
  ABmag : pyfloat;
  STmag : pyfloat;
  Flam0 : pyfloat;
  Flam0_units : string
}.

Fixpoint lookup {A} (k : string) (d : list (string * A)) : option A :=
  match d with
  | [] => None
  | (k', v) :: d' => if String.eqb k' k then Some v else lookup k d'
  end.

Definition has_key {A} (k : string) (d : list (string * A)) : bool :=
  match lookup k d with Some _ => true | None => false end.

Fixpoint foldM {A B} (f : A -> B -> result A) (a : A) (l : list B) : result A :=
  match l with
  | [] => Ok a
  | b :: l' => a' <- f a b ;; foldM f a' l'
  end.

(** [float(s)] and [int(s)] on the digit strings the patterns capture. *)
Definition int_of (s : string) : result Z :=
  match Py.int_of_str s with
  | Some z => Ok z
  | None => Raise ValueError
  end.

Definition float_of (s : string) : result R :=
  z <- int_of s ;; Ok (IZR z).

(** [x**n] for a float [x] and an integral exponent. *)
Definition float_pow (x : R) (n : Z) : result R :=
  if (n <? 0)%Z then
    if Req_dec_T x 0 then Raise ZeroDivisionError else Ok (powerRZ x n)
  else Ok (powerRZ x n).

(** [if not unit[-1].isdigit(): unit += '1'] *)
Definition ensure_power (unit : string) : result string :=
  match Py.last_char unit with
  | None => Raise IndexError
  | Some c => Ok (if Py.isdigit c then unit else (unit ++ "1")%string)
  end.

Definition _aliases : list (string * string) :=
  [ ("micron","mum"); ("au","AU");
    ("micro","mu"); ("milli","m"); ("kilo","k"); ("mega","M"); ("giga","G");
    ("nano","n");
    ("watt","W"); ("Watt","W");
    ("Hz","hz");
    ("joule","J"); ("Joule","J");
    ("jansky","Jy"); ("Jansky","Jy"); ("jy","Jy");
    ("arcsec","as"); ("arcmin","am");
    ("cycles","cy"); ("cycle","cy"); ("cyc","cy");
    ("angstrom","A"); ("Angstrom","A");
    ("inch","in");
    ("^",""); ("**","");
    ("galactic","gal"); ("equatorial","equ"); ("ecliptic","ecl");
    ("Vegamag","vegamag") ].

(** Prefixes, in the order of the source.  The loop of [components] takes
    the first prefix that fits; the iteration order of the dictionary only
    matters for a basis two prefixes fit (['dam'] and ['das']). *)
Definition _scalings : list (string * R) :=
  [ ("y", 1e-24); ("z", 1e-21); ("a", 1e-18); ("f", 1e-15); ("p", 1e-12);
    ("n", 1e-09); ("mu", 1e-06); ("m", 1e-03); ("c", 1e-02); ("d", 1e-01);
    ("da", 1e+01); ("h", 1e+02); ("k", 1e+03); ("M", 1e+06); ("G", 1e+09);
    ("T", 1e+12); ("P", 1e+15); ("E", 1e+18); ("Z", 1e+21); ("Y", 1e+24) ].

(** ** [solve_aliases] *)

(** The body of the inner loop: one part of a token that follows a [/]. *)
Definition after_division (after_div : string) : result string :=
  after_div <- ensure_power after_div ;;
  '(factor, basis, power) <-
    match Re.search Re.unit_pattern after_div with
    | Some [g1; g2; sgn; ds] =>
        power <- int_of (sgn ++ ds)%string ;;
        factor <-
          match g1 with
          | EmptyString => Ok (Some 1%N)
          | _ => n <- int_of g1 ;; Ok (Py.round53 (Z.to_N n))
          end ;;
        Ok (factor, g2, power)
    | _ => Ok (Some 1%N, after_div, 1%Z)
    end ;;
  let uni := (basis ++ Py.str_of_int (- power))%string in
  match factor with
  | Some 1%N => Ok uni
  | Some n => Ok (Py.str_of_int (Z.of_N n) ++ uni)%string
  | None => Unmodelled
  end.

Definition divide_token (uni : list string) : result (list string) :=
  match uni with
  | [] => Ok []
  | first :: after => after' <- mapM after_division after ;; Ok (first :: after')
  end.

Definition resolve (unit : string) : string :=
  fold_left (fun u alias => Py.replace (fst alias) (snd alias) u) _aliases unit.

Definition solve_aliases (unit : string) : result string :=
  let unit := resolve unit in
  if Py.contains "/" unit then
    unit_ <- mapM (fun uni => divide_token (Py.split_on "/" uni)) (Py.split unit) ;;
    Ok (Py.join " " (List.concat unit_))
  else Ok unit.

(** ** [components] and [breakdown] *)

Section Conversions.

(** The constants of [ivs.units.constants], the largest machine integer
    ([sys.maxint]: a larger exponent is a [long], which the operators of
    [NonLinearConverter] do not accept), the calibration table
    [filters.get_info()] reads from [zeropoints.dat], and
    [filters.eff_wave], which averages a response curve stored on disk
    (not-a-number when the curve is missing). *)
Variable K : Constants.
Variable maxint : Z.
Variable zp : list zp_row.
Variable eff_wave : string -> pyfloat.

Definition _factors : list (string * (entry * string)) :=
  [ (* DISTANCE *)
    ("m", (Lin 1e+00, "m"));
    ("A", (Lin 1e-10, "m"));
    ("AU", (Lin (au K), "m"));
    ("pc", (Lin (pc K), "m"));
    ("ly", (Lin (ly K), "m"));
    ("Rsol", (Lin (Rsol K), "m"));
    ("Rearth", (Lin (Rearth K), "m"));
    ("ft", (Lin 0.3048, "m"));
    ("in", (Lin 0.0254, "m"));
    ("mi", (Lin 1609.344, "m"));
    ("a0", (Lin (a0 K), "m"));
    ("ell", (Lin 1.143, "m"));
    ("yd", (Lin 0.9144, "m"));
    (* MASS *)
    ("g", (Lin 1e-03, "kg"));
    ("Msol", (Lin (Msol K), "kg"));
    ("Mearth", (Lin (Mearth K), "kg"));
    ("Mjup", (Lin (Mjup K), "kg"));
    ("Mlun", (Lin (Mlun K), "kg"));
    ("lbs", (Lin 0.45359237, "kg"));
    ("st", (Lin 6.35029318, "kg"));
    (* TIME *)
    ("s", (Lin 1e+00, "s"));
    ("min", (Lin 60, "s"));
    ("h", (Lin 3600, "s"));
    ("d", (Lin (24*3600), "s"));
    ("wk", (Lin (7*24*3600), "s"));
    ("mo", (Lin (30*7*24*3600), "s"));
    ("sidereal", (Lin 1.0027379093, ""));
    ("yr", (Lin (365*24*3600), "s"));
    ("cr", (Lin (100*365*24*3600), "s"));
    ("hz", (Lin 1e+00, "cy s-1"));
    ("JD", (Lin 1e+00, "JD"));
    ("CD", (Class JulianDay, "JD"));
    ("MJD", (Class ModJulianDay, "JD"));
    ("j", (Lin (1/60), "s"));
    (* ANGLES *)
    ("rad", (Lin 1e+00, "rad"));
    ("cy", (Lin 1e+00, "cy"));
    ("deg", (Lin (PI/180), "rad"));
    ("am", (Lin (PI/180/60), "rad"));
    ("as", (Lin (PI/180/3600), "rad"));
    ("sr", (Lin 1, "rad2"));
    ("rpm", (Lin 0.104719755, "rad/s"));
    (* COORDINATES *)
    ("complex_coord", (LinComplex 1e+00, "complex_coord"));
    ("equ", (Class EquCoords, "complex_coord"));
    ("gal", (Class GalCoords, "complex_coord"));
    ("ecl", (Class EclCoords, "complex_coord"));
    (* FORCE *)
    ("N", (Lin 1e+00, "kg m s-2"));
    ("dyn", (Lin 1e-05, "kg m s-2"));
    (* TEMPERATURE *)
    ("K", (Lin 1e+00, "K"));
    ("F", (Class Fahrenheit, "K"));
    ("C", (Class Celcius, "K"));
    (* ENERGY & POWER *)
    ("J", (Lin 1e+00, "kg m2 s-2"));
    ("W", (Lin 1e+00, "kg m2 s-3"));
    ("erg", (Lin 1e-07, "kg m2 s-2"));
    ("eV", (Lin 1.60217646e-19, "kg m2 s-2"));
    ("cal", (Lin 4.1868, "kg m2 s-2"));
    ("Lsol", (Lin (Lsol K), "kg m2 s-3"));
    (* PRESSURE *)
    ("Pa", (Lin 1e+00, "kg m-1 s-2"));
    ("bar", (Lin 1e+05, "kg m-1 s-2"));
    ("at", (Lin 98066.5, "kg m-1 s-2"));
    ("atm", (Lin 101325, "kg m-1 s-2"));
    ("torr", (Lin 133.322, "kg m-1 s-2"));
    ("psi", (Lin 6894, "kg m-1 s-2"));
    (* AREA *)
    ("ac", (Lin 4046.8564224, "m2"));
    ("a", (Lin 100, "m2"));
    (* FLUX *)
    ("Jy", (Lin 1e-26, "kg s-2 cy-1"));
    ("vegamag", (Class VegaMag, "kg m-1 s-3"));
    ("mag", (Class VegaMag, "kg m-1 s-3"));
    ("STmag", (Class STMag, "kg m-1 s-3"));
    ("ABmag", (Class ABMag, "kg s-2 cy-1"));
    ("mag_color", (Class Color, "flux_ratio"));
    ("flux_ratio", (Lin 1, "flux_ratio"));
    ("ampl", (Lin 1e+00, "ampl"));
    ("Amag", (Class AmplMag, "ampl"));
    ("pph", (Lin 1e-02, "ampl"));
    ("ppt", (Lin 1e-03, "ampl"));
    ("ppm", (Lin 1e-06, "ampl")) ].

(** The value of a prefactor ['10-14'] or ['10e-14']: the two leading
    digits raised to the signed two-digit exponent. *)
Definition sci_value (mantissa sgn exponent : string) : result R :=
  m <- float_of mantissa ;;
  e <- float_of exponent ;;
  z <- int_of exponent ;;
  float_pow m (if String.eqb sgn "-" then - z else z)%Z.

(** The [for scale in _scalings] loop: the first prefix that fits. *)
Fixpoint find_scaling (basis : string) (l : list (string * R))
    : option (string * R) :=
  match l with
  | [] => None
  | (scale, v) :: l' =>
      let scale_unit := Py.take (String.length scale) basis in
      let base_unit := Py.drop (String.length scale) basis in
      if String.eqb scale_unit scale && has_key base_unit _factors
         && negb (has_key basis _factors)
      then Some (scale, v)
      else find_scaling basis l'
  end.

(** [#-- decompose the base name ...] and [#-- switch from base units to
    SI units]: the prefix is looked for, then the basis is replaced by its
    SI equivalent. *)
Definition to_SI_base (factor : R) (basis : string) (power : Z)
    : result (fac * string * Z) :=
  '(factor, basis) <-
    match find_scaling basis _scalings with
    | Some (scale, v) => Ok (factor * v, Py.drop (String.length scale) basis)
    | None =>
        if has_key basis _factors then Ok (factor, basis) else Raise ValueError
    end ;;
  match lookup basis _factors with
  | Some (Lin x, si) => Ok (FNum (factor * x), si, power)
  | Some (LinComplex x, si) => Ok (FComplex (factor * x), si, power)
  | Some (Class c, si) => Ok (FConv c (1 * factor) 1, si, power)
  | None => Raise KeyError
  end.

(** From the third pattern on, with the factor collected so far. *)
Definition components_from (factor : R) (unit : string)
    : result (fac * string * Z) :=
  unit <- ensure_power unit ;;
  '(factor, basis, power) <-
    match Re.search Re.unit_pattern unit with
    | Some [factor_; basis; sgn; ds] =>
        power <- int_of (sgn ++ ds)%string ;;
        factor <-
          match factor_ with
          | EmptyString => Ok factor
          | _ => f <- float_of factor_ ;; Ok (factor * f)
          end ;;
        Ok (factor, basis, power)
    | _ => Ok (1, unit, 1%Z)
    end ;;
  to_SI_base factor basis power.

Definition components (unit : string) : result (fac * string * Z) :=
  let factor := 1 in
  '(factor, unit) <-
    match Re.search Re.sci_pattern (Py.take 5 unit) with
    | Some [d1; d2; sgn; d3; d4] =>
        v <- sci_value (d1 ++ d2) sgn (d3 ++ d4) ;;
        Ok (factor * v, Py.drop 5 unit)
    | _ => Ok (factor, unit)
    end ;;
  '(factor, unit) <-
    match Re.search Re.sci_e_pattern (Py.take 6 unit) with
    | Some [d1; d2; _; sgn; d3; d4] =>
        v <- sci_value (d1 ++ d2) sgn (d3 ++ d4) ;;
        Ok (factor * v, Py.drop 6 unit)
    | _ => Ok (factor, unit)
    end ;;
  components_from factor unit.

(** [factor**power], by [float.__pow__], [complex.__pow__] or
    [NonLinearConverter.__pow__]. *)
Definition fac_pow (factor : fac) (power : Z) : result fac :=
  match factor with
  | FNum x => y <- float_pow x power ;; Ok (FNum y)
  | FComplex x => y <- float_pow x power ;; Ok (FComplex y)
  | FConv c prefix pw =>
      if ((- maxint - 1 <=? power) && (power <=? maxint))%Z
      then Ok (FConv c prefix (pw + IZR power))
      else Ok FNone
  | FNone => Raise TypeError
  end.

(** [total_factor*x]: floats and complex numbers multiply; a converter on
    the right answers through [__rmul__], which returns a fresh instance
    for a float and [None] for anything else; a converter on the left has
    no [__mul__]. *)
Definition fac_mul (total_factor x : fac) : result fac :=
  match total_factor, x with
  | FNum a, FNum b => Ok (FNum (a * b))
  | FNum a, FComplex b => Ok (FComplex (a * b))
  | FComplex a, FNum b => Ok (FComplex (a * b))
  | FComplex a, FComplex b => Ok (FComplex (a * b))
  | FNum a, FConv c prefix _ => Ok (FConv c (prefix * a) 1)
  | FComplex _, FConv _ _ _ => Ok FNone
  | FConv _ _ _, FConv _ _ _ => Ok FNone
  | FNone, FConv _ _ _ => Ok FNone
  | _, _ => Raise TypeError
  end.

(** [total_units] and [total_power], kept in step. *)
Fixpoint add_power (basis_ : string) (p : Z) (totals : list (string * Z))
    : list (string * Z) :=
  match totals with
  | [] => [(basis_, p)]
  | (b, q) :: totals' =>
      if String.eqb b basis_ then (b, (q + p)%Z) :: totals'
      else (b, q) :: add_power basis_ p totals'
  end.

Definition add_base (power : Z) (totals : list (string * Z)) (base : string)
    : result (list (string * Z)) :=
  '(_, basis_, power_) <- components base ;;
  Ok (add_power basis_ (power_ * power)%Z totals).

(** The body of [for unit in units]. *)
Definition breakdown_unit (state : fac * list (string * Z)) (unit : string)
    : result (fac * list (string * Z)) :=
  let '(total_factor, totals) := state in
  '(factor, basis, power) <- components unit ;;
  fp <- fac_pow factor power ;;
  total_factor <- fac_mul total_factor fp ;;
  totals <- foldM (add_base power) totals (Py.split basis) ;;
  Ok (total_factor, totals).

Definition signature (totals : list (string * Z)) : string :=
  Py.join " "
    (Py.sorted
       (map (fun e => (fst e ++ Py.str_of_int (snd e))%string)
          (filter (fun e => negb (snd e =? 0)%Z) totals))).

Definition breakdown (unit : string) : result (fac * string) :=
  unit <- solve_aliases unit ;;
  '(total_factor, totals) <- foldM breakdown_unit (FNum 1, []) (Py.split unit) ;;
  Ok (total_factor, signature totals).

(** ** Keyword arguments *)

(** What a caller passes as keyword argument: a float, a string, a tuple
    [(value, unit)] or a tuple [(value, error, unit)]. *)
Inductive kwval : Type :=
| KNum (x : pyfloat)
| KStr (s : string)
| KPair (x : pyfloat) (unit : string)
| KTriple (x e : pyfloat) (unit : string).

(** An entry of [kwargs_SI]. *)
Inductive ctxval : Type :=
| CNum (x : pyfloat)
| CStr (s : string).

Definition ctx : Type := list (string * ctxval).

(** [d[k] = v] *)
Fixpoint set {A} (k : string) (v : A) (d : list (string * A)) : list (string * A) :=
  match d with
  | [] => [(k, v)]
  | (k', v') :: d' =>
      if String.eqb k' k then (k', v) :: d' else (k', v') :: set k v d'
  end.

Fixpoint remove {A} (k : string) (d : list (string * A)) : list (string * A) :=
  match d with
  | [] => []
  | (k', v') :: d' =>
      if String.eqb k' k then remove k d' else (k', v') :: remove k d'
  end.

(** A context entry used in arithmetic. *)
Definition num (v : ctxval) : result pyfloat :=
  match v with
  | CNum x => Ok x
  | CStr _ => Raise TypeError
  end.

(** A context entry used as a condition. *)
Definition truthy (v : ctxval) : bool :=
  match v with
  | CNum (F x) => if Req_dec_T x 0 then false else true
  | CNum NaN => true
  | CStr s => negb (String.eqb s "")
  end.

(** [fac*value] with the factor on the left. *)
Definition fac_times (f : fac) (v : pyfloat) : result pyfloat :=
  match f with
  | FNum x => Ok (fmul (F x) v)
  | FComplex _ => Unmodelled
  | FConv _ _ _ => Raise TypeError
  | FNone => Raise TypeError
  end.

(** The nested calls of [convert]: a function of the unit strings, the
    value and the keyword arguments. *)
Definition converting : Type :=
  string -> string -> pyfloat -> list (string * kwval) -> result pyfloat.

(** ** Linear change-of-base functions *)

Section Nested.

Variable convert : converting.

(** [if 'photband' in kwargs: ...]: the effective wavelength of the
    passband, in metres, becomes the reference wavelength. *)
Definition photband_wave (kwargs : ctx) : result ctx :=
  match lookup "photband" kwargs with
  | Some (CStr photband) =>
      lameff <- convert "A" "m" (eff_wave photband) [] ;;
      Ok (set "wave" (CNum lameff) kwargs)
  | Some (CNum _) => Raise TypeError
  | None => Ok kwargs
  end.

Definition distance2velocity (arg : pyfloat) (kwargs : ctx) : result pyfloat :=
  match lookup "wave" kwargs with
  | Some w =>
      wave <- num w ;;
      q <- fdiv (fsub arg wave) wave ;;
      Ok (fmul q (F (cc K)))
  | None => Raise ValueError
  end.

Definition velocity2distance (arg : pyfloat) (kwargs : ctx) : result pyfloat :=
  match lookup "wave" kwargs with
  | Some w =>
      wave <- num w ;;
      q <- fdiv wave (F (cc K)) ;;
      Ok (fadd (fmul q arg) wave)
  | None => Raise ValueError
  end.

Definition fnu2flambda (arg : pyfloat) (kwargs : ctx) : result pyfloat :=
  kwargs <- photband_wave kwargs ;;
  match lookup "wave" kwargs, lookup "freq" kwargs with
  | Some w, _ =>
      wave <- num w ;;
      q <- fdiv (F (cc K)) (sqr wave) ;;
      Ok (fmul q arg)
  | None, Some f =>
      freq <- num f ;;
      q <- fdiv (sqr freq) (F (cc K)) ;;
      Ok (fmul q arg)
  | None, None => Raise ValueError
  end.

Definition flambda2fnu (arg : pyfloat) (kwargs : ctx) : result pyfloat :=
  kwargs <- photband_wave kwargs ;;
  match lookup "wave" kwargs, lookup "freq" kwargs with
  | Some w, _ =>
      wave <- num w ;;
      q <- fdiv (sqr wave) (F (cc K)) ;;
      Ok (fmul q arg)
  | None, Some f =>
      freq <- num f ;;
      q <- fdiv (F (cc K)) (sqr freq) ;;
      Ok (fmul q arg)
  | None, None => Raise ValueError
  end.

Definition fnu2nufnu (arg : pyfloat) (kwargs : ctx) : result pyfloat :=
  kwargs <- photband_wave kwargs ;;
  match lookup "wave" kwargs, lookup "freq" kwargs with
  | Some w, _ =>
      wave <- num w ;;
      q <- fdiv (F (cc K)) wave ;;
      Ok (fmul q arg)
  | None, Some f =>
      freq <- num f ;;
      Ok (fmul freq arg)
  | None, None => Raise ValueError
  end.

Definition nufnu2fnu (arg : pyfloat) (kwargs : ctx) : result pyfloat :=
  kwargs <- photband_wave kwargs ;;
  match lookup "wave" kwargs, lookup "freq" kwargs with
  | Some w, _ =>
      wave <- num w ;;
      q <- fdiv wave (F (cc K)) ;;
      Ok (fmul q arg)
  | None, Some f =>
      freq <- num f ;;
      fdiv arg freq
  | None, None => Raise ValueError
  end.

Definition flam2lamflam (arg : pyfloat) (kwargs : ctx) : result pyfloat :=
  kwargs <- photband_wave kwargs ;;
  match lookup "wave" kwargs, lookup "freq" kwargs with
  | Some w, _ =>
      wave <- num w ;;
      Ok (fmul wave arg)
  | None, Some f =>
      freq <- num f ;;
      q <- fdiv (F (cc K)) freq ;;
      Ok (fmul q arg)
  | None, None => Raise ValueError
  end.

Definition lamflam2flam (arg : pyfloat) (kwargs : ctx) : result pyfloat :=
  kwargs <- photband_wave kwargs ;;
  match lookup "wave" kwargs, lookup "freq" kwargs with
  | Some w, _ =>
      wave <- num w ;;
      fdiv arg wave
  | None, Some f =>
      freq <- num f ;;
      q <- fdiv (F (cc K)) freq ;;
      fdiv arg q
  | None, None => Raise ValueError
  end.

Definition distance2spatialfreq (arg : pyfloat) (kwargs : ctx) : result pyfloat :=
  kwargs <- photband_wave kwargs ;;
  match lookup "wave" kwargs, lookup "freq" kwargs with
  | Some w, _ =>
      wave <- num w ;;
      fdiv (fmul (F (2 * PI)) arg) wave
  | None, Some f =>
      freq <- num f ;;
      q <- fdiv (F (cc K)) freq ;;
      fdiv (fmul (F (2 * PI)) arg) q
  | None, None => Raise ValueError
  end.

Definition spatialfreq2distance (arg : pyfloat) (kwargs : ctx) : result pyfloat :=
  kwargs <- photband_wave kwargs ;;
  match lookup "wave" kwargs, lookup "freq" kwargs with
  | Some w, _ =>
      wave <- num w ;;
      Ok (fdivc (fmul wave arg) (2 * PI))
  | None, Some f =>
      freq <- num f ;;
      q <- fdiv (F (cc K)) freq ;;
      Ok (fdivc (fmul q arg) (2 * PI))
  | None, None => Raise ValueError
  end.

(** The solid angle [per_sr] and [times_sr] take from the context. *)
Definition surface (kwargs : ctx) : result pyfloat :=
  match lookup "ang_diam" kwargs, lookup "radius" kwargs, lookup "pix" kwargs with
  | Some a, _, _ =>
      ang_diam <- num a ;;
      let radius := fdivc ang_diam 2 in
      Ok (fmul (F PI) (sqr radius))
  | None, Some r, _ =>
      radius <- num r ;;
      Ok (fmul (F PI) (sqr radius))
  | None, None, Some p =>
      pix <- num p ;;
      Ok (sqr pix)
  | None, None, None => Raise ValueError
  end.

Definition per_sr (arg : pyfloat) (kwargs : ctx) : result pyfloat :=
  s <- surface kwargs ;; fdiv arg s.

Definition times_sr (arg : pyfloat) (kwargs : ctx) : result pyfloat :=
  s <- surface kwargs ;; Ok (fmul arg s).

Definition per_cy (arg : pyfloat) (kwargs : ctx) : result pyfloat :=
  Ok (fdivc arg (2 * PI)).

Definition times_cy (arg : pyfloat) (kwargs : ctx) : result pyfloat :=
  Ok (fmul (F (2 * PI)) arg).

Definition _switch : list (string * (pyfloat -> ctx -> result pyfloat)) :=
  [ ("s1_to_", distance2velocity);
    ("s-1_to_", velocity2distance);
    ("cy-1m1_to_", distance2spatialfreq);
    ("cy1m-1_to_", spatialfreq2distance);
    ("cy-1m1s1_to_", fnu2flambda);
    ("cy1m-1s-1_to_", flambda2fnu);
    ("cy-1s1_to_", fnu2nufnu);
    ("cy1s-1_to_", nufnu2fnu);
    ("m1_to_", lamflam2flam);
    ("m-1_to_", flam2lamflam);
    ("rad2_to_", per_sr);
    ("rad-2_to_", times_sr);
    ("rad1_to_", per_cy);
    ("rad-1_to_", times_cy) ].

(** ** Nonlinear converters *)

(** How [__call__] binds its arguments.  [convert] calls a converter as
    [fac_from(start_value,**kwargs_SI)] or, with [inverse],
    [fac_to(ret_value,inv=True,**kwargs_SI)]. *)
Definition first_param (c : converter) : string :=
  match c with
  | Fahrenheit | Celcius => "a"
  | GalCoords | EquCoords | EclCoords => "mycoord"
  | _ => "meas"
  end.

Definition named_params (c : converter) : list string :=
  match c with
  | Fahrenheit | Celcius | AmplMag | JulianDay => ["inv"]
  | VegaMag | ABMag | STMag | Color => ["photband"; "inv"]
  | ModJulianDay => ["inv"; "jtype"]
  | GalCoords | EquCoords | EclCoords => ["inv"; "epoch"]
  end.

Definition var_keywords (c : converter) : bool :=
  match c with
  | VegaMag | ABMag | STMag | Color | JulianDay => true
  | _ => false
  end.

Definition binds (c : converter) (inverse : bool) (kwargs : ctx) : bool :=
  negb (has_key "self" kwargs)
  && negb (has_key (first_param c) kwargs)
  && negb (inverse && has_key "inv" kwargs)
  && (var_keywords c
      || forallb (fun e => existsb (String.eqb (fst e)) (named_params c)) kwargs).

Definition inv_flag (inverse : bool) (kwargs : ctx) : bool :=
  inverse ||
  match lookup "inv" kwargs with
  | Some v => truthy v
  | None => false
  end.

(** [zp['photband']==photband.upper()], then the first matching row. *)
Definition calibration (kwargs : ctx) : result zp_row :=
  match lookup "photband" kwargs with
  | Some (CStr name) =>
      match find (fun row => String.eqb (photband row) (Py.upper name)) zp with
      | Some row => Ok row
      | None => Raise ValueError
      end
  | _ => Raise AttributeError
  end.

Definition nan_is_zero (mag0 : pyfloat) : pyfloat :=
  match mag0 with
  | NaN => F 0
  | _ => mag0
  end.

Definition call_Fahrenheit (prefix : R) (a : pyfloat) (inv : bool) : result pyfloat :=
  if negb inv
  then Ok (fdivc (fmul (fadd (fmul a (F prefix)) (F 459.67)) (F 5)) 9)
  else fdiv (fsub (fdivc (fmul a (F 9)) 5) (F 459.67)) (F prefix).

Definition call_Celcius (prefix : R) (a : pyfloat) (inv : bool) : result pyfloat :=
  if negb inv
  then Ok (fadd (fmul a (F prefix)) (F 273.15))
  else fdiv (fsub a (F 273.15)) (F prefix).

Definition call_AmplMag (prefix : R) (meas : pyfloat) (inv : bool) : result pyfloat :=
  if negb inv
  then Ok (fsub (pow10 (fdivc (fmul meas (F prefix)) 2.5)) (F 1))
  else l <- log10 (fadd (F 1) meas) ;; fdiv (fmul (F 2.5) l) (F prefix).

Definition call_VegaMag (meas : pyfloat) (inv : bool) (kwargs : ctx) : result pyfloat :=
  row <- calibration kwargs ;;
  F0 <- convert (Flam0_units row) "W/m3" (Flam0 row) [] ;;
  let mag0 := vegamag row in
  if negb inv
  then Ok (fmul (pow10 (fdivc (fneg (fsub meas mag0)) 2.5)) F0)
  else q <- fdiv meas F0 ;; l <- log10 q ;; Ok (fadd (fmul (F (-2.5)) l) mag0).

Definition call_ABMag (meas : pyfloat) (inv : bool) (kwargs : ctx) : result pyfloat :=
  let F0 := F 3.6307805477010024e-23 in
  row <- calibration kwargs ;;
  let mag0 := nan_is_zero (ABmag row) in
  if negb inv
  then Ok (fmul (pow10 (fdivc (fneg (fsub meas mag0)) 2.5)) F0)
  else q <- fdiv meas F0 ;; l <- log10 q ;; Ok (fmul (F (-2.5)) l).

Definition call_STMag (meas : pyfloat) (inv : bool) (kwargs : ctx) : result pyfloat :=
  let F0 := F 0.036307805477010027 in
  row <- calibration kwargs ;;
  let mag0 := nan_is_zero (STmag row) in
  if negb inv
  then Ok (fmul (pow10 (fdivc (fneg (fsub meas mag0)) (-2.5))) F0)
  else q <- fdiv meas F0 ;; l <- log10 q ;; Ok (fmul (F (-2.5)) l).

(** [convert(_from,_to,value,photband=...,unpack=False)]: [unpack] is
    popped on entry and only matters for [uncertainties] objects. *)
Definition in_band (_from _to : string) (value : pyfloat) (photband : string)
    : result pyfloat :=
  convert _from _to value [("photband", KStr photband)].

Definition call_Color (meas : pyfloat) (inv : bool) (kwargs : ctx) : result pyfloat :=
  match lookup "photband" kwargs with
  | Some (CStr photband) =>
      match Py.split_on "." photband with
      | [system; band] =>
          if Py.contains "-" band && negb inv then
            match Py.split_on "-" band with
            | [band0; band1] =>
                f0 <- in_band "mag" "SI" meas (system ++ "." ++ band0) ;;
                f1 <- in_band "mag" "SI" (F 0) (system ++ "." ++ band1) ;;
                fdiv f0 f1
            | _ => Raise ValueError
            end
          else if Py.contains "-" band && inv then
            match Py.split_on "-" band with
            | [band0; band1] =>
                m0 <- in_band "W/m3" "mag" meas (system ++ "." ++ band0) ;;
                m1 <- in_band "W/m3" "mag" (F 1) (system ++ "." ++ band1) ;;
                Ok (fsub m0 m1)
            | _ => Raise ValueError
            end
          else if String.eqb photband "STROMGREN.C1" && negb inv then
            fu <- in_band "mag" "SI" meas "STROMGREN.U" ;;
            fb <- in_band "mag" "SI" (F 0) "STROMGREN.B" ;;
            fv <- in_band "mag" "SI" (F 0) "STROMGREN.V" ;;
            fdiv (fmul fu fb) (sqr fv)
          else if String.eqb photband "STROMGREN.C1" && inv then
            mu <- in_band "W/m3" "mag" meas "STROMGREN.U" ;;
            mb <- in_band "W/m3" "mag" (F 1) "STROMGREN.B" ;;
            mv <- in_band "W/m3" "mag" (F 1) "STROMGREN.V" ;;
            Ok (fadd (fsub mu (fmul (F 2) mv)) mb)
          else if String.eqb photband "STROMGREN.M1" && negb inv then
            fv <- in_band "mag" "SI" meas "STROMGREN.V" ;;
            fy <- in_band "mag" "SI" (F 0) "STROMGREN.Y" ;;
            fb <- in_band "mag" "SI" (F 0) "STROMGREN.B" ;;
            fdiv (fmul fv fy) (sqr fb)
          else if String.eqb photband "STROMGREN.M1" && inv then
            mu <- in_band "W/m3" "mag" meas "STROMGREN.V" ;;
            mb <- in_band "W/m3" "mag" (F 1) "STROMGREN.Y" ;;
            mv <- in_band "W/m3" "mag" (F 1) "STROMGREN.B" ;;
            (* [return mv-2*mb+my]: the name [my] is not defined *)
            Raise NameError
          else Raise ValueError
      | _ => Raise ValueError
      end
  | _ => Raise AttributeError
  end.

Definition ZP : list (string * R) :=
  [ ("COROT", 2451545); ("HIP", 2440000); ("MJD", 2400000.5) ].

Definition call_ModJulianDay (meas : pyfloat) (inv : bool) (kwargs : ctx) : result pyfloat :=
  match
    match lookup "jtype" kwargs with
    | Some (CStr jtype) => Ok jtype
    | Some (CNum _) => Raise AttributeError
    | None => Ok "MJD"%string
    end
  with
  | Ok jtype =>
      match lookup (Py.upper jtype) ZP with
      | Some z => Ok (if inv then fsub meas (F z) else fadd meas (F z))
      | None => Raise KeyError
      end
  | Raise e => Raise e
  | Unmodelled => Unmodelled
  end.

(** An instance of class [c] with the given [prefix], called on a float.
    [JulianDay] slices its argument (a calendar tuple) and the coordinate
    classes unpack theirs; their inverses return tuples. *)
Definition call (c : converter) (prefix : R) (meas : pyfloat) (inverse : bool)
    (kwargs : ctx) : result pyfloat :=
  if negb (binds c inverse kwargs) then Raise TypeError
  else
    let inv := inv_flag inverse kwargs in
    match c with
    | Fahrenheit => call_Fahrenheit prefix meas inv
    | Celcius => call_Celcius prefix meas inv
    | AmplMag => call_AmplMag prefix meas inv
    | VegaMag => call_VegaMag meas inv kwargs
    | ABMag => call_ABMag meas inv kwargs
    | STMag => call_STMag meas inv kwargs
    | Color => call_Color meas inv kwargs
    | ModJulianDay => call_ModJulianDay meas inv kwargs
    | JulianDay | GalCoords | EquCoords | EclCoords =>
        if inv then Unmodelled else Raise TypeError
    end.

(** ** [convert] *)

(** The loop that brings the keyword arguments to SI. *)
Definition to_SI (kwargs_SI : ctx) (item : string * kwval) : result ctx :=
  let '(key, v) := item in
  match v with
  | KPair x unit =>
      '(fac_key, _) <- breakdown unit ;;
      y <- fac_times fac_key x ;;
      Ok (set key (CNum y) kwargs_SI)
  | KTriple _ _ unit =>
      _ <- breakdown unit ;; Unmodelled
  | KNum x => Ok (set key (CNum x) kwargs_SI)
  | KStr s => Ok (set key (CStr s) kwargs_SI)
  end.

(** [#-- add some default values if necessary] *)
Definition defaults (fac_from : fac) (uni_from uni_to : string)
    (start_value : pyfloat) (kwargs_SI : ctx) : result ctx :=
  if negb (String.eqb uni_from uni_to) && String.eqb uni_from "m1"
     && negb (has_key "wave" kwargs_SI)
  then
    v <- fac_times fac_from start_value ;;
    Ok (set "wave" (CNum v) kwargs_SI)
  else if negb (String.eqb uni_from uni_to) && String.eqb uni_from "cy1 s-1"
          && negb (has_key "wave" kwargs_SI)
  then
    v <- fac_times fac_from start_value ;;
    Ok (set "freq" (CNum v) kwargs_SI)
  else Ok kwargs_SI.

(** [sorted(list(set(a) - set(b)))] *)
Definition difference (a b : list string) : list string :=
  Py.sorted
    (nodup string_dec (filter (fun x => negb (existsb (String.eqb x) b)) a)).

(** [list(components(i))[1:]] *)
Definition base_power (i : string) : result (string * Z) :=
  '(_, basis, power) <- components i ;; Ok (basis, power).

(** The unit differences, pushed to the left side: [only_from]. *)
Definition left_over (uni_from uni_to : string) : result string :=
  let uni_from_ := Py.split uni_from in
  let uni_to_ := Py.split uni_to in
  only_from_c <- mapM base_power (difference uni_from_ uni_to_) ;;
  only_to_c <- mapM base_power (difference uni_to_ uni_from_) ;;
  let left :=
    (Py.join " " (map (fun e => fst e ++ Py.str_of_int (snd e)) only_from_c)
     ++ " "
     ++ Py.join " " (map (fun e => fst e ++ Py.str_of_int (- snd e)) only_to_c))%string in
  '(_, left) <- breakdown left ;;
  Ok (Py.join "" (Py.split left)).

Definition switch (key : string) : result (pyfloat -> ctx -> result pyfloat) :=
  match lookup key _switch with
  | Some f => Ok f
  | None => Raise KeyError
  end.

(** One branch of [#-- first we remove any differences concerning
    (ster)radians]. *)
Definition rad_branch (marker : string) (fac_from : fac) (start_value : pyfloat)
    (only_from : string) (kwargs_SI : ctx) : result (fac * pyfloat * string) :=
  f <- switch (marker ++ "_to_") ;;
  r <- f start_value kwargs_SI ;;
  start_value <- fac_times fac_from r ;;
  Ok (FNum 1, start_value, Py.replace marker "" only_from).

Definition radians (fac_from : fac) (start_value : pyfloat) (only_from : string)
    (kwargs_SI : ctx) : result (fac * pyfloat * string) :=
  if Py.contains "rad2" only_from then
    rad_branch "rad2" fac_from start_value only_from kwargs_SI
  else if Py.contains "rad-2" only_from then
    rad_branch "rad-2" fac_from start_value only_from kwargs_SI
  else if Py.contains "rad1" only_from then
    rad_branch "rad1" fac_from start_value only_from kwargs_SI
  else if Py.contains "rad-1" only_from then
    rad_branch "rad-1" fac_from start_value only_from kwargs_SI
  else Ok (fac_from, start_value, only_from).

(** [fac_from(start_value,**kwargs_SI)] for a converter, else
    [fac_from*start_value]. *)
Definition apply_from (fac_from : fac) (start_value : pyfloat) (kwargs_SI : ctx)
    : result pyfloat :=
  match fac_from with
  | FConv c prefix _ => call c prefix start_value false kwargs_SI
  | _ => fac_times fac_from start_value
  end.

(** [#-- otherwise a little bit more complicated] *)
Definition bridge (fac_from : fac) (uni_from uni_to : string)
    (start_value : pyfloat) (kwargs_SI : ctx) : result pyfloat :=
  only_from <- left_over uni_from uni_to ;;
  '(fac_from, start_value, only_from) <-
    radians fac_from start_value only_from kwargs_SI ;;
  if negb (String.eqb only_from "") then
    f <- switch (only_from ++ "_to_") ;;
    a <- apply_from fac_from start_value kwargs_SI ;;
    r <- f a kwargs_SI ;;
    Ok (fmul (F 1) r)
  else Ok (fmul (F 1) start_value).

(** [#-- final step: convert to ...] *)
Definition apply_to (fac_to : fac) (ret_value : pyfloat) (kwargs_SI : ctx)
    : result pyfloat :=
  match fac_to with
  | FConv c prefix _ => call c prefix ret_value true kwargs_SI
  | FNum x => fdiv ret_value (F x)
  | FComplex _ => Unmodelled
  | FNone => Raise TypeError
  end.

(** The body of [convert] for one positional argument, a float. *)
Definition convert_body (_from _to : string) (start_value : pyfloat)
    (kwargs : list (string * kwval)) : result pyfloat :=
  let kwargs := remove "unpack" kwargs in
  let m_in := Re.search Re.log_pattern _from in
  let m_out := Re.search Re.log_pattern _to in
  let '(_from, start_value) :=
    match m_in with
    | Some [_; g; _] => (g, pow10 start_value)
    | _ => (_from, start_value)
    end in
  let _to :=
    match m_out with
    | Some [_; g; _] => g
    | _ => _to
    end in
  '(fac_from, uni_from) <- breakdown _from ;;
  '(fac_to, uni_to) <-
    (if negb (String.eqb _to "SI") then breakdown _to else Ok (FNum 1, uni_from)) ;;
  kwargs_SI <- foldM to_SI [] kwargs ;;
  kwargs_SI <- defaults fac_from uni_from uni_to start_value kwargs_SI ;;
  ret_value <-
    (if String.eqb uni_from uni_to then
       r <- apply_from fac_from start_value kwargs_SI ;; Ok (fmul (F 1) r)
     else bridge fac_from uni_from uni_to start_value kwargs_SI) ;;
  ret_value <- apply_to fac_to ret_value kwargs_SI ;;
  match m_out with
  | Some _ => log10 ret_value
  | None => Ok ret_value
  end.

End Nested.

(** [convert], with the depth left for nested calls; the interpreter
    raises [RuntimeError] when the recursion limit is reached. *)
Fixpoint convert (depth : nat) : converting :=
  match depth with
  | O => fun _ _ _ _ => Raise RuntimeError
  | S d => convert_body (convert d)
  end.

(** ** [nconvert] *)

(** [_froms] and [_tos]: one string or a list of strings. *)
Inductive units : Type :=
| UStr (s : string)
| UList (l : list string).

(** A keyword argument of [nconvert]: a float, a string, or a sequence
    with one entry per element (a tuple is such a sequence). *)
Inductive nkwval : Type :=
| NNum (x : pyfloat)
| NStr (s : string)
| NSeq (l : list kwval).

(** The items of a string, when it is iterated. *)
Fixpoint chars (s : string) : list string :=
  match s with
  | EmptyString => []
  | String c s' => String c EmptyString :: chars s'
  end.

Definition pairs (_froms _tos : units) : list (string * string) :=
  match _tos, _froms with
  | UStr t, UStr f => combine (chars f) (map (fun _ => t) (chars f))
  | UStr t, UList f => combine f (map (fun _ => t) f)
  | UList t, UStr f => combine (map (fun _ => f) t) t
  | UList t, UList f => combine f t
  end.

Definition element (i : nat) (item : string * nkwval) : result (string * kwval) :=
  let '(key, v) := item in
  match v with
  | NNum x => Ok (key, KNum x)
  | NStr s => Ok (key, KStr s)
  | NSeq l =>
      match nth_error l i with
      | Some e => Ok (key, e)
      | None => Raise IndexError
      end
  end.

(** [ret_value[i] = v] *)
Fixpoint assign (i : nat) (v : pyfloat) (ret_value : list pyfloat) : list pyfloat :=
  match i, ret_value with
  | O, _ :: l => v :: l
  | S k, x :: l => x :: assign k v l
  | _, [] => []
  end.

Fixpoint nconvert_loop (depth i : nat) (todo : list (string * string))
    (arg : list pyfloat) (kwargs : list (string * nkwval))
    (ret_value : list pyfloat) : result (list pyfloat) :=
  match todo with
  | [] => Ok ret_value
  | (_from, _to) :: todo' =>
      match nth_error arg i with
      | None => Raise IndexError
      | Some x =>
          mykwargs <- mapM (element i) kwargs ;;
          match convert depth _from _to x mykwargs with
          | Ok v =>
              nconvert_loop depth (S i) todo' arg kwargs (assign i v ret_value)
          | Raise ValueError =>
              nconvert_loop depth (S i) todo' arg kwargs (assign i NaN ret_value)
          | Raise e => Raise e
          | Unmodelled => Unmodelled
          end
      end
  end.

(** [nconvert(_froms,_tos,arg,**kwargs)] for one positional argument. *)
Definition nconvert (depth : nat) (_froms _tos : units) (arg : list pyfloat)
    (kwargs : list (string * nkwval)) : result (list pyfloat) :=
  nconvert_loop depth 0 (pairs _froms _tos) arg kwargs
    (repeat (F 0) (List.length arg)).

End Conversions.

(** ** [round_arbitrary] *)

(** [round(x)] of Python 2 on a float: the nearest integer, a half going
    away from zero. *)
Definition py_round (x : R) : Z :=
  if Rle_dec 0 x then Int_part (x + / 2) else (- Int_part (- x + / 2))%Z.

(** [base * round(float(x)/base)] *)
Definition round_arbitrary (x base : R) : result R :=
  if Req_dec_T base 0 then Raise ZeroDivisionError
  else Ok (base * IZR (py_round (x / base))).

(** ** [is_color] of [ivs.sed.filters] *)

(** [photband.split('.')[1]] is tested for a minus sign, then for the
    Stromgren indices. *)
Definition is_color (photband : string) : result bool :=
  match Py.split_on "." photband with
  | _ :: band :: _ =>
      if Py.contains "-" band then Ok true
      else if existsb (String.eqb (Py.upper band)) ["M1"; "C1"] then Ok true
      else Ok false
  | _ => Raise IndexError
  end.

(** ** The calendar converter [JulianDay] *)

(** [a // b] on floats: the floor of the quotient. *)
Definition floor_div (a b : R) : R := IZR (Int_part (a / b)).

(** [JulianDay.__call__(meas, inv=True)]: year, month and day of a Julian
    date. *)
Definition JulianDay_inverse (meas : R) : R * R * R :=
  let L := meas + 68569 in
  let N := floor_div (4 * L) 146097 in
  let L := L - floor_div (146097 * N + 3) 4 in
  let I := floor_div (4000 * (L + 1)) 1461001 in
  let L := L - floor_div (1461 * I) 4 + 31 in
  let J := floor_div (80 * L) 2447 in
  let day := L - floor_div (2447 * J) 80 + 0.5 in
  let L := floor_div J 11 in
  let month := J + 2 - 12 * L in
  let year := 100 * (N - 49) + I + L in
  (year, month, day).

(** [JulianDay.__call__(meas)] on a calendar tuple whose year and month
    are whole numbers; hour, minute and second are 0 when the tuple is
    shorter. *)
Definition JulianDay_forward (year month : Z) (day hour mint secn : R) : R :=
  let a := ((14 - month) / 12)%Z in
  let y := (year + 4800 - a)%Z in
  let m := (month + 12 * a - 3)%Z in
  let jd :=
    day + IZR ((153 * m + 2) / 5) + IZR (365 * y) + IZR (y / 4) - IZR (y / 100)
    + IZR (y / 400) - 32045 in
  let jd := jd + hour / 24 in
  let jd := jd + mint / 24 / 60 in
  let jd := jd + secn / 24 / 3600 in
  jd - 0.5.

(** ** [derive_logg] and [derive_mass]

    The arguments are 2-tuples [(value, unit)]; a 3-tuple carries an error
    and goes through [uncertainties], outside the scalar fragment.  [GG]
    and [GG_cgs] are names of [ivs.units.constants]. *)

Section Derive.

Variable K : Constants.
Variable maxint : Z.
Variable zp : list zp_row.
Variable eff_wave : string -> pyfloat.
Variable depth : nat.
Variables GG GG_cgs : R.

Definition derive_logg (mass radius : pyfloat * string) : result pyfloat :=
  M <- convert K maxint zp eff_wave depth (snd mass) "g" (fst mass) [] ;;
  R <- convert K maxint zp eff_wave depth (snd radius) "cm" (fst radius) [] ;;
  q <- fdiv (fmul (F GG_cgs) M) (sqr R) ;;
  log10 q.

Definition derive_mass (surface_gravity radius : pyfloat * string) : result pyfloat :=
  grav <- convert K maxint zp eff_wave depth (snd surface_gravity) "m/s2"
            (fst surface_gravity) [] ;;
  R <- convert K maxint zp eff_wave depth (snd radius) "m" (fst radius) [] ;;
  fdiv (fmul grav (sqr R)) (F GG).

End Derive.

(** * Properties *)

(** ** Running the embedding

    The head of the program is reduced until it waits for a comparison of
    real numbers; the comparison is settled with [lra] and the run goes on. *)

Ltac rnorm t :=
  eval cbv -[Rmult Rplus Rminus Rdiv Rinv Ropp IZR Q2R Rpower PI Z.pow_pos
             exp ln INR cc au pc ly Rsol Rearth a0 Msol Mearth Mjup Mlun Lsol] in t.

Ltac whd_lhs :=
  match goal with
  | |- ?l = ?r => let l' := eval lazy head in l in change (l' = r)
  end.

Ltac settle :=
  match goal with
  | |- context [Req_dec_T ?a ?b] =>
      let a' := rnorm a in
      let b' := rnorm b in
      change (Req_dec_T a b) with (Req_dec_T a' b');
      destruct (Req_dec_T a' b') as [?H | ?H]; [ try (exfalso; lra) | try (exfalso; lra) ]
  | |- context [Rlt_dec ?a ?b] =>
      let a' := rnorm a in
      let b' := rnorm b in
      change (Rlt_dec a b) with (Rlt_dec a' b');
      destruct (Rlt_dec a' b') as [?H | ?H]; [ try (exfalso; lra) | try (exfalso; lra) ]
  end.

Ltac value :=
  match goal with
  | |- Ok ?l = ?r => let l' := rnorm l in change (Ok l' = r)
  | |- Raise _ = _ => idtac
  | |- Unmodelled = _ => idtac
  end.

Ltac pyrun := whd_lhs; repeat (settle; whd_lhs); value.

(** An environment to run the embedding in: SI values for the constants, a
    64-bit [sys.maxint], a small calibration table. *)
Definition si_constants : Constants :=
  {| cc := 299792458; au := 149597870700; pc := 3.085677581503e+16;
     ly := 9.460730472580800e+15; Rsol := 6.95508e+8; Rearth := 6.371e+6;
     a0 := 5.2917720859e-11; Msol := 1.988547e+30; Mearth := 5.9742e+24;
     Mjup := 1.8986e+27; Mlun := 7.346e+22; Lsol := 3.846e+26 |}.

Definition maxint64 : Z := 9223372036854775807.

Definition band (name : string) (vega ab st : pyfloat) (flam0 : R) : zp_row :=
  {| photband := name; vegamag := vega; ABmag := ab; STmag := st;
     Flam0 := F flam0; Flam0_units := "erg/s/cm2/A" |}.

Definition sample_zp : list zp_row :=
  [ band "SDSS.U" (F 0) (F 0.04) NaN 3.6e-9;
    band "STROMGREN.B" (F 0.03) NaN (F 0) 5.9e-9;
    band "STROMGREN.U" (F 0.03) NaN (F 0) 1.2e-8;
    band "STROMGREN.V" (F 0.03) NaN (F 0) 8.7e-9;
    band "STROMGREN.Y" (F 0.03) NaN (F 0) 3.7e-9 ].

Definition no_curve (photband : string) : pyfloat := NaN.

Definition sample_convert : nat -> converting :=
  convert si_constants maxint64 sample_zp no_curve.

(** ** Magnitude converters *)

Lemma log10_pow10 (y : R) : ln (Rpower 10 y) / ln 10 = y.
Proof.
  unfold Rpower. rewrite ln_exp. field.
  rewrite <- ln_1. intro E. apply ln_inv in E; lra.
Qed.

Lemma Rpower_10_pos (y : R) : 0 < Rpower 10 y.
Proof. unfold Rpower. apply exp_pos. Qed.

Lemma calibration_found (zp : list zp_row) (name : string) (row : zp_row) :
  find (fun r => String.eqb (photband r) (Py.upper name)) zp = Some row ->
  calibration zp [("photband", CStr name)] = Ok row.
Proof. intros H. unfold calibration. simpl. rewrite H. reflexivity. Qed.

(** The zero point a passband has in the AB system, not-a-number read as 0. *)
Definition AB_zero_point (row : zp_row) : R :=
  match ABmag row with
  | F x => x
  | NaN => 0
  end.

(** C10.  For a passband of the calibration table, the inverse operation of
    the [ABMag] converter returns [-2.5*log10(meas/F0)] and does not add the
    zero point of the passband; the inverse of the forward operation at [m]
    is therefore [m - mag0], which is [m] exactly when the zero point of the
    passband is 0 or not-a-number. *)
Theorem ABMag_inverse_drops_zero_point :
  forall (zp : list zp_row) (conv : converting) (prefix : R)
         (name : string) (row : zp_row) (m : R),
    find (fun r => String.eqb (photband r) (Py.upper name)) zp = Some row ->
    let kwargs := [("photband", CStr name)] in
    let F0 := 3.6307805477010024e-23 in
    (forall meas : R, 0 < meas ->
       call zp conv ABMag prefix (F meas) true kwargs
       = Ok (F (-2.5 * (ln (meas / F0) / ln 10)))) /\
    (exists flux : R,
       call zp conv ABMag prefix (F m) false kwargs = Ok (F flux) /\
       call zp conv ABMag prefix (F flux) true kwargs
       = Ok (F (m - AB_zero_point row))) /\
    (m - AB_zero_point row = m <-> ABmag row = F 0 \/ ABmag row = NaN).
Proof.
  intros zp conv prefix name row m Hrow kwargs F0.
  assert (HF0 : 0 < F0) by (unfold F0; lra).
  assert (Hinv : forall meas : R, 0 < meas ->
            call zp conv ABMag prefix (F meas) true kwargs
            = Ok (F (-2.5 * (ln (meas / F0) / ln 10)))).
  { intros meas Hmeas. unfold call, call_ABMag. simpl binds. cbv iota beta.
    simpl negb. cbv iota. unfold kwargs. rewrite (calibration_found _ _ _ Hrow).
    simpl. fold F0.
    destruct (Req_dec_T F0 0) as [E | _]; [lra |].
    simpl. unfold log10.
    destruct (Rlt_dec 0 (meas / F0)) as [_ | N]; [reflexivity |].
    exfalso. apply N. apply Rdiv_lt_0_compat; lra. }
  split; [exact Hinv |]. split.
  - exists (Rpower 10 (- (m - AB_zero_point row) / 2.5) * F0). split.
    + unfold call, call_ABMag. simpl binds. cbv iota beta. simpl negb. cbv iota.
      unfold kwargs. rewrite (calibration_found _ _ _ Hrow).
      unfold AB_zero_point. simpl. fold F0.
      destruct (ABmag row); simpl; reflexivity.
    + rewrite Hinv.
      * do 2 f_equal.
        replace (Rpower 10 (- (m - AB_zero_point row) / 2.5) * F0 / F0)
          with (Rpower 10 (- (m - AB_zero_point row) / 2.5)) by (field; lra).
        rewrite log10_pow10. lra.
      * apply Rmult_lt_0_compat; [apply Rpower_10_pos | exact HF0].
  - unfold AB_zero_point. destruct (ABmag row) as [x |].
    + split.
      * intro E. left. f_equal. lra.
      * intros [E | E]; [injection E as ->; lra | discriminate].
    + split; [intros _; right; reflexivity | intros _; lra].
Qed.

Lemma ABMag_inverse_drops_zero_point_witness :
  exists flux : R,
    call sample_zp (sample_convert 1) ABMag 1 (F 15) false [("photband", CStr "sdss.u")]
    = Ok (F flux) /\
    call sample_zp (sample_convert 1) ABMag 1 (F flux) true [("photband", CStr "sdss.u")]
    = Ok (F (15 - 0.04)).
Proof.
  exact (proj1 (proj2 (ABMag_inverse_drops_zero_point sample_zp (sample_convert 1) 1
                         "sdss.u" (band "SDSS.U" (F 0) (F 0.04) NaN 3.6e-9) 15
                         eq_refl))).
Defined.

(** C3.  The forward operation of [STMag] divides by [-2.5]: at magnitude
    2.5 in a passband whose ST zero point is 0 it returns ten times the flux
    zero point, where [10^(-(mag-mag0)/2.5)*F0] is a tenth of it. *)
Theorem STMag_forward_sign :
  exists flux : R,
    call sample_zp (sample_convert 1) STMag 1 (F 2.5) false
      [("photband", CStr "STROMGREN.B")] = Ok (F flux)
    /\ flux = 10 * 0.036307805477010027
    /\ flux <> Rpower 10 (- (2.5 - 0) / 2.5) * 0.036307805477010027.
Proof.
  exists (Rpower 10 (- (2.5 - 0) / -2.5) * 0.036307805477010027).
  assert (E1 : Rpower 10 (- (2.5 - 0) / -2.5) = 10).
  { replace (- (2.5 - 0) / -2.5) with 1 by lra. apply Rpower_1. lra. }
  assert (E2 : Rpower 10 (- (2.5 - 0) / 2.5) = / 10).
  { replace (- (2.5 - 0) / 2.5) with (Ropp 1) by lra.
    rewrite Rpower_Ropp, Rpower_1 by lra. reflexivity. }
  split; [reflexivity |]. rewrite E1, E2. split; lra.
Qed.

(** The same sign in general: the exponent is [+(mag-mag0)/2.5]. *)
Lemma STMag_forward :
  forall (zp : list zp_row) (conv : converting) (prefix : R)
         (name : string) (row : zp_row) (mag mag0 : R),
    find (fun r => String.eqb (photband r) (Py.upper name)) zp = Some row ->
    nan_is_zero (STmag row) = F mag0 ->
    call zp conv STMag prefix (F mag) false [("photband", CStr name)]
    = Ok (F (Rpower 10 ((mag - mag0) / 2.5) * 0.036307805477010027)).
Proof.
  intros zp conv prefix name row mag mag0 Hrow Hmag0.
  unfold call, call_STMag. simpl binds. cbv iota beta. simpl negb. cbv iota.
  rewrite (calibration_found _ _ _ Hrow). simpl. rewrite Hmag0. simpl.
  replace (- (mag - mag0) / -2.5) with ((mag - mag0) / 2.5) by lra.
  reflexivity.
Qed.

(** ** Default values of the context *)

(** C4.  With a frequency as source ([uni_from = 'cy1 s-1']) the second
    branch tests the key ['wave'], not ['freq']: a frequency the caller
    supplied is overwritten by [fac_from*start_value], and the conversion
    from 1 Hz to metres with [freq=5.] uses the frequency 1. *)
Theorem defaults_overwrites_freq :
  defaults (FNum 1) "cy1 s-1" "m1" (F 1) [("freq", CNum (F 5))]
  = Ok [("freq", CNum (F (1 * 1)))]
  /\ forall depth : nat,
       sample_convert (S depth) "hz" "m" (F 1) [("freq", KNum (F 5))]
       = Ok (F 299792458).
Proof.
  split; [reflexivity |].
  intros depth. unfold sample_convert. pyrun.
  do 2 f_equal. simpl. field.
Qed.

(** The first branch does what the claim says for a length. *)
Lemma defaults_sets_wave :
  forall (fac_from v : R) (uni_to : string) (kwargs_SI : ctx),
    String.eqb "m1" uni_to = false ->
    has_key "wave" kwargs_SI = false ->
    defaults (FNum fac_from) "m1" uni_to (F v) kwargs_SI
    = Ok (set "wave" (CNum (F (fac_from * v))) kwargs_SI).
Proof.
  intros fac_from v uni_to kwargs_SI Hne Hwave.
  unfold defaults. rewrite Hne, Hwave. reflexivity.
Qed.

(** ** The colour converter *)

(** C9.  Called in inverse mode with the passband ['STROMGREN.M1'], the
    [Color] converter never returns a value, whatever the measurement: the
    branch ends in the undefined name [my], which it reaches as soon as its
    three nested conversions return. *)
Theorem Color_M1_inverse_fails :
  forall (zp : list zp_row) (conv : converting) (prefix : R) (meas : pyfloat),
    let r := call zp conv Color prefix meas true [("photband", CStr "STROMGREN.M1")] in
    (forall v : pyfloat, r <> Ok v) /\
    (forall mu mb mv : pyfloat,
       conv "W/m3" "mag" meas [("photband", KStr "STROMGREN.V")] = Ok mu ->
       conv "W/m3" "mag" (F 1) [("photband", KStr "STROMGREN.Y")] = Ok mb ->
       conv "W/m3" "mag" (F 1) [("photband", KStr "STROMGREN.B")] = Ok mv ->
       r = Raise NameError).
Proof.
  intros zp conv prefix meas r.
  assert (E : r =
    (mu <- conv "W/m3" "mag" meas [("photband", KStr "STROMGREN.V")] ;;
     mb <- conv "W/m3" "mag" (F 1) [("photband", KStr "STROMGREN.Y")] ;;
     mv <- conv "W/m3" "mag" (F 1) [("photband", KStr "STROMGREN.B")] ;;
     Raise NameError)) by reflexivity.
  rewrite E. split.
  - intros v.
    destruct (conv "W/m3" "mag" meas _); simpl; try discriminate.
    destruct (conv "W/m3" "mag" (F 1) [("photband", KStr "STROMGREN.Y")]);
      simpl; try discriminate.
    destruct (conv "W/m3" "mag" (F 1) [("photband", KStr "STROMGREN.B")]);
      simpl; discriminate.
  - intros mu mb mv Hu Hb Hv. rewrite Hu. simpl. rewrite Hb. simpl. rewrite Hv.
    reflexivity.
Qed.

Lemma Color_M1_inverse_fails_witness :
  call sample_zp (sample_convert 2) Color 1 (F 1e-9) true
    [("photband", CStr "STROMGREN.M1")] = Raise NameError.
Proof.
  eapply (proj2 (Color_M1_inverse_fails sample_zp (sample_convert 2) 1 (F 1e-9)));
    unfold sample_convert; pyrun; reflexivity.
Defined.

(** ** The fast path of [convert] *)

Lemma breakdown_SI (K : Constants) (maxint : Z) :
  breakdown K maxint "SI" = Raise ValueError.
Proof. pyrun. reflexivity. Qed.

(** C1.  Two unit strings (not written as logarithms between brackets)
    that break down to the same signature with plain numbers as factors
    convert by the ratio of the factors; a kilometre is 100000 cm. *)
Theorem convert_same_dimension :
  forall (K : Constants) (maxint : Z) (zp : list zp_row)
         (eff_wave : string -> pyfloat) (depth : nat)
         (_from _to : string) (value facFrom facTo : R) (uni : string),
    Re.search Re.log_pattern _from = None ->
    Re.search Re.log_pattern _to = None ->
    breakdown K maxint _from = Ok (FNum facFrom, uni) ->
    breakdown K maxint _to = Ok (FNum facTo, uni) ->
    facTo <> 0 ->
    convert K maxint zp eff_wave (S depth) _from _to (F value) []
    = Ok (F (facFrom / facTo * value)).
Proof.
  intros K maxint zp eff_wave depth _from _to value facFrom facTo uni
         Hin Hout Hfrom Hto Hnz.
  assert (HSI : String.eqb _to "SI" = false).
  { destruct (String.eqb_spec _to "SI") as [-> | _]; [| reflexivity].
    rewrite breakdown_SI in Hto. discriminate. }
  simpl convert. unfold convert_body. simpl remove.
  rewrite Hin, Hout, Hfrom. simpl bind. rewrite HSI. simpl negb. cbv iota.
  rewrite Hto. simpl bind.
  unfold defaults. rewrite String.eqb_refl. simpl.
  destruct (Req_dec_T facTo 0) as [E | _]; [contradiction |].
  unfold bind. do 2 f_equal. field. exact Hnz.
Qed.

Lemma convert_same_dimension_witness :
  exists x : R, sample_convert 1 "km" "cm" (F 1) [] = Ok (F x) /\ x = 100000.
Proof.
  eexists. split.
  - eapply (convert_same_dimension si_constants maxint64 sample_zp no_curve 0
              "km" "cm" 1).
    + reflexivity.
    + reflexivity.
    + pyrun. reflexivity.
    + pyrun. reflexivity.
    + lra.
  - lra.
Defined.

(** The literal check of the docstring: [convert('km','cm',1.)] is 100000. *)
Lemma convert_km_cm :
  forall (K : Constants) (maxint : Z) (zp : list zp_row)
         (eff_wave : string -> pyfloat) (depth : nat),
    convert K maxint zp eff_wave (S depth) "km" "cm" (F 1) [] = Ok (F 100000).
Proof.
  intros. pyrun. do 2 f_equal. lra.
Qed.

(** ** Radians and steradians *)

(** The four transforms are linear: scaling the argument scales the result. *)
Lemma per_sr_linear (f v : R) (kwargs : ctx) (w : pyfloat) :
  per_sr (F (f * v)) kwargs = Ok w ->
  exists r : pyfloat, per_sr (F v) kwargs = Ok r /\ fmul (F f) r = w.
Proof.
  unfold per_sr. destruct (surface kwargs) as [s | e |]; simpl; try discriminate.
  destruct s as [x |]; unfold fdiv.
  - destruct (Req_dec_T x 0) as [E | N]; [discriminate |].
    intros [= <-]. eexists. split; [reflexivity |]. simpl. f_equal. field. exact N.
  - intros [= <-]. eexists. split; reflexivity.
Qed.

Lemma times_sr_linear (f v : R) (kwargs : ctx) (w : pyfloat) :
  times_sr (F (f * v)) kwargs = Ok w ->
  exists r : pyfloat, times_sr (F v) kwargs = Ok r /\ fmul (F f) r = w.
Proof.
  unfold times_sr. destruct (surface kwargs) as [s | e |]; simpl; try discriminate.
  intros [= <-]. eexists. split; [reflexivity |].
  destruct s as [x |]; simpl; [f_equal; ring | reflexivity].
Qed.

Lemma per_cy_linear (f v : R) (kwargs : ctx) (w : pyfloat) :
  per_cy (F (f * v)) kwargs = Ok w ->
  exists r : pyfloat, per_cy (F v) kwargs = Ok r /\ fmul (F f) r = w.
Proof.
  unfold per_cy. intros [= <-]. eexists. split; [reflexivity |].
  simpl. f_equal. field. pose proof PI_RGT_0. lra.
Qed.

Lemma times_cy_linear (f v : R) (kwargs : ctx) (w : pyfloat) :
  times_cy (F (f * v)) kwargs = Ok w ->
  exists r : pyfloat, times_cy (F v) kwargs = Ok r /\ fmul (F f) r = w.
Proof.
  unfold times_cy. intros [= <-]. eexists. split; [reflexivity |].
  simpl. f_equal. ring.
Qed.

Lemma rad_branch_fires (K : Constants) (eff_wave : string -> pyfloat)
    (conv : converting) (marker : string)
    (transform : pyfloat -> ctx -> result pyfloat)
    (f v : R) (only_from : string) (kwargs : ctx) (w : pyfloat) :
  switch K eff_wave conv (marker ++ "_to_") = Ok transform ->
  (exists r : pyfloat, transform (F v) kwargs = Ok r /\ fmul (F f) r = w) ->
  rad_branch K eff_wave conv marker (FNum f) (F v) only_from kwargs
  = Ok (FNum 1, w, Py.replace marker "" only_from).
Proof.
  intros Hs (r & Hr & Hw). unfold rad_branch. rewrite Hs. cbn [bind].
  rewrite Hr. cbn [bind fac_times]. rewrite Hw. reflexivity.
Qed.

(** The radian step of [convert], on any leftover.  The markers are looked
    for in the order [rad2], [rad-2], [rad1], [rad-1]; the first one found
    applies its transform to [fac_from*start_value], is removed from the
    leftover and resets [fac_from] to 1; without marker nothing changes. *)
Lemma radians_first_marker :
  forall (K : Constants) (eff_wave : string -> pyfloat) (conv : converting)
         (facFrom value : R) (only_from : string) (kwargs : ctx),
    let run := radians K eff_wave conv (FNum facFrom) (F value) only_from kwargs in
    (Py.contains "rad2" only_from = true ->
     forall w, per_sr (F (facFrom * value)) kwargs = Ok w ->
       run = Ok (FNum 1, w, Py.replace "rad2" "" only_from)) /\
    (Py.contains "rad2" only_from = false ->
     Py.contains "rad-2" only_from = true ->
     forall w, times_sr (F (facFrom * value)) kwargs = Ok w ->
       run = Ok (FNum 1, w, Py.replace "rad-2" "" only_from)) /\
    (Py.contains "rad2" only_from = false ->
     Py.contains "rad-2" only_from = false ->
     Py.contains "rad1" only_from = true ->
     forall w, per_cy (F (facFrom * value)) kwargs = Ok w ->
       run = Ok (FNum 1, w, Py.replace "rad1" "" only_from)) /\
    (Py.contains "rad2" only_from = false ->
     Py.contains "rad-2" only_from = false ->
     Py.contains "rad1" only_from = false ->
     Py.contains "rad-1" only_from = true ->
     forall w, times_cy (F (facFrom * value)) kwargs = Ok w ->
       run = Ok (FNum 1, w, Py.replace "rad-1" "" only_from)) /\
    (Py.contains "rad2" only_from = false ->
     Py.contains "rad-2" only_from = false ->
     Py.contains "rad1" only_from = false ->
     Py.contains "rad-1" only_from = false ->
     run = Ok (FNum facFrom, F value, only_from)).
Proof.
  intros K eff_wave conv facFrom value only_from kwargs run.
  unfold run, radians. repeat split.
  - intros H1 w Hw. rewrite H1.
    apply rad_branch_fires with (transform := per_sr);
      [reflexivity | apply per_sr_linear; exact Hw].
  - intros H1 H2 w Hw. rewrite H1, H2.
    apply rad_branch_fires with (transform := times_sr);
      [reflexivity | apply times_sr_linear; exact Hw].
  - intros H1 H2 H3 w Hw. rewrite H1, H2, H3.
    apply rad_branch_fires with (transform := per_cy);
      [reflexivity | apply per_cy_linear; exact Hw].
  - intros H1 H2 H3 H4 w Hw. rewrite H1, H2, H3, H4.
    apply rad_branch_fires with (transform := times_cy);
      [reflexivity | apply times_cy_linear; exact Hw].
  - intros H1 H2 H3 H4. rewrite H1, H2, H3, H4. reflexivity.
Qed.

(** ** [nconvert] *)

(** What the body of the loop of [nconvert] does with element [i] before
    the result is stored: the value is taken from the positional argument,
    the keyword arguments are indexed, [convert] is called. *)
Definition element_outcome (K : Constants) (maxint : Z) (zp : list zp_row)
    (eff_wave : string -> pyfloat) (depth : nat)
    (arg : list pyfloat) (kwargs : list (string * nkwval))
    (i : nat) (_from _to : string) : result pyfloat :=
  match nth_error arg i with
  | None => Raise IndexError
  | Some x =>
      mykwargs <- mapM (element i) kwargs ;;
      convert K maxint zp eff_wave depth _from _to x mykwargs
  end.

(** An element the loop gets past: it converts, or fails with [ValueError]. *)
Definition passes (r : result pyfloat) : Prop :=
  (exists v : pyfloat, r = Ok v) \/ r = Raise ValueError.

(** What [ret_value] holds for such an element. *)
Definition stored (r : result pyfloat) : pyfloat :=
  match r with
  | Ok v => v
  | _ => NaN
  end.

Lemma assign_length (i : nat) (v : pyfloat) (l : list pyfloat) :
  List.length (assign i v l) = List.length l.
Proof.
  revert i. induction l as [| x l IH]; intros [| i]; simpl; auto.
Qed.

Lemma assign_same (i : nat) (v : pyfloat) (l : list pyfloat) :
  (i < List.length l)%nat -> nth_error (assign i v l) i = Some v.
Proof.
  revert i. induction l as [| x l IH]; intros [| i]; simpl; intros H;
    try lia; auto. apply IH. lia.
Qed.

Lemma assign_other (i k : nat) (v : pyfloat) (l : list pyfloat) :
  k <> i -> nth_error (assign i v l) k = nth_error l k.
Proof.
  revert i k. induction l as [| x l IH]; intros [| i] [| k]; simpl; intros H;
    try congruence; auto.
Qed.

Lemma element_raises (i : nat) (kwargs : list (string * nkwval)) (e : exn) :
  mapM (element i) kwargs = Raise e -> e = IndexError.
Proof.
  induction kwargs as [| [key v] kwargs IH]; simpl; [discriminate |].
  destruct v as [x | s | l]; simpl.
  - destruct (mapM (element i) kwargs); simpl; try discriminate. exact IH.
  - destruct (mapM (element i) kwargs); simpl; try discriminate. exact IH.
  - destruct (nth_error l i); simpl.
    + destruct (mapM (element i) kwargs); simpl; try discriminate. exact IH.
    + intros [= <-]. reflexivity.
Qed.

Lemma element_modelled (i : nat) (kwargs : list (string * nkwval)) :
  mapM (element i) kwargs <> Unmodelled.
Proof.
  induction kwargs as [| [key v] kwargs IH]; simpl; [discriminate |].
  destruct v as [x | s | l]; simpl;
    try destruct (nth_error l i); simpl;
    destruct (mapM (element i) kwargs); simpl; congruence.
Qed.

Section Batch.

Variable K : Constants.
Variable maxint : Z.
Variable zp : list zp_row.
Variable eff_wave : string -> pyfloat.
Variable depth : nat.
Variable arg : list pyfloat.
Variable kwargs : list (string * nkwval).

Let outcome := element_outcome K maxint zp eff_wave depth arg kwargs.
Let loop := nconvert_loop K maxint zp eff_wave depth.

Lemma loop_step (i : nat) (_from _to : string) (todo : list (string * string))
    (ret_value : list pyfloat) :
  loop i ((_from, _to) :: todo) arg kwargs ret_value =
  match outcome i _from _to with
  | Ok v => loop (S i) todo arg kwargs (assign i v ret_value)
  | Raise ValueError => loop (S i) todo arg kwargs (assign i NaN ret_value)
  | Raise e => Raise e
  | Unmodelled => Unmodelled
  end.
Proof.
  unfold loop, outcome, element_outcome. simpl.
  destruct (nth_error arg i) as [x |]; [| reflexivity].
  destruct (mapM (element i) kwargs) as [kw | e |] eqn:E; simpl.
  - reflexivity.
  - apply element_raises in E. subst e. reflexivity.
  - reflexivity.
Qed.

Lemma outcome_in_range (i : nat) (_from _to : string) :
  passes (outcome i _from _to) -> (i < List.length arg)%nat.
Proof.
  unfold outcome, element_outcome. intros H.
  destruct (nth_error arg i) eqn:E.
  - apply nth_error_Some. congruence.
  - destruct H as [[v H] | H]; discriminate.
Qed.

Lemma loop_passes (todo : list (string * string)) :
  forall (i : nat) (ret_value : list pyfloat),
    List.length ret_value = List.length arg ->
    (forall j _from _to, nth_error todo j = Some (_from, _to) ->
       passes (outcome (i + j) _from _to)) ->
    exists ret : list pyfloat,
      loop i todo arg kwargs ret_value = Ok ret /\
      List.length ret = List.length arg /\
      (forall j _from _to, nth_error todo j = Some (_from, _to) ->
         nth_error ret (i + j) = Some (stored (outcome (i + j) _from _to))) /\
      (forall k, (k < i)%nat -> nth_error ret k = nth_error ret_value k).
Proof.
  induction todo as [| [_from _to] todo IH]; intros i ret_value Hlen Hall.
  - exists ret_value. repeat split; auto.
    intros j f t H. destruct j; discriminate.
  - rewrite loop_step.
    assert (H0 : passes (outcome (i + 0) _from _to)) by (apply Hall; reflexivity).
    rewrite Nat.add_0_r in H0.
    assert (Hi : (i < List.length arg)%nat) by (eapply outcome_in_range; eauto).
    assert (Hrest : forall j f t, nth_error todo j = Some (f, t) ->
                      passes (outcome (S i + j) f t)).
    { intros j f t H. replace (S i + j)%nat with (i + S j)%nat by lia.
      apply Hall. exact H. }
    set (v := stored (outcome i _from _to)).
    assert (Estep : match outcome i _from _to with
                    | Ok v => loop (S i) todo arg kwargs (assign i v ret_value)
                    | Raise ValueError =>
                        loop (S i) todo arg kwargs (assign i NaN ret_value)
                    | Raise e => Raise e
                    | Unmodelled => Unmodelled
                    end = loop (S i) todo arg kwargs (assign i v ret_value)).
    { unfold v. destruct H0 as [[w ->] | ->]; reflexivity. }
    rewrite Estep.
    destruct (IH (S i) (assign i v ret_value)) as (ret & Hr & Hl & Hset & Hkeep).
    { rewrite assign_length. exact Hlen. }
    { exact Hrest. }
    exists ret. repeat split; auto.
    + intros [| j] f t H.
      * injection H as <- <-. rewrite Nat.add_0_r.
        rewrite Hkeep by lia. apply assign_same. lia.
      * replace (i + S j)%nat with (S i + j)%nat by lia. apply Hset. exact H.
    + intros k Hk. rewrite Hkeep by lia. apply assign_other. lia.
Qed.

Lemma loop_aborts (todo : list (string * string)) :
  forall (i j : nat) (ret_value : list pyfloat) (_from _to : string) (e : exn),
    nth_error todo j = Some (_from, _to) ->
    outcome (i + j) _from _to = Raise e ->
    e <> ValueError ->
    (forall j' f t, (j' < j)%nat -> nth_error todo j' = Some (f, t) ->
       passes (outcome (i + j') f t)) ->
    loop i todo arg kwargs ret_value = Raise e.
Proof.
  induction todo as [| [f0 t0] todo IH]; intros i j ret_value _from _to e Hj He Hne Hbefore.
  - destruct j; discriminate.
  - rewrite loop_step. destruct j as [| j].
    + injection Hj as <- <-. rewrite Nat.add_0_r in He. rewrite He.
      destruct e; congruence.
    + assert (H0 : passes (outcome (i + 0) f0 t0)) by (apply Hbefore; [lia | reflexivity]).
      rewrite Nat.add_0_r in H0.
      assert (Hrest : forall ret, loop (S i) todo arg kwargs ret = Raise e).
      { intros ret. apply (IH (S i) j ret _from _to e); auto.
        - replace (S i + j)%nat with (i + S j)%nat by lia. exact He.
        - intros j' f t Hlt H. replace (S i + j')%nat with (i + S j')%nat by lia.
          apply Hbefore; [lia | exact H]. }
      destruct H0 as [[w ->] | ->]; apply Hrest.
Qed.

End Batch.

(** C6, as the code has it.  [nconvert] catches [ValueError] and nothing
    else.  When every element of the batch converts or fails with
    [ValueError] (an unknown unit, a missing reference value, an unknown
    passband), the batch returns, with not-a-number in place of each failed
    element; the first element to fail with any other exception, such as
    the [KeyError] of a missing entry of [_switch], aborts the batch with
    that exception. *)
Theorem nconvert_catches_ValueError_only :
  forall (K : Constants) (maxint : Z) (zp : list zp_row)
         (eff_wave : string -> pyfloat) (depth : nat)
         (_froms _tos : units) (arg : list pyfloat)
         (kwargs : list (string * nkwval)),
    let outcome := element_outcome K maxint zp eff_wave depth arg kwargs in
    let batch := nconvert K maxint zp eff_wave depth _froms _tos arg kwargs in
    ((forall i _from _to, nth_error (pairs _froms _tos) i = Some (_from, _to) ->
        passes (outcome i _from _to)) ->
     exists ret : list pyfloat,
       batch = Ok ret /\
       forall i _from _to, nth_error (pairs _froms _tos) i = Some (_from, _to) ->
         nth_error ret i = Some (stored (outcome i _from _to))) /\
    (forall i _from _to e,
       nth_error (pairs _froms _tos) i = Some (_from, _to) ->
       outcome i _from _to = Raise e ->
       e <> ValueError ->
       (forall j f t, (j < i)%nat -> nth_error (pairs _froms _tos) j = Some (f, t) ->
          passes (outcome j f t)) ->
       batch = Raise e).
Proof.
  intros K maxint zp eff_wave depth _froms _tos arg kwargs outcome batch.
  unfold batch, nconvert. split.
  - intros Hall.
    destruct (loop_passes K maxint zp eff_wave depth arg kwargs
                (pairs _froms _tos) 0 (repeat (F 0) (List.length arg)))
      as (ret & Hr & _ & Hset & _).
    + apply repeat_length.
    + intros j f t H. apply Hall. exact H.
    + exists ret. split; [exact Hr |]. intros i f t H. apply (Hset i f t H).
  - intros i _from _to e Hi He Hne Hbefore.
    apply (loop_aborts K maxint zp eff_wave depth arg kwargs
             (pairs _froms _tos) 0 i _ _from _to e); auto.
Qed.

(** A batch of two: the first element has an unknown unit, the second is
    converted. *)
Lemma nconvert_catches_ValueError_only_witness :
  exists ret : list pyfloat,
    nconvert si_constants maxint64 sample_zp no_curve 1
      (UList ["parsec_"; "km"]) (UStr "m") [F 1; F 2] [] = Ok ret /\
    nth_error ret 0 = Some NaN /\
    exists x : R, nth_error ret 1 = Some (F x) /\ x = 2000.
Proof.
  assert (E0 : element_outcome si_constants maxint64 sample_zp no_curve 1
                 [F 1; F 2] [] 0 "parsec_" "m" = Raise ValueError).
  { unfold element_outcome. pyrun. reflexivity. }
  assert (E1 : exists x : R,
             element_outcome si_constants maxint64 sample_zp no_curve 1
               [F 1; F 2] [] 1 "km" "m" = Ok (F x) /\ x = 2000).
  { eexists. split; [unfold element_outcome; pyrun; reflexivity | lra]. }
  destruct E1 as (x & E1 & Hx).
  destruct (proj1 (nconvert_catches_ValueError_only si_constants maxint64
                     sample_zp no_curve 1 (UList ["parsec_"; "km"]) (UStr "m")
                     [F 1; F 2] [])) as (ret & Hret & Hnth).
  - intros [| [| i]] f t H; simpl in H; try (destruct i; discriminate);
      injection H as <- <-.
    + right. exact E0.
    + left. exists (F x). exact E1.
  - exists ret. split; [exact Hret |]. split.
    + rewrite (Hnth 0%nat "parsec_" "m" eq_refl), E0. reflexivity.
    + exists x. split; [| exact Hx].
      rewrite (Hnth 1%nat "km" "m" eq_refl), E1. reflexivity.
Defined.

(** The claim as stated fails on a missing entry of [_switch]: the batch
    is aborted and the second element is never converted. *)
Lemma nconvert_aborts_on_KeyError :
  convert si_constants maxint64 sample_zp no_curve 1 "m" "kg" (F 1) [] = Raise KeyError
  /\ nconvert si_constants maxint64 sample_zp no_curve 1
       (UList ["m"; "km"]) (UList ["kg"; "m"]) [F 1; F 2] [] = Raise KeyError.
Proof.
  split; pyrun; reflexivity.
Qed.

(** ** What a match of a pattern tells *)

Fixpoint all (p : ascii -> bool) (s : string) : bool :=
  match s with
  | EmptyString => true
  | String c s' => p c && all p s'
  end.

Definition within (h : option nat) (n : nat) : Prop :=
  match h with
  | None => True
  | Some m => (n <= m)%nat
  end.

Lemma append_assoc (a b c : string) : ((a ++ b) ++ c)%string = (a ++ (b ++ c))%string.
Proof. induction a as [| x a IH]; simpl; [reflexivity | now rewrite IH]. Qed.

Lemma append_empty_r (a : string) : (a ++ "")%string = a.
Proof. induction a as [| x a IH]; simpl; [reflexivity | now rewrite IH]. Qed.

Lemma append_length (a b : string) :
  String.length (a ++ b) = (String.length a + String.length b)%nat.
Proof. induction a as [| x a IH]; simpl; [reflexivity | now rewrite IH]. Qed.

Lemma all_append (p : ascii -> bool) (a b : string) :
  all p (a ++ b) = all p a && all p b.
Proof.
  induction a as [| x a IH]; simpl; [reflexivity |].
  rewrite IH. now rewrite andb_assoc.
Qed.

(** A quantified class consumes a run of its class, of a length its bounds
    allow, and hands the rest to what follows. *)
Lemma quant_sound {A} (p : ascii -> bool) (g : bool)
    (k : string -> string -> option A) (r : A) :
  forall (s acc : string) (l : nat) (h : option nat),
    Re.quant p g l h k acc s = Some r ->
    exists taken rest : string,
      s = (taken ++ rest)%string /\ all p taken = true /\
      (l <= String.length taken)%nat /\ within h (String.length taken) /\
      k (acc ++ taken)%string rest = Some r.
Proof.
  assert (Hstop : forall (s acc : string) (l : nat) (h : option nat),
             Re.stop l k acc s = Some r ->
             exists taken rest : string,
               s = (taken ++ rest)%string /\ all p taken = true /\
               (l <= String.length taken)%nat /\ within h (String.length taken) /\
               k (acc ++ taken)%string rest = Some r).
  { intros s acc l h H. destruct l; [| discriminate]. simpl in H.
    exists EmptyString, s. rewrite append_empty_r. repeat split; auto.
    destruct h; simpl; [lia | exact I]. }
  assert (Hmore : forall (c : ascii) (s' acc : string) (l : nat) (h : option nat),
             p c = true -> Re.allows h = true ->
             (exists taken rest : string,
                s' = (taken ++ rest)%string /\ all p taken = true /\
                (pred l <= String.length taken)%nat /\
                within (Re.decr h) (String.length taken) /\
                k ((acc ++ String c "") ++ taken)%string rest = Some r) ->
             exists taken rest : string,
               String c s' = (taken ++ rest)%string /\ all p taken = true /\
               (l <= String.length taken)%nat /\ within h (String.length taken) /\
               k (acc ++ taken)%string rest = Some r).
  { intros c s' acc l h Hc Hh (taken & rest & -> & Hall & Hlo & Hhi & Hk).
    exists (String c taken), rest. simpl. rewrite Hc, Hall.
    rewrite append_assoc in Hk. simpl in Hk. repeat split; auto; [lia |].
    destruct h as [[| m] |]; simpl in *; try discriminate; try lia; exact I. }
  induction s as [| c s' IH]; intros acc l h H; simpl in H.
  - apply Hstop. exact H.
  - destruct (p c) eqn:Hc; simpl in H; [| apply Hstop; exact H].
    destruct (Re.allows h) eqn:Hh; [| apply Hstop; exact H].
    destruct g.
    + destruct (Re.quant p true (pred l) (Re.decr h) k (acc ++ String c "") s')
        as [r' |] eqn:E.
      * injection H as <-. apply Hmore; auto.
      * apply Hstop. exact H.
    + destruct (Re.stop l k acc (String c s')) as [r' |] eqn:E.
      * injection H as <-. apply Hstop. exact E.
      * apply Hmore; auto.
Qed.

Lemma search_unfold (atoms : list Re.atom) (s : string) :
  Re.search atoms s =
  match Re.match_here atoms s with
  | Some r => Some r
  | None =>
      match s with
      | String _ s' => Re.search atoms s'
      | EmptyString => None
      end
  end.
Proof. destruct s; reflexivity. Qed.

(** The match of [unit_pattern] found by [search]: digits, a non-empty
    basis, at most one minus sign, at least one digit. *)
Lemma unit_pattern_groups (s : string) (caps : list string) :
  Re.search Re.unit_pattern s = Some caps ->
  exists g1 g2 sgn ds : string,
    caps = [g1; g2; sgn; ds] /\
    all Py.isdigit g1 = true /\ g2 <> EmptyString /\
    (sgn = EmptyString \/ sgn = "-"%string) /\
    all Py.isdigit ds = true /\ ds <> EmptyString.
Proof.
  assert (Hhere : forall t, Re.match_here Re.unit_pattern t = Some caps ->
            exists g1 g2 sgn ds : string,
              caps = [g1; g2; sgn; ds] /\
              all Py.isdigit g1 = true /\ g2 <> EmptyString /\
              (sgn = EmptyString \/ sgn = "-"%string) /\
              all Py.isdigit ds = true /\ ds <> EmptyString).
  { intros t H. unfold Re.unit_pattern, Re.match_here in H.
    apply quant_sound in H. destruct H as (g1 & r1 & _ & H1 & _ & _ & H).
    destruct (Re.quant _ _ _ _ _ _ r1) as [c1 |] eqn:E1; [| discriminate].
    injection H as <-. apply quant_sound in E1.
    destruct E1 as (g2 & r2 & _ & _ & L2 & _ & H).
    destruct (Re.quant _ _ _ _ _ _ r2) as [c2 |] eqn:E2; [| discriminate].
    injection H as <-. apply quant_sound in E2.
    destruct E2 as (sgn & r3 & _ & A3 & _ & W3 & H).
    destruct (Re.quant _ _ _ _ _ _ r3) as [c3 |] eqn:E3; [| discriminate].
    injection H as <-. apply quant_sound in E3.
    destruct E3 as (ds & r4 & _ & A4 & L4 & _ & H).
    injection H as <-. simpl in *.
    exists g1, g2, sgn, ds. repeat split; auto.
    - intros ->. simpl in L2. lia.
    - destruct sgn as [| a [| b sgn]]; auto.
      + right.
        change (all (Re.lit "-") (String a "")) with (Ascii.eqb "-" a && true) in A3.
        apply andb_prop in A3. destruct A3 as [E _].
        apply Ascii.eqb_eq in E. subst a. reflexivity.
      + simpl in W3. lia.
    - intros ->. simpl in L4. lia. }
  induction s as [| c s IH]; intros H; rewrite search_unfold in H;
    destruct (Re.match_here Re.unit_pattern _) eqn:E.
  - injection H as <-. eapply Hhere; eauto.
  - discriminate.
  - injection H as <-. eapply Hhere; eauto.
  - apply IH. exact H.
Qed.

(** ** Tokens after a division sign *)










(** ** Prefactors in scientific notation *)

Definition digit_value (c : ascii) : Z := Z.of_nat (nat_of_ascii c - 48).

Definition two_digits (a b : ascii) : Z := 10 * digit_value a + digit_value b.

(** The signed exponent a sign character and two digits denote. *)
Definition signed (sgn a b : ascii) : Z :=
  if Ascii.eqb sgn "-" then (- two_digits a b)%Z else two_digits a b.

(** [f'] is [f] with its number, or the prefix of its converter, multiplied
    by [p]. *)
Definition scaled (p : R) (f f' : fac) : Prop :=
  match f, f' with
  | FNum x, FNum y => y = p * x
  | FComplex x, FComplex y => y = p * x
  | FConv c q w, FConv c' q' w' => c' = c /\ q' = p * q /\ w' = w
  | _, _ => False
  end.

Definition ch (c : ascii) : string := String c EmptyString.

Lemma digit_cases (a : ascii) :
  Py.isdigit a = true ->
  In a ["0"; "1"; "2"; "3"; "4"; "5"; "6"; "7"; "8"; "9"]%char.
Proof.
  destruct a as [[] [] [] [] [] [] [] []]; intros H; try discriminate H;
    simpl; tauto.
Qed.

Lemma int_of_two_digits (a b : ascii) :
  Py.isdigit a = true -> Py.isdigit b = true ->
  int_of (ch a ++ ch b) = Ok (two_digits a b).
Proof.
  intros Ha Hb. apply digit_cases in Ha. apply digit_cases in Hb.
  simpl in Ha, Hb.
  repeat (destruct Ha as [<- | Ha]; [| idtac]); try contradiction;
    repeat (destruct Hb as [<- | Hb]; [| idtac]); try contradiction;
    reflexivity.
Qed.

Lemma sci_value_denotes (a b sgn c d : ascii) :
  Py.isdigit a = true -> Py.isdigit b = true ->
  Py.isdigit c = true -> Py.isdigit d = true ->
  (IZR (two_digits a b) <> 0 \/ (0 <= signed sgn c d)%Z) ->
  sci_value (ch a ++ ch b) (ch sgn) (ch c ++ ch d)
  = Ok (powerRZ (IZR (two_digits a b)) (signed sgn c d)).
Proof.
  intros Ha Hb Hc Hd Hz. unfold sci_value, float_of.
  rewrite (int_of_two_digits a b Ha Hb), (int_of_two_digits c d Hc Hd).
  cbn [bind]. unfold ch at 1.
  change (String.eqb (String sgn "") "-") with (Ascii.eqb sgn "-" && true).
  rewrite andb_true_r. fold (signed sgn c d).
  unfold float_pow. destruct (signed sgn c d <? 0)%Z eqn:E; [| reflexivity].
  destruct (Req_dec_T (IZR (two_digits a b)) 0) as [E0 | _]; [| reflexivity].
  apply Z.ltb_lt in E. destruct Hz; [contradiction | lia].
Qed.

Lemma quant_zero {A} (p : ascii -> bool) (g : bool)
    (k : string -> string -> option A) (acc s : string) :
  Re.quant p g 0 (Some 0%nat) k acc s = k acc s.
Proof. destruct s; simpl; [reflexivity |]. now rewrite andb_false_r. Qed.

Lemma match_one (p : ascii -> bool) (rest : list Re.atom) (c : ascii) (s : string) :
  p c = true ->
  Re.match_here (Re.one p :: rest) (String c s)
  = option_map (cons (ch c)) (Re.match_here rest s).
Proof.
  intros H. cbn [Re.match_here Re.one Re.cls Re.lo Re.hi Re.greedy Re.quant].
  rewrite H. cbn [andb Re.allows pred Re.decr option_map].
  rewrite quant_zero. cbn [append].
  destruct (Re.match_here rest s); reflexivity.
Qed.

Lemma match_one_fails (p : ascii -> bool) (rest : list Re.atom) (c : ascii) (s : string) :
  p c = false -> Re.match_here (Re.one p :: rest) (String c s) = None.
Proof.
  intros H. cbn [Re.match_here Re.one Re.cls Re.lo Re.hi Re.greedy Re.quant].
  rewrite H. reflexivity.
Qed.

Lemma sci_pattern_matches (a b sgn c d : ascii) :
  Py.isdigit a = true -> Py.isdigit b = true ->
  sgn = "+"%char \/ sgn = "-"%char ->
  Py.isdigit c = true -> Py.isdigit d = true ->
  Re.search Re.sci_pattern (String a (String b (String sgn (String c (String d "")))))
  = Some [ch a; ch b; ch sgn; ch c; ch d].
Proof.
  intros Ha Hb Hs Hc Hd. rewrite search_unfold. unfold Re.sci_pattern.
  rewrite !match_one; auto.
  destruct Hs as [-> | ->]; reflexivity.
Qed.

Lemma match_one_empty (p : ascii -> bool) (rest : list Re.atom) :
  Re.match_here (Re.one p :: rest) "" = None.
Proof. reflexivity. Qed.

Lemma sign_not_digit (sgn : ascii) :
  sgn = "+"%char \/ sgn = "-"%char -> Py.isdigit sgn = false.
Proof. intros [-> | ->]; reflexivity. Qed.

Lemma sci_e_pattern_matches (a b mark sgn c d : ascii) :
  Py.isdigit a = true -> Py.isdigit b = true ->
  In mark ["["; "e"; "E"]%char ->
  sgn = "+"%char \/ sgn = "-"%char ->
  Py.isdigit c = true -> Py.isdigit d = true ->
  Re.search Re.sci_e_pattern
    (String a (String b (String mark (String sgn (String c (String d ""))))))
  = Some [ch a; ch b; ch mark; ch sgn; ch c; ch d].
Proof.
  intros Ha Hb Hm Hs Hc Hd. rewrite search_unfold. unfold Re.sci_e_pattern.
  rewrite !match_one; auto.
  - destruct Hs as [-> | ->]; reflexivity.
  - simpl in Hm. destruct Hm as [<- | [<- | [<- | []]]]; reflexivity.
Qed.

(** The first pattern does not match the head of a prefactor of the
    second form. *)
Lemma sci_pattern_skips_e (a b mark sgn c : ascii) :
  Py.isdigit a = true -> Py.isdigit b = true ->
  In mark ["["; "e"; "E"]%char ->
  sgn = "+"%char \/ sgn = "-"%char ->
  Re.search Re.sci_pattern (String a (String b (String mark (String sgn (String c "")))))
  = None.
Proof.
  intros Ha Hb Hm Hs.
  assert (Hm1 : Re.any_of ["-"; "+"]%char mark = false).
  { simpl in Hm. destruct Hm as [<- | [<- | [<- | []]]]; reflexivity. }
  assert (Hm2 : Py.isdigit mark = false).
  { simpl in Hm. destruct Hm as [<- | [<- | [<- | []]]]; reflexivity. }
  pose proof (sign_not_digit sgn Hs) as Hs2.
  unfold Re.sci_pattern.
  rewrite search_unfold, !match_one, match_one_fails by auto. cbn [option_map].
  rewrite search_unfold, match_one, match_one_fails by auto. cbn [option_map].
  rewrite search_unfold, match_one_fails by auto.
  rewrite search_unfold, match_one_fails by auto.
  rewrite search_unfold.
  destruct (Py.isdigit c) eqn:Hc.
  - rewrite match_one, match_one_empty by auto. reflexivity.
  - rewrite match_one_fails by auto. reflexivity.
Qed.

(** ** Tokens that match no pattern are unknown units *)

Lemma lookup_In {A} (k : string) (d : list (string * A)) (v : A) :
  lookup k d = Some v -> In (k, v) d.
Proof.
  induction d as [| [k' v'] d IH]; simpl; [discriminate |].
  destruct (String.eqb_spec k' k) as [-> | _].
  - intros [= ->]. left. reflexivity.
  - intros H. right. apply IH. exact H.
Qed.

Definition ends_with_digit (s : string) : Prop :=
  exists c, Py.last_char s = Some c /\ Py.isdigit c = true.

(** The Bohr radius is the only unit whose name ends with a digit. *)
Lemma factor_key_digit (K : Constants) (b : string) :
  has_key b (_factors K) = true -> ends_with_digit b -> b = "a0"%string.
Proof.
  unfold has_key. destruct (lookup b (_factors K)) as [v |] eqn:E; [| discriminate].
  intros _ (c & Hc & Hd). apply lookup_In in E. unfold _factors in E.
  simpl in E.
  repeat (destruct E as [E | E];
          [injection E as <- _; simpl in Hc; injection Hc as <-;
           first [reflexivity | discriminate Hd] |]).
  contradiction.
Qed.

Lemma ensure_power_digit (unit u : string) :
  ensure_power unit = Ok u -> ends_with_digit u.
Proof.
  unfold ensure_power. destruct (Py.last_char unit) as [c |] eqn:E; [| discriminate].
  destruct (Py.isdigit c) eqn:Hc; intros [= <-].
  - exists c. auto.
  - exists "1"%char. split; [| reflexivity].
    clear E Hc. induction unit as [| a [| b unit] IH]; try reflexivity.
    change (Py.last_char (String a (String b unit) ++ "1"))
      with (Py.last_char (String b unit ++ "1")).
    exact IH.
Qed.

Lemma take_drop (n : nat) (s : string) : (Py.take n s ++ Py.drop n s)%string = s.
Proof.
  revert s. induction n as [| n IH]; intros [| c s]; simpl; auto.
  now rewrite IH.
Qed.

Lemma last_char_drop (n : nat) (s : string) :
  Py.drop n s <> EmptyString -> Py.last_char (Py.drop n s) = Py.last_char s.
Proof.
  revert s. induction n as [| n IH]; intros [| c s]; simpl; auto.
  intros H. rewrite (IH s H). destruct s; [| reflexivity].
  destruct n; simpl in H; congruence.
Qed.

Lemma find_scaling_spec (K : Constants) (basis : string) (l : list (string * R))
    (scale : string) (v : R) :
  find_scaling K basis l = Some (scale, v) ->
  In (scale, v) l /\
  Py.take (String.length scale) basis = scale /\
  has_key (Py.drop (String.length scale) basis) (_factors K) = true.
Proof.
  induction l as [| [sc x] l IH]; simpl; [discriminate |].
  destruct (String.eqb_spec (Py.take (String.length sc) basis) sc) as [E | _];
    simpl; [| intros H; destruct (IH H) as (? & ? & ?); auto].
  destruct (has_key (Py.drop (String.length sc) basis) (_factors K)) eqn:Hk;
    simpl; [| intros H; destruct (IH H) as (? & ? & ?); auto].
  destruct (has_key basis (_factors K)); simpl;
    [intros H; destruct (IH H) as (? & ? & ?); auto |].
  intros [= <- <-]. auto.
Qed.

(** When the pattern finds nothing, [components] ends in [ValueError]. *)
Lemma to_SI_base_unmatched (K : Constants) (f : R) (u : string) (power : Z) :
  ends_with_digit u ->
  Re.search Re.unit_pattern u = None ->
  forall r, to_SI_base K f u power <> Ok r.
Proof.
  intros Hd Hs r. unfold to_SI_base.
  destruct (find_scaling K u _scalings) as [[scale v] |] eqn:E.
  - exfalso. apply find_scaling_spec in E. destruct E as (Hin & Ht & Hk).
    assert (Hne : Py.drop (String.length scale) u <> EmptyString).
    { intros E0. rewrite E0 in Hk. discriminate Hk. }
    assert (Hb : Py.drop (String.length scale) u = "a0"%string).
    { apply (factor_key_digit K); [exact Hk |].
      destruct Hd as (c & Hc & Hdc). exists c.
      rewrite last_char_drop by exact Hne. auto. }
    pose proof (take_drop (String.length scale) u) as Eu.
    rewrite Ht, Hb in Eu. subst u.
    unfold _scalings in Hin. simpl in Hin.
    repeat (destruct Hin as [Hin | Hin];
            [injection Hin as <- _; discriminate Hs |]).
    contradiction.
  - destruct (has_key u (_factors K)) eqn:Hk; simpl; [| discriminate].
    exfalso. rewrite (factor_key_digit K u Hk Hd) in Hs. discriminate Hs.
Qed.

(** Multiplying the factor collected so far multiplies the result. *)
Lemma to_SI_base_scaled (K : Constants) (p f f' : R) (basis : string) (power : Z)
    (r : fac * string * Z) :
  f' = p * f ->
  to_SI_base K f basis power = Ok r ->
  exists fac', to_SI_base K f' basis power = Ok (fac', snd (fst r), snd r) /\
               scaled p (fst (fst r)) fac'.
Proof.
  intros ->. unfold to_SI_base.
  destruct (find_scaling K basis _scalings) as [[scale v] |]; cbn [bind].
  - destruct (lookup _ (_factors K)) as [[[x | x | c] si] |];
      intros [= <-]; eexists; (split; [reflexivity |]); simpl;
      try (repeat split); ring.
  - destruct (has_key basis (_factors K)); cbn [bind]; [| discriminate].
    destruct (lookup _ (_factors K)) as [[[x | x | c] si] |];
      intros [= <-]; eexists; (split; [reflexivity |]); simpl;
      try (repeat split); ring.
Qed.

Lemma components_from_scaled (K : Constants) (p f f' : R) (unit : string)
    (r : fac * string * Z) :
  f' = p * f ->
  components_from K f unit = Ok r ->
  exists fac', components_from K f' unit = Ok (fac', snd (fst r), snd r) /\
               scaled p (fst (fst r)) fac'.
Proof.
  intros ->. unfold components_from.
  destruct (ensure_power unit) as [u | e |] eqn:Eu; cbn [bind]; try discriminate.
  destruct (Re.search Re.unit_pattern u) as [caps |] eqn:Es.
  - destruct (unit_pattern_groups _ _ Es)
      as (g1 & g2 & sgn & ds & -> & _ & _ & _ & _ & _).
    destruct (int_of (sgn ++ ds)) as [power | e |]; cbn [bind]; try discriminate.
    destruct g1 as [| a g1]; cbn [bind].
    + apply to_SI_base_scaled. reflexivity.
    + destruct (float_of (String a g1)) as [x | e |]; cbn [bind]; try discriminate.
      apply to_SI_base_scaled. ring.
  - cbn [bind]. intros H. exfalso.
    apply (to_SI_base_unmatched K 1 u 1%Z (ensure_power_digit _ _ Eu) Es r H).
Qed.

Lemma take_5 (a b c d e : ascii) (rest : string) :
  Py.take 5 (String a (String b (String c (String d (String e rest)))))
  = String a (String b (String c (String d (String e "")))).
Proof. reflexivity. Qed.

Lemma drop_5 (a b c d e : ascii) (rest : string) :
  Py.drop 5 (String a (String b (String c (String d (String e rest))))) = rest.
Proof. reflexivity. Qed.

Lemma take_6 (a b c d e f : ascii) (rest : string) :
  Py.take 6 (String a (String b (String c (String d (String e (String f rest))))))
  = String a (String b (String c (String d (String e (String f ""))))).
Proof. reflexivity. Qed.

Lemma drop_6 (a b c d e f : ascii) (rest : string) :
  Py.drop 6 (String a (String b (String c (String d (String e (String f rest))))))
  = rest.
Proof. reflexivity. Qed.

(** C7, as the code has it.  A token that begins with two digits, a sign
    and two digits, or with two digits, [e] or [E] (or the [[] that the
    pattern of the code lets through as well), a sign and two digits,
    loses that prefactor, and the factor [components] returns
    for the rest of the token is multiplied by the two leading digits
    raised to the power of the signed two-digit exponent (['10-14'] is
    ten to the minus fourteen).  The rest of the token is taken not to
    begin with a prefactor that [components] would strip in its turn. *)
Theorem components_prefactor_is_a_power :
  forall (K : Constants) (a b sgn c d : ascii) (rest : string)
         (r : fac * string * Z),
    Py.isdigit a = true -> Py.isdigit b = true ->
    sgn = "+"%char \/ sgn = "-"%char ->
    Py.isdigit c = true -> Py.isdigit d = true ->
    IZR (two_digits a b) <> 0 \/ (0 <= signed sgn c d)%Z ->
    Re.search Re.sci_pattern (Py.take 5 rest) = None ->
    components K rest = Ok r ->
    let p := powerRZ (IZR (two_digits a b)) (signed sgn c d) in
    (exists fac',
       components K (String a (String b (String sgn (String c (String d rest)))))
       = Ok (fac', snd (fst r), snd r) /\
       scaled p (fst (fst r)) fac') /\
    (forall mark : ascii,
       In mark ["["; "e"; "E"]%char ->
       Re.search Re.sci_e_pattern (Py.take 6 rest) = None ->
       exists fac',
         components K
           (String a (String b (String mark (String sgn (String c (String d rest))))))
         = Ok (fac', snd (fst r), snd r) /\
         scaled p (fst (fst r)) fac').
Proof.
  intros K a b sgn c d rest r Ha Hb Hs Hc Hd Hz Hnone Hrest p.
  unfold components in Hrest. rewrite Hnone in Hrest. cbn [bind] in Hrest.
  split.
  - unfold components. rewrite take_5, drop_5.
    rewrite sci_pattern_matches by auto.
    change (String a "" ++ String b "")%string with (ch a ++ ch b)%string.
    change (String c "" ++ String d "")%string with (ch c ++ ch d)%string.
    change (String sgn "") with (ch sgn).
    rewrite sci_value_denotes by auto. fold p. cbn [bind].
    destruct (Re.search Re.sci_e_pattern (Py.take 6 rest))
      as [[| x1 [| x2 [| x3 [| x4 [| x5 [| x6 [| x7 l]]]]]]] |];
      cbn [bind] in Hrest |- *;
      try (apply components_from_scaled with (f := 1); [ring | exact Hrest]).
    destruct (sci_value (x1 ++ x2) x4 (x5 ++ x6)) as [v | e |];
      cbn [bind] in Hrest |- *; try discriminate.
    apply components_from_scaled with (f := 1 * v); [ring | exact Hrest].
  - intros mark Hm Hnone6. rewrite Hnone6 in Hrest. cbn [bind] in Hrest.
    unfold components. rewrite take_5.
    rewrite sci_pattern_skips_e by auto. cbn [bind].
    rewrite take_6, drop_6.
    rewrite sci_e_pattern_matches by auto.
    change (String a "" ++ String b "")%string with (ch a ++ ch b)%string.
    change (String c "" ++ String d "")%string with (ch c ++ ch d)%string.
    change (String sgn "") with (ch sgn).
    rewrite sci_value_denotes by auto. fold p. cbn [bind].
    apply components_from_scaled with (f := 1); [ring | exact Hrest].
Qed.

Lemma components_prefactor_is_a_power_witness :
  exists fac',
    components si_constants "10-14cm" = Ok (fac', "m"%string, 1%Z) /\
    scaled (powerRZ 10 (-14)) (FNum (1 * 1e-2 * 1)) fac'.
Proof.
  refine (proj1 (components_prefactor_is_a_power si_constants
                   "1" "0" "-" "1" "4" "cm" (FNum (1 * 1e-2 * 1), "m"%string, 1%Z)
                   _ _ _ _ _ _ _ _)).
  - reflexivity.
  - reflexivity.
  - right. reflexivity.
  - reflexivity.
  - reflexivity.
  - left. change (two_digits "1" "0") with 10%Z. lra.
  - reflexivity.
  - pyrun. reflexivity.
Defined.

(** The claim as stated fails: ['10-14'] before a metre gives the factor
    ten to the minus fourteen, not ten times ten to the minus fourteen. *)
Lemma components_prefactor_not_mantissa_times_power_of_ten :
  exists f : R,
    components si_constants "10-14m" = Ok (FNum f, "m"%string, 1%Z) /\
    f = 1e-14 /\
    f <> 10 * powerRZ 10 (-14).
Proof.
  exists (1 * powerRZ 10 (-14) * 1). split; [| split].
  - pyrun. reflexivity.
  - simpl. lra.
  - simpl. lra.
Qed.

(** ** [sorted] depends on the items only *)

Lemma leb_cons (a b : ascii) (s t : string) :
  String.leb (String a s) (String b t) = true <->
  (N_of_ascii a < N_of_ascii b)%N \/ (a = b /\ String.leb s t = true).
Proof.
  unfold String.leb. simpl. unfold Ascii.compare.
  destruct (N.compare_spec (N_of_ascii a) (N_of_ascii b)) as [E | L | G].
  - assert (a = b) by (rewrite <- (ascii_N_embedding a), <- (ascii_N_embedding b);
                       now rewrite E).
    subst b. split; [intros H; right; auto | intros [H | [_ H]]; [lia | exact H]].
  - split; [intros _; left; exact L | reflexivity].
  - split; [discriminate |].
    intros [H | [-> _]]; lia.
Qed.

Lemma leb_nil (t : string) : String.leb "" t = true.
Proof. destruct t; reflexivity. Qed.

Lemma leb_trans (s t u : string) :
  String.leb s t = true -> String.leb t u = true -> String.leb s u = true.
Proof.
  revert t u. induction s as [| a s IH]; intros t u Hst Htu.
  - apply leb_nil.
  - destruct t as [| b t]; [discriminate |].
    destruct u as [| c u]; [discriminate |].
    apply leb_cons in Hst. apply leb_cons in Htu. apply leb_cons.
    destruct Hst as [L1 | [-> L1]]; destruct Htu as [L2 | [-> L2]].
    + left. lia.
    + left. exact L1.
    + left. exact L2.
    + right. split; [reflexivity | eapply IH; eauto].
Qed.

Definition le_str (x y : string) : Prop := String.leb x y = true.

Lemma insert_sorted_perm (x : string) (l : list string) :
  Permutation (x :: l) (Py.insert_sorted x l).
Proof.
  induction l as [| y l IH]; simpl; [reflexivity |].
  destruct (String.leb x y); [reflexivity |].
  rewrite perm_swap. apply perm_skip. exact IH.
Qed.

Lemma sorted_perm (l : list string) : Permutation l (Py.sorted l).
Proof.
  induction l as [| x l IH]; simpl; [reflexivity |].
  rewrite <- insert_sorted_perm. apply perm_skip. exact IH.
Qed.

Lemma insert_sorted_ordered (x : string) (l : list string) :
  StronglySorted le_str l -> StronglySorted le_str (Py.insert_sorted x l).
Proof.
  induction l as [| y l IH]; simpl; intros H.
  - constructor; [constructor | constructor].
  - inversion H as [| ? ? Hl Hy]; subst.
    destruct (String.leb x y) eqn:E.
    + constructor; [exact H |]. constructor; [exact E |].
      eapply Forall_impl; [| exact Hy]. intros z Hz. eapply leb_trans; eauto.
    + constructor; [apply IH; exact Hl |].
      assert (Hyx : le_str y x).
      { destruct (String.leb_total x y) as [H1 | H1]; [congruence | exact H1]. }
      eapply Permutation_Forall; [apply insert_sorted_perm |].
      constructor; assumption.
Qed.

Lemma sorted_ordered (l : list string) : StronglySorted le_str (Py.sorted l).
Proof.
  induction l as [| x l IH]; simpl; [constructor |].
  apply insert_sorted_ordered. exact IH.
Qed.

Lemma ordered_unique (l l' : list string) :
  StronglySorted le_str l -> StronglySorted le_str l' ->
  Permutation l l' -> l = l'.
Proof.
  revert l'. induction l as [| x l IH]; intros l' Hl Hl' Hp.
  - apply Permutation_nil in Hp. now subst.
  - destruct l' as [| y l'].
    + apply Permutation_sym, Permutation_nil in Hp. discriminate.
    + inversion Hl as [| ? ? Hl1 Hx]; subst.
      inversion Hl' as [| ? ? Hl1' Hy]; subst.
      assert (x = y).
      { assert (Hin : In x (y :: l')) by (eapply Permutation_in; [exact Hp | now left]).
        assert (Hin' : In y (x :: l))
          by (eapply Permutation_in; [apply Permutation_sym; exact Hp | now left]).
        destruct Hin as [-> | Hin]; [reflexivity |].
        destruct Hin' as [-> | Hin']; [reflexivity |].
        apply String.leb_antisym.
        - rewrite Forall_forall in Hx. apply Hx. exact Hin'.
        - rewrite Forall_forall in Hy. apply Hy. exact Hin. }
      subst y. f_equal. apply IH; auto.
      eapply Permutation_cons_inv. exact Hp.
Qed.

Lemma sorted_of_permutation (l l' : list string) :
  Permutation l l' -> Py.sorted l = Py.sorted l'.
Proof.
  intros H. apply ordered_unique; try apply sorted_ordered.
  rewrite <- (sorted_perm l), <- (sorted_perm l'). exact H.
Qed.

(** ** Strings as words separated by white space *)

Definition nonspace (c : ascii) : bool := negb (Py.isspace c).

Definition nonempty (t : string) : bool :=
  match t with
  | EmptyString => false
  | String _ _ => true
  end.

(** Nothing, or something that begins with white space. *)
Definition boundary (rest : string) : Prop :=
  rest = EmptyString \/ exists c r, rest = String c r /\ Py.isspace c = true.

Lemma split_word_app (w rest : string) :
  all nonspace w = true -> w <> EmptyString -> boundary rest ->
  Py.split (w ++ rest) = w :: Py.split rest.
Proof.
  induction w as [| c w IH]; intros Hw Hne Hb; [congruence |].
  simpl in Hw. apply andb_prop in Hw. destruct Hw as [Hc Hw].
  unfold nonspace in Hc. apply negb_true_iff in Hc.
  destruct w as [| c' w].
  - simpl. rewrite Hc. destruct Hb as [-> | (d & r & -> & Hd)].
    + reflexivity.
    + rewrite Hd. simpl. rewrite Hd. reflexivity.
  - assert (Hc' : Py.isspace c' = false).
    { simpl in Hw. apply andb_prop in Hw. destruct Hw as [Hw _].
      unfold nonspace in Hw. now apply negb_true_iff in Hw. }
    change (Py.split (String c (String c' w) ++ rest))
      with (if Py.isspace c then Py.split (String c' w ++ rest)
            else if Py.isspace c' then String c "" :: Py.split (String c' w ++ rest)
            else match Py.split (String c' w ++ rest) with
                 | x :: xs => String c x :: xs
                 | [] => [String c ""]
                 end).
    rewrite Hc, Hc'. rewrite IH; auto. discriminate.
Qed.

Lemma span (s : string) :
  exists w rest, s = (w ++ rest)%string /\ all nonspace w = true /\ boundary rest.
Proof.
  induction s as [| c s (w & rest & E & Hw & Hb)].
  - exists EmptyString, EmptyString. repeat split. left. reflexivity.
  - destruct (Py.isspace c) eqn:Hc.
    + exists EmptyString, (String c s). repeat split. right. eauto.
    + exists (String c w), rest. subst s. repeat split; auto.
      simpl. unfold nonspace at 1. rewrite Hc. exact Hw.
Qed.

(** Induction over a string, word by word. *)
Lemma words_ind (P : string -> Prop) :
  P EmptyString ->
  (forall c s, Py.isspace c = true -> P s -> P (String c s)) ->
  (forall w rest, all nonspace w = true -> w <> EmptyString -> boundary rest ->
                  P rest -> P (w ++ rest)%string) ->
  forall s, P s.
Proof.
  intros H0 Hsp Hw s.
  assert (H : forall n s, (String.length s <= n)%nat -> P s).
  { clear s. induction n as [| n IH]; intros s Hn.
    - destruct s; [exact H0 | simpl in Hn; lia].
    - destruct (span s) as (w & rest & -> & Hall & Hb).
      destruct w as [| c w].
      + simpl in *. destruct Hb as [-> | (d & r & -> & Hd)]; [exact H0 |].
        apply Hsp; [exact Hd |]. apply IH. simpl in Hn. lia.
      + apply Hw; auto; [discriminate |]. apply IH.
        rewrite append_length in Hn. simpl in Hn. lia. }
  apply (H (String.length s)). lia.
Qed.

Lemma split_space (c : ascii) (s : string) :
  Py.isspace c = true -> Py.split (String c s) = Py.split s.
Proof. intros H. simpl. rewrite H. reflexivity. Qed.

(** The words of a string are not empty and hold no white space. *)
Lemma split_words (s : string) :
  Forall (fun w => all nonspace w = true /\ w <> EmptyString) (Py.split s).
Proof.
  induction s as [| c s Hc IH | w rest Hw Hne Hb IH] using words_ind.
  - constructor.
  - rewrite split_space by exact Hc. exact IH.
  - rewrite split_word_app by auto. constructor; auto.
Qed.

Lemma word_split (w : string) :
  all nonspace w = true -> w <> EmptyString -> Py.split w = [w].
Proof.
  intros Hw Hne. rewrite <- (append_empty_r w) at 1.
  rewrite split_word_app; auto. left. reflexivity.
Qed.

Lemma all_split (p : ascii -> bool) (s : string) :
  all p s = true -> Forall (fun w => all p w = true) (Py.split s).
Proof.
  induction s as [| c s Hc IH | w rest Hw Hne Hb IH] using words_ind; intros H.
  - constructor.
  - rewrite split_space by exact Hc. apply IH. simpl in H.
    apply andb_prop in H. tauto.
  - rewrite split_word_app by auto. rewrite all_append in H.
    apply andb_prop in H. destruct H. constructor; auto.
Qed.

Lemma split_app_space (a b : string) (sp : ascii) :
  Py.isspace sp = true ->
  Py.split (a ++ String sp b) = Py.split a ++ Py.split b.
Proof.
  intros Hsp.
  induction a as [| c s Hc IH | w rest Hw Hne Hb IH] using words_ind.
  - simpl. rewrite Hsp. reflexivity.
  - change (String c s ++ String sp b)%string with (String c (s ++ String sp b)).
    rewrite !split_space by exact Hc. exact IH.
  - rewrite append_assoc.
    rewrite (split_word_app w (rest ++ String sp b)), (split_word_app w rest); auto.
    + rewrite IH. reflexivity.
    + destruct Hb as [-> | (d & r & -> & Hd)]; right; simpl; eauto.
Qed.

(** ** [replace] works word by word *)

Section Replace.

Variables old new : string.
Hypothesis old_word : all nonspace old = true.
Hypothesis old_nonempty : old <> EmptyString.
Hypothesis new_word : all nonspace new = true.

Let rep := Py.replace_from old new.

Lemma prefix_space (c : ascii) (s : string) :
  Py.isspace c = true -> prefix old (String c s) = false.
Proof.
  intros Hc. destruct old as [| a o]; [congruence |]. simpl.
  destruct (ascii_dec a c) as [-> | _]; [| reflexivity].
  simpl in old_word. unfold nonspace in old_word. rewrite Hc in old_word.
  discriminate.
Qed.

Lemma replace_from_0 (c : ascii) (s : string) :
  rep 0 (String c s) =
  if prefix old (String c s)
  then (new ++ rep (String.length old - 1) s)%string
  else String c (rep 0 s).
Proof. reflexivity. Qed.

Lemma replace_space (c : ascii) (s : string) :
  Py.isspace c = true -> rep 0 (String c s) = String c (rep 0 s).
Proof.
  intros Hc. rewrite replace_from_0, prefix_space by exact Hc. reflexivity.
Qed.

Lemma replace_boundary (rest : string) : boundary rest -> boundary (rep 0 rest).
Proof.
  intros [-> | (c & r & -> & Hc)]; [left; reflexivity |].
  right. rewrite replace_space by exact Hc. eauto.
Qed.

Lemma prefix_word (o w rest : string) :
  all nonspace o = true -> boundary rest ->
  prefix o (w ++ rest) = prefix o w.
Proof.
  revert w. induction o as [| a o IH]; intros w Ho Hb;
    [destruct w, rest; reflexivity |].
  simpl in Ho. apply andb_prop in Ho. destruct Ho as [Ha Ho].
  destruct w as [| c w]; simpl.
  - destruct Hb as [-> | (d & r & -> & Hd)]; [reflexivity |]. simpl.
    destruct (ascii_dec a d) as [-> | _]; [| reflexivity].
    unfold nonspace in Ha. rewrite Hd in Ha. discriminate.
  - destruct (ascii_dec a c); [apply IH; auto | reflexivity].
Qed.

Lemma prefix_length (o w : string) :
  prefix o w = true -> (String.length o <= String.length w)%nat.
Proof.
  revert w. induction o as [| a o IH]; intros w H; simpl; [lia |].
  destruct w as [| c w]; simpl in *; [discriminate |].
  destruct (ascii_dec a c); [| discriminate]. apply IH in H. lia.
Qed.

Lemma replace_word_app (w rest : string) :
  all nonspace w = true -> boundary rest ->
  forall k, (k <= String.length w)%nat ->
    rep k (w ++ rest) = (rep k w ++ rep 0 rest)%string.
Proof.
  intros Hw Hb. induction w as [| c w IH]; intros k Hk.
  - simpl in Hk. assert (k = 0%nat) by lia. subst k.
    unfold rep. simpl. reflexivity.
  - simpl in Hw. apply andb_prop in Hw. destruct Hw as [Hc Hw].
    specialize (IH Hw).
    destruct k as [| k].
    + change (String c w ++ rest)%string with (String c (w ++ rest)).
      rewrite !replace_from_0.
      change (String c (w ++ rest)) with (String c w ++ rest)%string.
      rewrite prefix_word by auto.
      destruct (prefix old (String c w)) eqn:E.
      * apply prefix_length in E. simpl in E.
        rewrite IH by lia. rewrite append_assoc. reflexivity.
      * rewrite IH by lia. reflexivity.
    + unfold rep. simpl. apply IH. simpl in Hk. lia.
Qed.

Lemma replace_word (w : string) :
  all nonspace w = true -> forall k, all nonspace (rep k w) = true.
Proof.
  induction w as [| c w IH]; intros Hw k; [reflexivity |].
  simpl in Hw. apply andb_prop in Hw. destruct Hw as [Hc Hw].
  destruct k as [| k].
  - rewrite replace_from_0. destruct (prefix old (String c w)).
    + rewrite all_append, new_word. apply IH. exact Hw.
    + simpl. rewrite Hc. apply IH. exact Hw.
  - apply IH. exact Hw.
Qed.

(** The words of the result are the words of the argument, replaced one
    by one; a word that becomes empty disappears. *)
Lemma split_replace (s : string) :
  Py.split (rep 0 s) = filter nonempty (map (rep 0) (Py.split s)).
Proof.
  induction s as [| c s Hc IH | w rest Hw Hne Hb IH] using words_ind.
  - reflexivity.
  - rewrite replace_space by exact Hc. rewrite !split_space by exact Hc. exact IH.
  - rewrite replace_word_app by (auto; lia).
    rewrite (split_word_app w rest) by auto. simpl map. simpl filter.
    destruct (rep 0 w) as [| a r] eqn:E.
    + simpl. exact IH.
    + assert (Ha : all nonspace (String a r) = true)
        by (rewrite <- E; apply replace_word; exact Hw).
      rewrite split_word_app; [| exact Ha | discriminate | apply replace_boundary; exact Hb].
      simpl. rewrite IH. reflexivity.
Qed.

End Replace.

(** ** [solve_aliases] works token by token *)

Definition alias_ok (a : string * string) : bool :=
  nonempty (fst a) && all nonspace (fst a) && all nonspace (snd a).

Definition noslash (c : ascii) : bool := negb (Ascii.eqb c "/").

(** What one token of the argument of [solve_aliases] leaves in the list
    [breakdown] goes through. *)
Definition token_units (t : string) : result (list string) :=
  parts <- divide_token (Py.split_on "/" (resolve t)) ;;
  Ok (List.concat (map Py.split parts)).

Lemma aliases_ok : forallb alias_ok _aliases = true.
Proof. reflexivity. Qed.

Lemma filter_nonempty_words (l : list string) :
  Forall (fun w => all nonspace w = true /\ w <> EmptyString) l ->
  filter nonempty l = l.
Proof.
  induction 1 as [| w l [_ Hw] _ IH]; [reflexivity |].
  simpl. destruct w; [congruence |]. simpl. now rewrite IH.
Qed.

Lemma filter_map_filter (g : string -> string) (l : list string) :
  g EmptyString = EmptyString ->
  filter nonempty (map g (filter nonempty l)) = filter nonempty (map g l).
Proof.
  intros Hg. induction l as [| x l IH]; [reflexivity |].
  destruct x as [| c x]; simpl.
  - rewrite Hg. simpl. exact IH.
  - destruct (g (String c x)); simpl; now rewrite IH.
Qed.

Section Aliases.

Variable aliases : list (string * string).

Let res := fold_left (fun u alias => Py.replace (fst alias) (snd alias) u).

Lemma replace_is_from (old new s : string) :
  nonempty old = true -> Py.replace old new s = Py.replace_from old new 0 s.
Proof. destruct old; [discriminate | reflexivity]. Qed.

Lemma alias_ok_parts (a : string * string) :
  alias_ok a = true ->
  all nonspace (fst a) = true /\ fst a <> EmptyString /\
  all nonspace (snd a) = true /\ nonempty (fst a) = true.
Proof.
  unfold alias_ok. intros H. apply andb_prop in H. destruct H as [H H3].
  apply andb_prop in H. destruct H as [H1 H2]. repeat split; auto.
  intros E. rewrite E in H1. discriminate.
Qed.

Lemma resolve_empty (l : list (string * string)) :
  forallb alias_ok l = true -> res l EmptyString = EmptyString.
Proof.
  induction l as [| a l IH]; intros H; [reflexivity |].
  simpl in H. apply andb_prop in H. destruct H as [Ha Hl].
  apply alias_ok_parts in Ha. destruct Ha as (_ & _ & _ & Hn).
  unfold res. simpl. rewrite replace_is_from by exact Hn. simpl.
  apply IH. exact Hl.
Qed.

Lemma resolve_word (l : list (string * string)) :
  forallb alias_ok l = true ->
  forall t, all nonspace t = true -> all nonspace (res l t) = true.
Proof.
  induction l as [| a l IH]; intros H t Ht; [exact Ht |].
  simpl in H. apply andb_prop in H. destruct H as [Ha Hl].
  apply alias_ok_parts in Ha. destruct Ha as (_ & _ & Hnew & Hn).
  unfold res. simpl. rewrite replace_is_from by exact Hn.
  apply IH; [exact Hl |]. apply replace_word; assumption.
Qed.

Lemma resolve_split (l : list (string * string)) :
  forallb alias_ok l = true ->
  forall s, Py.split (res l s) = filter nonempty (map (res l) (Py.split s)).
Proof.
  induction l as [| a l IH]; intros H s.
  - unfold res. simpl. rewrite map_id.
    symmetry. apply filter_nonempty_words. apply split_words.
  - simpl in H. apply andb_prop in H. destruct H as [Ha Hl].
    apply alias_ok_parts in Ha. destruct Ha as (Hold & Hne & Hnew & Hn).
    unfold res. simpl. fold (res l).
    rewrite IH by exact Hl. rewrite replace_is_from by exact Hn.
    rewrite split_replace by assumption.
    rewrite filter_map_filter by (apply resolve_empty; exact Hl).
    rewrite map_map. f_equal. apply map_ext. intros t.
    rewrite replace_is_from by exact Hn. reflexivity.
Qed.

End Aliases.

Lemma prefix_empty (s : string) : prefix EmptyString s = true.
Proof. destruct s; reflexivity. Qed.

Lemma contains_slash (s : string) : Py.contains "/" s = negb (all noslash s).
Proof.
  induction s as [| c s IH]; [reflexivity |].
  change (Py.contains "/" (String c s))
    with (prefix "/" (String c s) || Py.contains "/" s).
  rewrite IH.
  change (prefix "/" (String c s))
    with (if ascii_dec "/" c then prefix "" s else false).
  change (all noslash (String c s)) with (noslash c && all noslash s).
  destruct (ascii_dec "/" c) as [<- | N].
  - rewrite prefix_empty. reflexivity.
  - assert (E : noslash c = true).
    { unfold noslash. apply negb_true_iff. apply Ascii.eqb_neq. congruence. }
    rewrite E. reflexivity.
Qed.

Lemma split_on_noslash (t : string) :
  all noslash t = true -> Py.split_on "/" t = [t].
Proof.
  induction t as [| c t IH]; intros H; [reflexivity |].
  simpl in H. apply andb_prop in H. destruct H as [Hc Ht].
  simpl. unfold noslash in Hc. apply negb_true_iff in Hc. rewrite Hc.
  rewrite IH by exact Ht. reflexivity.
Qed.

Lemma split_join (l : list string) :
  Py.split (Py.join " " l) = List.concat (map Py.split l).
Proof.
  induction l as [| w l IH]; [reflexivity |].
  destruct l as [| x l].
  - simpl. now rewrite app_nil_r.
  - change (Py.join " " (w :: x :: l))
      with (w ++ String " " (Py.join " " (x :: l)))%string.
    rewrite split_app_space by reflexivity. rewrite IH. reflexivity.
Qed.

Lemma split_word_or_empty (w : string) :
  all nonspace w = true -> Py.split w = if nonempty w then [w] else [].
Proof.
  intros H. destruct w as [| c w]; [reflexivity |].
  apply word_split; [exact H | discriminate].
Qed.

Section Slashes.

Variable r : string -> string.
Variable slash : string -> result (list string).
Hypothesis slash_empty : slash EmptyString = Ok [EmptyString].

Lemma slash_tokens (l : list string) :
  (unit_ <- mapM slash (filter nonempty (map r l)) ;;
   Ok (List.concat (map Py.split (List.concat unit_)))) =
  (ls <- mapM (fun t => parts <- slash (r t) ;;
                        Ok (List.concat (map Py.split parts))) l ;;
   Ok (List.concat ls)).
Proof.
  induction l as [| t l IH]; [reflexivity |].
  simpl. destruct (r t) as [| c s] eqn:E; simpl.
  - rewrite slash_empty. simpl. rewrite IH.
    destruct (mapM _ l); reflexivity.
  - destruct (slash (String c s)) as [b | e |]; simpl; try reflexivity.
    destruct (mapM slash (filter nonempty (map r l))) as [bs | e |];
      destruct (mapM _ l) as [cs | e' |]; simpl in *; try congruence.
    rewrite map_app, concat_app. congruence.
Qed.

End Slashes.

Lemma token_units_plain (l : list string) :
  Forall (fun t => all noslash (resolve t) = true) l ->
  mapM token_units l = Ok (map (fun t => Py.split (resolve t)) l).
Proof.
  induction 1 as [| t l Ht _ IH]; [reflexivity |].
  cbn [mapM map]. rewrite IH. unfold token_units at 1.
  rewrite split_on_noslash by exact Ht.
  cbn [divide_token mapM bind map List.concat]. now rewrite app_nil_r.
Qed.

Lemma split_resolved (l : list string) :
  Forall (fun t => all nonspace t = true /\ t <> EmptyString) l ->
  List.concat (map (fun t => Py.split (resolve t)) l) =
  filter nonempty (map resolve l).
Proof.
  induction 1 as [| t l [Ht _] _ IH]; [reflexivity |].
  cbn [map List.concat filter]. rewrite IH.
  rewrite split_word_or_empty
    by (apply (resolve_word _aliases aliases_ok); exact Ht).
  destruct (nonempty (resolve t)); reflexivity.
Qed.

(** The list [breakdown] goes through is put together token by token. *)
Lemma solve_aliases_tokens (u : string) :
  (s <- solve_aliases u ;; Ok (Py.split s)) =
  (ls <- mapM token_units (Py.split u) ;; Ok (List.concat ls)).
Proof.
  pose proof (resolve_split _aliases aliases_ok u) as Hs.
  change (Py.split (resolve u) = filter nonempty (map resolve (Py.split u))) in Hs.
  unfold solve_aliases. destruct (Py.contains "/" (resolve u)) eqn:E.
  - rewrite Hs.
    pose proof (slash_tokens resolve
                  (fun uni => divide_token (Py.split_on "/" uni))
                  eq_refl (Py.split u)) as H.
    change (mapM _ (Py.split u)) with (mapM token_units (Py.split u)) in H.
    destruct (mapM _ (filter nonempty (map resolve (Py.split u))));
      cbn [bind] in *; try exact H.
    rewrite split_join. exact H.
  - rewrite contains_slash in E. apply negb_false_iff in E.
    apply all_split in E. rewrite Hs in E.
    assert (Hno : Forall (fun t => all noslash (resolve t) = true) (Py.split u)).
    { apply Forall_forall. intros t Ht.
      destruct (resolve t) as [| c s] eqn:Et; [reflexivity |].
      rewrite Forall_forall in E. apply E. apply filter_In. split.
      - rewrite <- Et. apply in_map. exact Ht.
      - reflexivity. }
    rewrite token_units_plain by exact Hno. cbn [bind].
    rewrite split_resolved by apply split_words. rewrite Hs. reflexivity.
Qed.

(** * Further properties of the conversion functions *)

(** ** The change-of-base functions come in inverse pairs *)

(** What the flux and spatial-frequency functions read from the keyword
    arguments: a reference wavelength, or else a reference frequency; no
    passband to take the wavelength from. *)
Inductive reference (kwargs : ctx) : Prop :=
| by_wave (w : R) :
    lookup "photband" kwargs = None ->
    lookup "wave" kwargs = Some (CNum (F w)) -> w <> 0 -> reference kwargs
| by_freq (f : R) :
    lookup "photband" kwargs = None ->
    lookup "wave" kwargs = None ->
    lookup "freq" kwargs = Some (CNum (F f)) -> f <> 0 -> reference kwargs.

(** [g] undoes [f] on every real value. *)
Definition undoes (g f : pyfloat -> ctx -> result pyfloat) (kwargs : ctx) : Prop :=
  forall x : R, (y <- f (F x) kwargs ;; g y kwargs) = Ok (F x).

Ltac nonzero :=
  repeat first
    [ assumption
    | apply PI_neq0
    | apply pow_nonzero
    | apply Rinv_neq_0_compat
    | apply Rmult_integral_contrapositive_currified
    | progress unfold Rdiv
    | lra
    | simpl; lra ].

(** Division by something that is not zero goes through. *)
Ltac divides :=
  repeat match goal with
  | |- context [Req_dec_T ?a 0] =>
      destruct (Req_dec_T a 0) as [?E | _]; [exfalso; revert E; nonzero |]
  end.

Ltac round_trip :=
  repeat (progress (cbn [bind num fdiv fmul fadd fsub fdivc sqr lift1 lift2];
                    divides));
  do 2 f_equal; field; repeat split; nonzero.

(** X1.  For a reference wavelength and a speed of light that are not
    zero, [velocity2distance] undoes [distance2velocity] and the other way
    round. *)
Theorem distance_velocity_round_trip :
  forall (K : Constants) (kwargs : ctx) (w : R),
    lookup "wave" kwargs = Some (CNum (F w)) -> w <> 0 -> cc K <> 0 ->
    undoes (velocity2distance K) (distance2velocity K) kwargs /\
    undoes (distance2velocity K) (velocity2distance K) kwargs.
Proof.
  intros K kwargs w Hw Hnz Hc.
  split; intros x; unfold distance2velocity, velocity2distance; rewrite Hw;
    round_trip.
Qed.

Lemma distance_velocity_round_trip_witness :
  undoes (velocity2distance si_constants) (distance2velocity si_constants)
    [("wave", CNum (F 5))] /\
  undoes (distance2velocity si_constants) (velocity2distance si_constants)
    [("wave", CNum (F 5))].
Proof.
  apply (distance_velocity_round_trip si_constants [("wave", CNum (F 5))] 5).
  - reflexivity.
  - lra.
  - simpl. lra.
Defined.


Ltac pair fn gn given :=
  split; intros x; unfold fn, gn, photband_wave;
  destruct given as [w Hp Hw Hnz | fq Hp Hw Hf Hnz];
  rewrite Hp; cbn [bind]; rewrite Hw; try rewrite Hf; round_trip.

(** X2.  With a reference wavelength or frequency and a speed of light
    that are not zero, [flambda2fnu] undoes [fnu2flambda] and the other
    way round. *)
Theorem fnu_flambda_round_trip :
  forall (K : Constants) (eff_wave : string -> pyfloat) (convert : converting)
         (kwargs : ctx),
    cc K <> 0 -> reference kwargs ->
    undoes (flambda2fnu K eff_wave convert) (fnu2flambda K eff_wave convert) kwargs /\
    undoes (fnu2flambda K eff_wave convert) (flambda2fnu K eff_wave convert) kwargs.
Proof. intros K eff_wave convert kwargs light given. pair fnu2flambda flambda2fnu given. Qed.

(** X3.  Under the same conditions [nufnu2fnu] undoes [fnu2nufnu] and the
    other way round. *)
Theorem fnu_nufnu_round_trip :
  forall (K : Constants) (eff_wave : string -> pyfloat) (convert : converting)
         (kwargs : ctx),
    cc K <> 0 -> reference kwargs ->
    undoes (nufnu2fnu K eff_wave convert) (fnu2nufnu K eff_wave convert) kwargs /\
    undoes (fnu2nufnu K eff_wave convert) (nufnu2fnu K eff_wave convert) kwargs.
Proof. intros K eff_wave convert kwargs light given. pair fnu2nufnu nufnu2fnu given. Qed.

(** X4.  Under the same conditions [lamflam2flam] undoes [flam2lamflam]
    and the other way round. *)
Theorem flam_lamflam_round_trip :
  forall (K : Constants) (eff_wave : string -> pyfloat) (convert : converting)
         (kwargs : ctx),
    cc K <> 0 -> reference kwargs ->
    undoes (lamflam2flam K eff_wave convert) (flam2lamflam K eff_wave convert) kwargs /\
    undoes (flam2lamflam K eff_wave convert) (lamflam2flam K eff_wave convert) kwargs.
Proof. intros K eff_wave convert kwargs light given. pair flam2lamflam lamflam2flam given. Qed.

(** X5.  Under the same conditions [spatialfreq2distance] undoes
    [distance2spatialfreq] and the other way round. *)
Theorem distance_spatialfreq_round_trip :
  forall (K : Constants) (eff_wave : string -> pyfloat) (convert : converting)
         (kwargs : ctx),
    cc K <> 0 -> reference kwargs ->
    undoes (spatialfreq2distance K eff_wave convert)
           (distance2spatialfreq K eff_wave convert) kwargs /\
    undoes (distance2spatialfreq K eff_wave convert)
           (spatialfreq2distance K eff_wave convert) kwargs.
Proof.
  intros K eff_wave convert kwargs light given.
  pair distance2spatialfreq spatialfreq2distance given.
Qed.

Lemma fnu_flambda_round_trip_witness :
  undoes (flambda2fnu si_constants no_curve (sample_convert 1))
         (fnu2flambda si_constants no_curve (sample_convert 1))
         [("wave", CNum (F 5))] /\
  undoes (fnu2flambda si_constants no_curve (sample_convert 1))
         (flambda2fnu si_constants no_curve (sample_convert 1))
         [("wave", CNum (F 5))].
Proof.
  apply (fnu_flambda_round_trip si_constants no_curve (sample_convert 1)
           [("wave", CNum (F 5))]).
  - simpl. lra.
  - apply (by_wave _ 5); [reflexivity | reflexivity | lra].
Defined.

Lemma fnu_nufnu_round_trip_witness :
  undoes (nufnu2fnu si_constants no_curve (sample_convert 1))
         (fnu2nufnu si_constants no_curve (sample_convert 1))
         [("freq", CNum (F 5))] /\
  undoes (fnu2nufnu si_constants no_curve (sample_convert 1))
         (nufnu2fnu si_constants no_curve (sample_convert 1))
         [("freq", CNum (F 5))].
Proof.
  apply (fnu_nufnu_round_trip si_constants no_curve (sample_convert 1)
           [("freq", CNum (F 5))]).
  - simpl. lra.
  - apply (by_freq _ 5); [reflexivity | reflexivity | reflexivity | lra].
Defined.

Lemma flam_lamflam_round_trip_witness :
  undoes (lamflam2flam si_constants no_curve (sample_convert 1))
         (flam2lamflam si_constants no_curve (sample_convert 1))
         [("freq", CNum (F 5))] /\
  undoes (flam2lamflam si_constants no_curve (sample_convert 1))
         (lamflam2flam si_constants no_curve (sample_convert 1))
         [("freq", CNum (F 5))].
Proof.
  apply (flam_lamflam_round_trip si_constants no_curve (sample_convert 1)
           [("freq", CNum (F 5))]).
  - simpl. lra.
  - apply (by_freq _ 5); [reflexivity | reflexivity | reflexivity | lra].
Defined.

Lemma distance_spatialfreq_round_trip_witness :
  undoes (spatialfreq2distance si_constants no_curve (sample_convert 1))
         (distance2spatialfreq si_constants no_curve (sample_convert 1))
         [("wave", CNum (F 5))] /\
  undoes (distance2spatialfreq si_constants no_curve (sample_convert 1))
         (spatialfreq2distance si_constants no_curve (sample_convert 1))
         [("wave", CNum (F 5))].
Proof.
  apply (distance_spatialfreq_round_trip si_constants no_curve (sample_convert 1)
           [("wave", CNum (F 5))]).
  - simpl. lra.
  - apply (by_wave _ 5); [reflexivity | reflexivity | lra].
Defined.

(** The solid angle [per_sr] and [times_sr] read from the keyword
    arguments: an angular diameter, or else a radius, or else a pixel
    size. *)
Inductive solid_angle (kwargs : ctx) : Prop :=
| by_ang_diam (a : R) :
    lookup "ang_diam" kwargs = Some (CNum (F a)) -> a <> 0 -> solid_angle kwargs
| by_radius (r : R) :
    lookup "ang_diam" kwargs = None ->
    lookup "radius" kwargs = Some (CNum (F r)) -> r <> 0 -> solid_angle kwargs
| by_pix (p : R) :
    lookup "ang_diam" kwargs = None -> lookup "radius" kwargs = None ->
    lookup "pix" kwargs = Some (CNum (F p)) -> p <> 0 -> solid_angle kwargs.

(** X6.  With an angular diameter, radius or pixel size that is not zero,
    [times_sr] undoes [per_sr] and the other way round. *)
Theorem per_times_sr_round_trip :
  forall kwargs : ctx,
    solid_angle kwargs ->
    undoes times_sr per_sr kwargs /\ undoes per_sr times_sr kwargs.
Proof.
  intros kwargs given.
  split; intros x; unfold per_sr, times_sr, surface;
    destruct given as [a Ha Hnz | r Ha Hr Hnz | p Ha Hr Hp Hnz];
    rewrite Ha; try rewrite Hr; try rewrite Hp; round_trip.
Qed.

Lemma per_times_sr_round_trip_witness :
  undoes times_sr per_sr [("radius", CNum (F 2))] /\
  undoes per_sr times_sr [("radius", CNum (F 2))].
Proof.
  apply (per_times_sr_round_trip [("radius", CNum (F 2))]).
  apply (by_radius _ 2); [reflexivity | reflexivity | lra].
Defined.

(** X7.  [times_cy] undoes [per_cy] and the other way round, whatever the
    keyword arguments. *)
Theorem per_times_cy_round_trip :
  forall kwargs : ctx,
    undoes times_cy per_cy kwargs /\ undoes per_cy times_cy kwargs.
Proof.
  intros kwargs. split; intros x; unfold per_cy, times_cy; round_trip.
Qed.

(** ** A wavelength and the frequency that goes with it *)

(** The functions that accept a wavelength or a frequency as reference. *)
Definition by_reference (K : Constants) (eff_wave : string -> pyfloat)
    (convert : converting) : list (pyfloat -> ctx -> result pyfloat) :=
  [ fnu2flambda K eff_wave convert; flambda2fnu K eff_wave convert;
    fnu2nufnu K eff_wave convert; nufnu2fnu K eff_wave convert;
    flam2lamflam K eff_wave convert; lamflam2flam K eff_wave convert;
    distance2spatialfreq K eff_wave convert;
    spatialfreq2distance K eff_wave convert ].

(** X8.  Giving the reference as a wavelength [w] or as the frequency
    [cc/w] makes no difference to any of the eight functions that accept
    both. *)
Theorem wave_or_freq_agree :
  forall (K : Constants) (eff_wave : string -> pyfloat) (convert : converting)
         (kw kf : ctx) (w x : R)
         (g : pyfloat -> ctx -> result pyfloat),
    cc K <> 0 -> w <> 0 ->
    lookup "photband" kw = None -> lookup "wave" kw = Some (CNum (F w)) ->
    lookup "photband" kf = None -> lookup "wave" kf = None ->
    lookup "freq" kf = Some (CNum (F (cc K / w))) ->
    In g (by_reference K eff_wave convert) ->
    g (F x) kw = g (F x) kf.
Proof.
  intros K eff_wave convert kw kf w x g Hc Hw Hpw Hww Hpf Hwf Hff Hg.
  assert (Hq : cc K / w <> 0) by nonzero.
  unfold by_reference in Hg. simpl in Hg.
  repeat (destruct Hg as [<- | Hg]); try contradiction;
    unfold fnu2flambda, flambda2fnu, fnu2nufnu, nufnu2fnu, flam2lamflam,
           lamflam2flam, distance2spatialfreq, spatialfreq2distance,
           photband_wave;
    rewrite Hpw, Hpf; cbn [bind]; rewrite Hww, Hwf, Hff;
    repeat (progress (cbn [bind num fdiv fmul fadd fsub fdivc sqr lift1 lift2];
                      divides));
    do 2 f_equal; field; repeat split; nonzero.
Qed.

Lemma wave_or_freq_agree_witness :
  fnu2flambda si_constants no_curve (sample_convert 1) (F 1)
    [("wave", CNum (F 5))] =
  fnu2flambda si_constants no_curve (sample_convert 1) (F 1)
    [("freq", CNum (F (cc si_constants / 5)))].
Proof.
  apply (wave_or_freq_agree si_constants no_curve (sample_convert 1)
           [("wave", CNum (F 5))] [("freq", CNum (F (cc si_constants / 5)))]
           5 1).
  - simpl. lra.
  - lra.
  - reflexivity.
  - reflexivity.
  - reflexivity.
  - reflexivity.
  - reflexivity.
  - left. reflexivity.
Defined.

(** ** The nonlinear converters and their inverses *)

(** X9.  An instance of [Fahrenheit] or [Celcius] whose prefix is not zero,
    called with [inv=True] on what it returned, gives the argument back,
    and the other way round. *)
Theorem temperature_round_trip :
  forall (zp : list zp_row) (convert : converting) (c : converter)
         (prefix a : R),
    c = Fahrenheit \/ c = Celcius -> prefix <> 0 ->
    (k <- call zp convert c prefix (F a) false [] ;;
     call zp convert c prefix k true []) = Ok (F a) /\
    (t <- call zp convert c prefix (F a) true [] ;;
     call zp convert c prefix t false []) = Ok (F a).
Proof.
  intros zp convert c prefix a [-> | ->] Hp; split;
    unfold call, call_Fahrenheit, call_Celcius; cbn [binds inv_flag has_key lookup
      negb andb orb forallb var_keywords first_param];
    round_trip.
Qed.

Lemma temperature_round_trip_witness :
  (k <- call sample_zp (sample_convert 1) Fahrenheit 1 (F 32) false [] ;;
   call sample_zp (sample_convert 1) Fahrenheit 1 k true []) = Ok (F 32) /\
  (t <- call sample_zp (sample_convert 1) Fahrenheit 1 (F 32) true [] ;;
   call sample_zp (sample_convert 1) Fahrenheit 1 t false []) = Ok (F 32).
Proof.
  apply (temperature_round_trip sample_zp (sample_convert 1) Fahrenheit 1 32).
  - left. reflexivity.
  - lra.
Defined.

Lemma ln10_neq0 : ln 10 <> 0.
Proof. rewrite <- ln_1. intro E. apply ln_inv in E; lra. Qed.

Lemma pow10_log10 (q : R) : 0 < q -> Rpower 10 (ln q / ln 10) = q.
Proof.
  intros Hq. unfold Rpower.
  replace (ln q / ln 10 * ln 10) with (ln q).
  - apply exp_ln. exact Hq.
  - field. apply ln10_neq0.
Qed.

(** X10.  An instance of [AmplMag] whose prefix is not zero: the inverse
    call gives back the argument of the forward call, and the forward call
    gives back every argument above -1 of the inverse call. *)
Theorem AmplMag_round_trip :
  forall (prefix m : R),
    prefix <> 0 ->
    (a <- call_AmplMag prefix (F m) false ;; call_AmplMag prefix a true)
    = Ok (F m) /\
    (-1 < m ->
     (k <- call_AmplMag prefix (F m) true ;; call_AmplMag prefix k false)
     = Ok (F m)).
Proof.
  intros prefix m Hp. unfold call_AmplMag. split.
  - cbn [negb bind pow10 fdivc fmul fsub fadd lift1 lift2 log10].
    pose proof (Rpower_10_pos (m * prefix / 2.5)) as Hpos.
    destruct (Rlt_dec 0 (1 + (Rpower 10 (m * prefix / 2.5) - 1))) as [_ | N];
      [| exfalso; apply N; lra].
    cbn [bind fmul lift2 fdiv].
    destruct (Req_dec_T prefix 0) as [E | _]; [contradiction |].
    do 2 f_equal.
    replace (1 + (Rpower 10 (m * prefix / 2.5) - 1))
      with (Rpower 10 (m * prefix / 2.5)) by lra.
    rewrite log10_pow10. field. repeat split; nonzero.
  - intros Hm.
    cbn [negb bind fadd lift2 log10].
    destruct (Rlt_dec 0 (1 + m)) as [Hpos | N]; [| exfalso; apply N; lra].
    cbn [bind fmul lift2 fdiv].
    destruct (Req_dec_T prefix 0) as [E | _]; [contradiction |].
    cbn [bind pow10 fdivc fmul fsub lift1 lift2].
    do 2 f_equal.
    replace (2.5 * (ln (1 + m) / ln 10) / prefix * prefix / 2.5)
      with (ln (1 + m) / ln 10).
    + rewrite pow10_log10 by exact Hpos. lra.
    + field. repeat split; try apply ln10_neq0; nonzero.
Qed.

Lemma AmplMag_round_trip_witness :
  (a <- call_AmplMag 1 (F 2) false ;; call_AmplMag 1 a true) = Ok (F 2) /\
  (-1 < 2 ->
   (k <- call_AmplMag 1 (F 2) true ;; call_AmplMag 1 k false) = Ok (F 2)).
Proof. apply (AmplMag_round_trip 1 2). lra. Defined.

(** X11.  [VegaMag] for a passband of the calibration table whose zero
    flux converts to a positive number of W/m3: the inverse call gives
    back the magnitude of the forward call, and the forward call gives
    back every positive flux of the inverse call. *)
Theorem VegaMag_round_trip :
  forall (zp : list zp_row) (convert : converting) (kwargs : ctx)
         (row : zp_row) (F0 mag0 m : R),
    calibration zp kwargs = Ok row ->
    convert (Flam0_units row) "W/m3" (Flam0 row) [] = Ok (F F0) ->
    vegamag row = F mag0 ->
    0 < F0 ->
    (f <- call_VegaMag zp convert (F m) false kwargs ;;
     call_VegaMag zp convert f true kwargs) = Ok (F m) /\
    (0 < m ->
     (k <- call_VegaMag zp convert (F m) true kwargs ;;
      call_VegaMag zp convert k false kwargs) = Ok (F m)).
Proof.
  intros zp convert kwargs row F0 mag0 m Hrow HF0 Hmag Hpos.
  unfold call_VegaMag. rewrite Hrow. cbn [bind]. rewrite HF0. cbn [bind].
  rewrite Hmag. split.
  - cbn [negb bind pow10 fdivc fmul fsub fadd fneg lift1 lift2 fdiv].
    destruct (Req_dec_T F0 0) as [E | _]; [lra |].
    cbn [bind log10].
    pose proof (Rpower_10_pos (- (m - mag0) / 2.5)) as Hp.
    replace (Rpower 10 (- (m - mag0) / 2.5) * F0 / F0)
      with (Rpower 10 (- (m - mag0) / 2.5)) by (field; lra).
    destruct (Rlt_dec 0 (Rpower 10 (- (m - mag0) / 2.5))) as [_ | N];
      [| contradiction].
    cbn [bind fmul fadd lift2]. do 2 f_equal.
    rewrite log10_pow10. lra.
  - intros Hm.
    cbn [negb bind fdiv lift2].
    destruct (Req_dec_T F0 0) as [E | _]; [lra |].
    cbn [bind log10].
    assert (Hq : 0 < m / F0) by (apply Rdiv_lt_0_compat; assumption).
    destruct (Rlt_dec 0 (m / F0)) as [_ | N]; [| contradiction].
    cbn [bind pow10 fdivc fmul fsub fadd fneg lift1 lift2].
    do 2 f_equal.
    replace (- (-2.5 * (ln (m / F0) / ln 10) + mag0 - mag0) / 2.5)
      with (ln (m / F0) / ln 10) by lra.
    rewrite pow10_log10 by exact Hq. field. lra.
Qed.

(** X12.  [ModJulianDay] with a [jtype] that is, in any letter case, one of
    the names of [ZP]: the inverse call undoes the forward call and the
    other way round; with any other name both calls raise [KeyError]. *)
Theorem ModJulianDay_round_trip :
  forall (kwargs : ctx) (jtype : string) (x : R),
    lookup "jtype" kwargs = Some (CStr jtype) ->
    (In (Py.upper jtype) (map fst ZP) ->
     (y <- call_ModJulianDay (F x) false kwargs ;;
      call_ModJulianDay y true kwargs) = Ok (F x) /\
     (y <- call_ModJulianDay (F x) true kwargs ;;
      call_ModJulianDay y false kwargs) = Ok (F x)) /\
    (~ In (Py.upper jtype) (map fst ZP) ->
     call_ModJulianDay (F x) false kwargs = Raise KeyError /\
     call_ModJulianDay (F x) true kwargs = Raise KeyError).
Proof.
  intros kwargs jtype x Hj. unfold call_ModJulianDay. rewrite Hj.
  split; intros Hin.
  - simpl in Hin.
    destruct Hin as [<- | [<- | [<- | []]]]; cbn [lookup ZP String.eqb Ascii.eqb
      Bool.eqb]; split; cbn [bind fadd fsub lift2]; do 2 f_equal; lra.
  - assert (E : lookup (Py.upper jtype) ZP = None).
    { destruct (lookup (Py.upper jtype) ZP) eqn:E; [| reflexivity].
      exfalso. apply Hin. apply lookup_In in E.
      apply (in_map fst) in E. exact E. }
    rewrite E. split; reflexivity.
Qed.

Lemma ModJulianDay_round_trip_witness :
  (In (Py.upper "corot") (map fst ZP) ->
   (y <- call_ModJulianDay (F 1) false [("jtype", CStr "corot")] ;;
    call_ModJulianDay y true [("jtype", CStr "corot")]) = Ok (F 1) /\
   (y <- call_ModJulianDay (F 1) true [("jtype", CStr "corot")] ;;
    call_ModJulianDay y false [("jtype", CStr "corot")]) = Ok (F 1)) /\
  (~ In (Py.upper "corot") (map fst ZP) ->
   call_ModJulianDay (F 1) false [("jtype", CStr "corot")] = Raise KeyError /\
   call_ModJulianDay (F 1) true [("jtype", CStr "corot")] = Raise KeyError).
Proof.
  apply (ModJulianDay_round_trip [("jtype", CStr "corot")] "corot" 1).
  reflexivity.
Defined.

Lemma VegaMag_round_trip_witness :
  (f <- call_VegaMag sample_zp (sample_convert 1) (F 1) false
          [("photband", CStr "sdss.u")] ;;
   call_VegaMag sample_zp (sample_convert 1) f true
     [("photband", CStr "sdss.u")]) = Ok (F 1) /\
  (0 < 1 ->
   (k <- call_VegaMag sample_zp (sample_convert 1) (F 1) true
           [("photband", CStr "sdss.u")] ;;
    call_VegaMag sample_zp (sample_convert 1) k false
      [("photband", CStr "sdss.u")]) = Ok (F 1)).
Proof.
  eapply (VegaMag_round_trip sample_zp (sample_convert 1)
            [("photband", CStr "sdss.u")]
            (band "SDSS.U" (F 0) (F 0.04) NaN 3.6e-9) _ 0 1).
  - reflexivity.
  - unfold sample_convert. pyrun. reflexivity.
  - reflexivity.
  - lra.
Defined.

(** ** [round_arbitrary] *)

Lemma py_round_bounds (q : R) : - / 2 <= IZR (py_round q) - q <= / 2.
Proof.
  unfold py_round. destruct (Rle_dec 0 q) as [H | H].
  - destruct (base_Int_part (q + / 2)) as [H1 H2]. lra.
  - destruct (base_Int_part (- q + / 2)) as [H1 H2].
    rewrite opp_IZR. lra.
Qed.

Lemma py_round_nearest (q : R) : Rabs (IZR (py_round q) - q) <= / 2.
Proof. apply Rabs_le. apply py_round_bounds. Qed.

(** X13.  For a base that is not zero, [round_arbitrary] returns a whole
    multiple of the base that lies within half a base of [x], and a whole
    multiple of the base is returned as it is; a zero base raises
    [ZeroDivisionError]. *)
Theorem round_arbitrary_nearest_multiple :
  forall x base : R,
    (base <> 0 ->
     (exists k : Z,
        round_arbitrary x base = Ok (base * IZR k) /\
        Rabs (base * IZR k - x) <= Rabs base / 2) /\
     (forall k : Z, round_arbitrary (base * IZR k) base = Ok (base * IZR k))) /\
    (base = 0 -> round_arbitrary x base = Raise ZeroDivisionError).
Proof.
  intros x base. split.
  - intros Hb. unfold round_arbitrary.
    destruct (Req_dec_T base 0) as [E | _]; [contradiction |]. split.
    + exists (py_round (x / base)). split; [reflexivity |].
      replace (base * IZR (py_round (x / base)) - x)
        with (base * (IZR (py_round (x / base)) - x / base)) by (field; exact Hb).
      rewrite Rabs_mult.
      pose proof (py_round_nearest (x / base)) as Hn.
      pose proof (Rabs_pos base) as Hp.
      unfold Rdiv. apply Rmult_le_compat_l; assumption.
    + intros k. do 2 f_equal.
      replace (base * IZR k / base) with (IZR k) by (field; exact Hb).
      pose proof (py_round_bounds (IZR k)) as Hn.
      rewrite <- minus_IZR in Hn.
      apply f_equal. apply Z.sub_move_0_r.
      destruct Hn as [Hl Hu].
      assert (H1 : (-1 < py_round (IZR k) - k)%Z).
      { apply lt_IZR. simpl. lra. }
      assert (H2 : (py_round (IZR k) - k < 1)%Z).
      { apply lt_IZR. simpl. lra. }
      lia.
  - intros ->. unfold round_arbitrary.
    destruct (Req_dec_T 0 0) as [_ | N]; [reflexivity | contradiction].
Qed.

Lemma round_arbitrary_nearest_multiple_witness :
  exists k : Z,
    round_arbitrary 1.24 0.25 = Ok (0.25 * IZR k) /\
    Rabs (0.25 * IZR k - 1.24) <= Rabs 0.25 / 2.
Proof.
  refine (proj1 (proj1 (round_arbitrary_nearest_multiple 1.24 0.25) _)). lra.
Defined.

(** ** [is_color] and the [Color] converter *)

Definition differs (sep c : ascii) : bool := negb (Ascii.eqb c sep).

Lemma contains_char (sep : ascii) (s : string) :
  Py.contains (String sep "") s = negb (all (differs sep) s).
Proof.
  induction s as [| c s IH]; [reflexivity |].
  change (Py.contains (String sep "") (String c s))
    with (prefix (String sep "") (String c s) || Py.contains (String sep "") s).
  rewrite IH.
  change (prefix (String sep "") (String c s))
    with (if ascii_dec sep c then prefix "" s else false).
  change (all (differs sep) (String c s))
    with (differs sep c && all (differs sep) s).
  destruct (ascii_dec sep c) as [<- | N].
  - assert (E : differs sep sep = false)
      by (unfold differs; now rewrite Ascii.eqb_refl).
    rewrite prefix_empty, E. reflexivity.
  - assert (E : differs sep c = true).
    { unfold differs. apply negb_true_iff. apply Ascii.eqb_neq. congruence. }
    rewrite E. reflexivity.
Qed.

(** [s.split(sep)] has one item when [sep] does not occur in [s], more
    otherwise. *)
Lemma split_on_items (sep : ascii) (s : string) :
  match Py.split_on sep s with
  | [] => False
  | [w] => all (differs sep) s = true
  | _ :: _ :: _ => all (differs sep) s = false
  end.
Proof.
  induction s as [| c s IH]; [reflexivity |].
  cbn [Py.split_on all].
  assert (E : differs sep c = negb (Ascii.eqb c sep)) by reflexivity.
  rewrite E. destruct (Ascii.eqb c sep); cbn [negb andb].
  - destruct (Py.split_on sep s); [contradiction | reflexivity].
  - destruct (Py.split_on sep s) as [| w [| w' ws]]; [contradiction | exact IH | exact IH].
Qed.

(** X14.  [is_color] raises [IndexError] exactly for the names without a
    dot; for any other name it answers. *)
Theorem is_color_needs_a_dot :
  forall photband : string,
    (Py.contains "." photband = false -> is_color photband = Raise IndexError) /\
    (Py.contains "." photband = true -> exists b, is_color photband = Ok b).
Proof.
  intros photband. rewrite contains_char.
  pose proof (split_on_items "." photband) as H. unfold is_color.
  destruct (Py.split_on "." photband) as [| w [| band ws]]; [contradiction | |].
  - rewrite H. split; [reflexivity | discriminate].
  - rewrite H. split; [discriminate | intros _].
    destruct (Py.contains "-" band); [eauto |].
    destruct (existsb _ _); eauto.
Qed.

Lemma is_color_needs_a_dot_witness :
  (Py.contains "." "JOHNSON" = false -> is_color "JOHNSON" = Raise IndexError) /\
  (Py.contains "." "JOHNSON" = true -> exists b, is_color "JOHNSON" = Ok b).
Proof. apply (is_color_needs_a_dot "JOHNSON"). Defined.

(** X15.  A passband [is_color] answers [False] for is refused by the
    [Color] converter, in both directions, with [ValueError]. *)
Theorem Color_refuses_what_is_no_color :
  forall (convert : converting) (meas : pyfloat) (inv : bool) (kwargs : ctx)
         (photband : string),
    lookup "photband" kwargs = Some (CStr photband) ->
    is_color photband = Ok false ->
    call_Color convert meas inv kwargs = Raise ValueError.
Proof.
  intros convert meas inv kwargs photband Hk Hc.
  unfold call_Color. rewrite Hk. unfold is_color in Hc.
  destruct (Py.split_on "." photband) as [| system [| band ws]] eqn:Es;
    try discriminate.
  destruct (Py.contains "-" band) eqn:Em; [discriminate |].
  destruct (existsb _ _) eqn:Ex; [discriminate |].
  destruct ws as [| w ws]; [| reflexivity].
  cbn [andb].
  destruct (String.eqb_spec photband "STROMGREN.C1") as [-> | _].
  { exfalso. injection Es as <- <-. discriminate Ex. }
  destruct (String.eqb_spec photband "STROMGREN.M1") as [-> | _].
  { exfalso. injection Es as <- <-. discriminate Ex. }
  reflexivity.
Qed.

Lemma Color_refuses_what_is_no_color_witness :
  call_Color (sample_convert 1) (F 1) false [("photband", CStr "JOHNSON.V")]
  = Raise ValueError.
Proof.
  apply (Color_refuses_what_is_no_color (sample_convert 1) (F 1) false
           [("photband", CStr "JOHNSON.V")] "JOHNSON.V"); reflexivity.
Defined.

(** ** [convert] between units of the same dimension, and to SI *)

(** The fast path of [convert], for any float. *)
Lemma convert_fast_path (K : Constants) (maxint : Z) (zp : list zp_row)
    (eff_wave : string -> pyfloat) (depth : nat) (_from _to : string)
    (v : pyfloat) (fF fT : R) (uni : string) :
  Re.search Re.log_pattern _from = None ->
  Re.search Re.log_pattern _to = None ->
  breakdown K maxint _from = Ok (FNum fF, uni) ->
  breakdown K maxint _to = Ok (FNum fT, uni) ->
  convert K maxint zp eff_wave (S depth) _from _to v []
  = fdiv (fmul (F 1) (fmul (F fF) v)) (F fT).
Proof.
  intros Hin Hout Hfrom Hto.
  assert (HSI : String.eqb _to "SI" = false).
  { destruct (String.eqb_spec _to "SI") as [-> | _]; [| reflexivity].
    rewrite breakdown_SI in Hto. discriminate. }
  simpl convert. unfold convert_body. simpl remove.
  rewrite Hin, Hout, Hfrom. simpl bind. rewrite HSI. simpl negb. cbv iota.
  rewrite Hto. simpl bind.
  unfold defaults. rewrite String.eqb_refl. simpl.
  destruct (Req_dec_T fT 0); reflexivity.
Qed.

(** X16.  Between two unit strings (not written as logarithms) that break
    down to the same signature with plain numbers, both not zero, as
    factors, converting there and back returns the value. *)
Theorem convert_round_trip :
  forall (K : Constants) (maxint : Z) (zp : list zp_row)
         (eff_wave : string -> pyfloat) (depth depth' : nat)
         (_from _to : string) (x fF fT : R) (uni : string),
    Re.search Re.log_pattern _from = None ->
    Re.search Re.log_pattern _to = None ->
    breakdown K maxint _from = Ok (FNum fF, uni) ->
    breakdown K maxint _to = Ok (FNum fT, uni) ->
    fF <> 0 -> fT <> 0 ->
    (y <- convert K maxint zp eff_wave (S depth) _from _to (F x) [] ;;
     convert K maxint zp eff_wave (S depth') _to _from y []) = Ok (F x).
Proof.
  intros K maxint zp eff_wave depth depth' _from _to x fF fT uni
         Hin Hout Hfrom Hto HF HT.
  rewrite (convert_fast_path K maxint zp eff_wave depth _from _to (F x) fF fT uni)
    by assumption.
  cbn [fmul lift2 fdiv].
  destruct (Req_dec_T fT 0) as [E | _]; [contradiction |].
  cbn [bind].
  rewrite (convert_fast_path K maxint zp eff_wave depth' _to _from _ fT fF uni)
    by assumption.
  cbn [fmul lift2 fdiv].
  destruct (Req_dec_T fF 0) as [E | _]; [contradiction |].
  do 2 f_equal. field. split; assumption.
Qed.

Lemma convert_round_trip_witness :
  (y <- sample_convert 1 "km" "cm" (F 3) [] ;;
   sample_convert 1 "cm" "km" y []) = Ok (F 3).
Proof.
  eapply (convert_round_trip si_constants maxint64 sample_zp no_curve 0 0
            "km" "cm" 3).
  - reflexivity.
  - reflexivity.
  - pyrun. reflexivity.
  - pyrun. reflexivity.
  - lra.
  - lra.
Defined.

(** X17.  With ['SI'] as target, a unit string (not written as a
    logarithm) whose factor is a plain number converts by that factor. *)
Theorem convert_to_SI :
  forall (K : Constants) (maxint : Z) (zp : list zp_row)
         (eff_wave : string -> pyfloat) (depth : nat)
         (_from : string) (x fF : R) (uni : string),
    Re.search Re.log_pattern _from = None ->
    breakdown K maxint _from = Ok (FNum fF, uni) ->
    convert K maxint zp eff_wave (S depth) _from "SI" (F x) [] = Ok (F (fF * x)).
Proof.
  intros K maxint zp eff_wave depth _from x fF uni Hin Hfrom.
  simpl convert. unfold convert_body. simpl remove.
  rewrite Hin.
  change (Re.search Re.log_pattern "SI") with (@None (list string)).
  rewrite Hfrom. simpl bind.
  change (String.eqb "SI" "SI") with true. simpl negb. cbv iota.
  simpl bind.
  unfold defaults. rewrite String.eqb_refl. simpl.
  destruct (Req_dec_T 1 0) as [E | _]; [lra |].
  unfold bind. do 2 f_equal. field.
Qed.

Lemma convert_to_SI_witness :
  exists f : R, sample_convert 1 "km" "SI" (F 3) [] = Ok (F (f * 3)) /\ f = 1000.
Proof.
  eexists. split.
  - eapply (convert_to_SI si_constants maxint64 sample_zp no_curve 0 "km" 3).
    + reflexivity.
    + pyrun. reflexivity.
  - lra.
Defined.

(** ** [solve_aliases] and white space *)

Lemma mapM_app {A B} (f : A -> result B) (l l' : list A) (r r' : list B) :
  mapM f l = Ok r -> mapM f l' = Ok r' -> mapM f (l ++ l') = Ok (r ++ r').
Proof.
  revert r. induction l as [| a l IH]; intros r H H'.
  - injection H as <-. exact H'.
  - change (mapM f ((a :: l) ++ l'))
      with (b <- f a ;; bs <- mapM f (l ++ l') ;; Ok (b :: bs)).
    change (mapM f (a :: l))
      with (b <- f a ;; bs <- mapM f l ;; Ok (b :: bs)) in H.
    destruct (f a) as [b | e |]; cbn [bind] in *; try discriminate.
    destruct (mapM f l) as [bs | e |]; cbn [bind] in *; try discriminate.
    injection H as <-. rewrite (IH bs eq_refl H'). reflexivity.
Qed.

Lemma solved_tokens (u s : string) :
  solve_aliases u = Ok s ->
  exists ls, mapM token_units (Py.split u) = Ok ls /\ List.concat ls = Py.split s.
Proof.
  intros H. pose proof (solve_aliases_tokens u) as E. rewrite H in E.
  cbn [bind] in E.
  destruct (mapM token_units (Py.split u)) as [ls | e |]; cbn [bind] in E;
    try discriminate.
  exists ls. split; [reflexivity |]. congruence.
Qed.

(** X18.  [solve_aliases] works on the white-space separated tokens one by
    one: when it succeeds on two strings, it succeeds on the two joined by
    a blank, and the tokens of that result are the tokens of the two
    results, in order. *)
Theorem solve_aliases_distributes :
  forall a b sa sb : string,
    solve_aliases a = Ok sa ->
    solve_aliases b = Ok sb ->
    exists s : string,
      solve_aliases (a ++ " " ++ b) = Ok s /\
      Py.split s = Py.split sa ++ Py.split sb.
Proof.
  intros a b sa sb Ha Hb.
  destruct (solved_tokens a sa Ha) as (la & Hla & Hca).
  destruct (solved_tokens b sb Hb) as (lb & Hlb & Hcb).
  pose proof (solve_aliases_tokens (a ++ " " ++ b)) as E.
  change (a ++ " " ++ b)%string with (a ++ String " " b)%string in E.
  rewrite split_app_space in E by reflexivity.
  rewrite (mapM_app _ _ _ _ _ Hla Hlb) in E. cbn [bind] in E.
  change (a ++ " " ++ b)%string with (a ++ String " " b)%string.
  destruct (solve_aliases (a ++ String " " b)) as [s | e |]; cbn [bind] in E;
    try discriminate.
  exists s. split; [reflexivity |].
  injection E as E. rewrite E, concat_app, Hca, Hcb. reflexivity.
Qed.

Lemma solve_aliases_distributes_witness :
  exists s : string,
    solve_aliases ("km/s" ++ " " ++ "micron") = Ok s /\
    Py.split s = Py.split "km s-1" ++ Py.split "mum".
Proof.
  apply (solve_aliases_distributes "km/s" "micron" "km s-1" "mum");
    vm_compute; reflexivity.
Defined.

(** ** [breakdown], token by token *)

(** What one base of a token adds to the totals. *)
Definition base_share (K : Constants) (power : Z) (base : string)
    : result (string * Z) :=
  '(_, basis_, power_) <- components K base ;; Ok (basis_, (power_ * power)%Z).

(** What one token contributes: its factor raised to its power, and the SI
    base units it stands for with their powers. *)
Definition contribution (K : Constants) (maxint : Z) (unit : string)
    : result (fac * list (string * Z)) :=
  '(factor, basis, power) <- components K unit ;;
  fp <- fac_pow maxint factor power ;;
  adds <- mapM (base_share K power) (Py.split basis) ;;
  Ok (fp, adds).

Definition add_all (adds totals : list (string * Z)) : list (string * Z) :=
  fold_left (fun t e => add_power (fst e) (snd e) t) adds totals.

Lemma add_bases (K : Constants) (power : Z) (bases : list string) :
  forall totals,
    foldM (add_base K power) totals bases =
    (adds <- mapM (base_share K power) bases ;; Ok (add_all adds totals)).
Proof.
  induction bases as [| b bases IH]; intros totals; [reflexivity |].
  cbn [foldM mapM]. unfold add_base at 1, base_share at 1.
  destruct (components K b) as [[[f b_] p_] | e |]; cbn [bind]; try reflexivity.
  rewrite IH. destruct (mapM (base_share K power) bases); reflexivity.
Qed.

Lemma breakdown_unit_ok (K : Constants) (maxint : Z) (tf : fac)
    (totals : list (string * Z)) (unit : string) (st : fac * list (string * Z)) :
  breakdown_unit K maxint (tf, totals) unit = Ok st <->
  exists fp adds tf',
    contribution K maxint unit = Ok (fp, adds) /\
    fac_mul tf fp = Ok tf' /\
    st = (tf', add_all adds totals).
Proof.
  unfold breakdown_unit, contribution.
  destruct (components K unit) as [[[f b] p] | e |]; cbn [bind].
  2: { split; [discriminate | intros (? & ? & ? & H & _); discriminate]. }
  2: { split; [discriminate | intros (? & ? & ? & H & _); discriminate]. }
  destruct (fac_pow maxint f p) as [fp | e |]; cbn [bind].
  2: { split; [discriminate | intros (? & ? & ? & H & _); discriminate]. }
  2: { split; [discriminate | intros (? & ? & ? & H & _); discriminate]. }
  rewrite add_bases.
  destruct (mapM (base_share K p) (Py.split b)) as [adds | e |]; cbn [bind].
  - split.
    + destruct (fac_mul tf fp) as [tf' | e |] eqn:E; cbn [bind]; try discriminate.
      intros [= <-]. exists fp, adds, tf'. auto.
    + intros (fp' & adds' & tf' & [= <- <-] & Hm & ->). rewrite Hm. reflexivity.
  - split; [| intros (? & ? & ? & H & _); discriminate].
    destruct (fac_mul tf fp); cbn [bind]; discriminate.
  - split; [| intros (? & ? & ? & H & _); discriminate].
    destruct (fac_mul tf fp); cbn [bind]; discriminate.
Qed.

Lemma add_all_app (a b totals : list (string * Z)) :
  add_all (a ++ b) totals = add_all b (add_all a totals).
Proof. unfold add_all. apply fold_left_app. Qed.

(** The loop of [breakdown]: the factors are multiplied in order, the
    shares are added in order. *)
Lemma breakdown_loop_ok (K : Constants) (maxint : Z) (toks : list string) :
  forall tf totals st,
    foldM (breakdown_unit K maxint) (tf, totals) toks = Ok st <->
    exists cs,
      mapM (contribution K maxint) toks = Ok cs /\
      foldM fac_mul tf (map fst cs) = Ok (fst st) /\
      snd st = add_all (List.concat (map snd cs)) totals.
Proof.
  induction toks as [| t toks IH]; intros tf totals st.
  - cbn [foldM mapM]. split.
    + intros [= <-]. exists []. auto.
    + intros (cs & [= <-] & H1 & H2). cbn in H1, H2. destruct st.
      cbn in *. congruence.
  - cbn [foldM mapM]. split.
    + destruct (breakdown_unit K maxint (tf, totals) t) as [[tf1 tot1] | e |] eqn:E;
        cbn [bind]; try discriminate.
      apply breakdown_unit_ok in E. destruct E as (fp & adds & tf' & Hc & Hm & [= -> ->]).
      intros H. apply IH in H. destruct H as (cs & Hcs & Hf & Ht).
      exists ((fp, adds) :: cs). rewrite Hc, Hcs. cbn [bind map fst snd foldM List.concat].
      rewrite Hm. cbn [bind]. rewrite add_all_app. auto.
    + intros (cs & Hcs & Hf & Ht).
      destruct (contribution K maxint t) as [[fp adds] | e |] eqn:Hc; cbn [bind] in Hcs;
        try discriminate.
      destruct (mapM (contribution K maxint) toks) as [cs' | e |] eqn:Hcs';
        cbn [bind] in Hcs; try discriminate.
      injection Hcs as <-. cbn [map fst snd foldM List.concat] in Hf, Ht.
      destruct (fac_mul tf fp) as [tf' | e |] eqn:Hm; cbn [bind] in Hf; try discriminate.
      assert (E : breakdown_unit K maxint (tf, totals) t
                  = Ok (tf', add_all adds totals)).
      { apply breakdown_unit_ok. exists fp, adds, tf'. auto. }
      rewrite E. cbn [bind]. apply IH. exists cs'.
      rewrite add_all_app in Ht. auto.
Qed.

(** ** Reordering the tokens *)

Lemma mapM_permutation {A B} (f : A -> result B) (l l' : list A) :
  Permutation l l' ->
  forall r, mapM f l = Ok r -> exists r', mapM f l' = Ok r' /\ Permutation r r'.
Proof.
  induction 1 as [| a l l' _ IH | a b l | l l' l'' _ IH1 _ IH2]; intros r Hr.
  - exists r. split; [exact Hr | apply Permutation_refl].
  - cbn [mapM] in *. destruct (f a) as [x | e |]; cbn [bind] in *; try discriminate.
    destruct (mapM f l) as [xs | e |]; cbn [bind] in *; try discriminate.
    destruct (IH xs eq_refl) as (r' & -> & Hp). injection Hr as <-.
    exists (x :: r'). split; [reflexivity | now constructor].
  - cbn [mapM] in *.
    destruct (f b) as [y | e |]; cbn [bind] in *; try discriminate.
    destruct (f a) as [x | e |]; cbn [bind] in *; try discriminate.
    destruct (mapM f l) as [xs | e |]; cbn [bind] in *; try discriminate.
    injection Hr as <-. exists (x :: y :: xs). split; [reflexivity | constructor].
  - destruct (IH1 r Hr) as (r1 & H1 & P1).
    destruct (IH2 r1 H1) as (r2 & H2 & P2).
    exists r2. split; [exact H2 | eapply Permutation_trans; eauto].
Qed.

Lemma concat_permutation {A} (l l' : list (list A)) :
  Permutation l l' -> Permutation (List.concat l) (List.concat l').
Proof.
  induction 1 as [| a l l' _ IH | a b l | l l' l'' _ IH1 _ IH2]; cbn [List.concat].
  - constructor.
  - apply Permutation_app_head. exact IH.
  - rewrite !app_assoc. apply Permutation_app_tail. apply Permutation_app_comm.
  - eapply Permutation_trans; eauto.
Qed.

(** *** The factor *)

(** A float or a complex number, not a converter. *)
Definition numeric (f : fac) : bool :=
  match f with
  | FNum _ | FComplex _ => true
  | _ => false
  end.

Definition is_complex (f : fac) : bool :=
  match f with
  | FComplex _ => true
  | _ => false
  end.

Definition value_of (f : fac) : R :=
  match f with
  | FNum x | FComplex x => x
  | _ => 0
  end.

Definition number (c : bool) (x : R) : fac := if c then FComplex x else FNum x.

Definition product (l : list fac) : R := fold_right (fun f acc => value_of f * acc) 1 l.

Lemma fac_mul_numeric (a b c : fac) :
  fac_mul a b = Ok c -> numeric c = true ->
  numeric a = true /\ numeric b = true /\
  c = number (is_complex a || is_complex b) (value_of a * value_of b).
Proof.
  destruct a, b; cbn; intros [= <-]; cbn; intros H; try discriminate; auto.
Qed.

Lemma product_of_numbers (l : list fac) :
  forall a c,
    foldM fac_mul a l = Ok c -> numeric c = true ->
    numeric a = true /\ Forall (fun f => numeric f = true) l /\
    c = number (is_complex a || existsb is_complex l) (value_of a * product l).
Proof.
  induction l as [| b l IH]; intros a c H Hc.
  - injection H as <-. rewrite orb_false_r. cbn [product fold_right].
    split; [exact Hc |]. split; [constructor |].
    destruct a; cbn in Hc; try discriminate; cbn; f_equal; ring.
  - cbn [foldM] in H.
    destruct (fac_mul a b) as [ab | e |] eqn:E; cbn [bind] in H; try discriminate.
    destruct (IH ab c H Hc) as (Hab & Hl & ->).
    destruct (fac_mul_numeric a b ab E Hab) as (Ha & Hb & ->).
    split; [exact Ha |]. split; [constructor; assumption |].
    cbn [existsb product fold_right].
    destruct (is_complex a), (is_complex b), (existsb is_complex l); cbn;
      f_equal; unfold product; ring.
Qed.

Lemma numbers_multiply (l : list fac) :
  forall a,
    numeric a = true -> Forall (fun f => numeric f = true) l ->
    foldM fac_mul a l
    = Ok (number (is_complex a || existsb is_complex l) (value_of a * product l)).
Proof.
  induction l as [| b l IH]; intros a Ha Hl.
  - rewrite orb_false_r. cbn [product fold_right foldM].
    destruct a; cbn in Ha; try discriminate; cbn; do 2 f_equal; ring.
  - inversion Hl as [| ? ? Hb Hl']; subst. cbn [foldM].
    assert (E : fac_mul a b
                = Ok (number (is_complex a || is_complex b) (value_of a * value_of b))).
    { destruct a, b; cbn in Ha, Hb; try discriminate; reflexivity. }
    rewrite E. cbn [bind]. rewrite IH; [| | exact Hl'].
    + cbn [existsb product fold_right].
      destruct (is_complex a), (is_complex b), (existsb is_complex l); cbn;
        do 2 f_equal; unfold product; ring.
    + destruct (is_complex a || is_complex b); reflexivity.
Qed.

Lemma product_permutation (l l' : list fac) :
  Permutation l l' ->
  product l = product l' /\ existsb is_complex l = existsb is_complex l'.
Proof.
  induction 1 as [| a l l' _ [IH1 IH2] | a b l | l l' l'' _ [IH1 IH2] _ [IH3 IH4]];
    cbn [product fold_right existsb] in *.
  - auto.
  - fold (product l). fold (product l'). rewrite IH1, IH2. auto.
  - fold (product l). split; [ring |].
    destruct (is_complex a), (is_complex b); reflexivity.
  - split; congruence.
Qed.

(** The product of plain numbers does not depend on their order. *)
Lemma factors_permutation (l l' : list fac) (a c : fac) :
  Permutation l l' ->
  foldM fac_mul a l = Ok c -> numeric c = true ->
  foldM fac_mul a l' = Ok c.
Proof.
  intros Hp H Hc.
  destruct (product_of_numbers l a c H Hc) as (Ha & Hl & ->).
  rewrite numbers_multiply.
  - destruct (product_permutation l l' Hp) as [-> ->]. reflexivity.
  - exact Ha.
  - eapply Permutation_Forall; eauto.
Qed.

(** *** The totals *)

(** The power a base has in the totals; a base not met has power 0. *)
Definition power_of (b : string) (totals : list (string * Z)) : Z :=
  match lookup b totals with
  | Some p => p
  | None => 0%Z
  end.

Definition share_of (b : string) (adds : list (string * Z)) : Z :=
  fold_right (fun e acc => ((if String.eqb (fst e) b then snd e else 0) + acc)%Z)
    0%Z adds.

Lemma power_of_add (b c : string) (p : Z) (totals : list (string * Z)) :
  power_of b (add_power c p totals)
  = (power_of b totals + (if String.eqb c b then p else 0))%Z.
Proof.
  unfold power_of. induction totals as [| [k q] totals IH]; cbn [add_power lookup].
  - destruct (String.eqb c b); lia.
  - destruct (String.eqb_spec k c) as [-> | Hkc]; cbn [lookup].
    + destruct (String.eqb c b); lia.
    + destruct (String.eqb_spec k b) as [-> | Hkb].
      * destruct (String.eqb_spec c b) as [-> | _]; [congruence | lia].
      * exact IH.
Qed.

Lemma power_of_add_all (b : string) (adds : list (string * Z)) :
  forall totals,
    power_of b (add_all adds totals) = (power_of b totals + share_of b adds)%Z.
Proof.
  induction adds as [| [c p] adds IH]; intros totals.
  - cbn. lia.
  - change (add_all ((c, p) :: adds) totals)
      with (add_all adds (add_power c p totals)).
    rewrite IH, power_of_add. cbn [share_of fold_right fst snd].
    fold (share_of b adds). lia.
Qed.

Lemma share_of_permutation (b : string) (l l' : list (string * Z)) :
  Permutation l l' -> share_of b l = share_of b l'.
Proof.
  induction 1 as [| a l l' _ IH | x y l | l l' l'' _ IH1 _ IH2];
    cbn [share_of fold_right] in *.
  - reflexivity.
  - fold (share_of b l). fold (share_of b l'). lia.
  - lia.
  - congruence.
Qed.

Lemma add_power_keys (c : string) (p : Z) (totals : list (string * Z)) (k : string) :
  In k (map fst (add_power c p totals)) <-> k = c \/ In k (map fst totals).
Proof.
  induction totals as [| [b q] totals IH]; cbn [add_power map fst In].
  - intuition.
  - destruct (String.eqb_spec b c) as [-> | Hbc]; cbn [map fst In].
    + intuition.
    + rewrite IH. intuition.
Qed.

Lemma add_power_nodup (c : string) (p : Z) (totals : list (string * Z)) :
  NoDup (map fst totals) -> NoDup (map fst (add_power c p totals)).
Proof.
  induction totals as [| [b q] totals IH]; cbn [add_power map fst]; intros H.
  - constructor; [intros [] | constructor].
  - inversion H as [| ? ? Hn Hd]; subst.
    destruct (String.eqb_spec b c) as [-> | Hbc]; cbn [map fst].
    + constructor; assumption.
    + constructor; [| apply IH; exact Hd].
      rewrite add_power_keys. intros [E | E]; [congruence | contradiction].
Qed.

Lemma add_all_nodup (adds : list (string * Z)) :
  forall totals, NoDup (map fst totals) -> NoDup (map fst (add_all adds totals)).
Proof.
  induction adds as [| [c p] adds IH]; intros totals H; [exact H |].
  apply (IH (add_power c p totals)). apply add_power_nodup. exact H.
Qed.

Lemma lookup_nodup (totals : list (string * Z)) (b : string) (p : Z) :
  NoDup (map fst totals) -> (In (b, p) totals <-> lookup b totals = Some p).
Proof.
  induction totals as [| [k q] totals IH]; cbn [map fst lookup In]; intros H.
  - split; [intros [] | discriminate].
  - inversion H as [| ? ? Hn Hd]; subst.
    destruct (String.eqb_spec k b) as [-> | Hkb].
    + split.
      * intros [[= ->] | Hin]; [reflexivity |].
        exfalso. apply Hn. apply (in_map fst) in Hin. exact Hin.
      * intros [= ->]. left. reflexivity.
    + rewrite <- (IH Hd). split.
      * intros [[= -> _] | Hin]; [congruence | exact Hin].
      * intros Hin. right. exact Hin.
Qed.

Lemma nodup_pairs (totals : list (string * Z)) :
  NoDup (map fst totals) -> NoDup totals.
Proof. apply NoDup_map_inv. Qed.

Definition nonzero_power (e : string * Z) : bool := negb (snd e =? 0)%Z.

(** The signature depends on the power of each base only. *)
Lemma signature_of_powers (t t' : list (string * Z)) :
  NoDup (map fst t) -> NoDup (map fst t') ->
  (forall b, power_of b t = power_of b t') ->
  signature t = signature t'.
Proof.
  intros Hn Hn' Hp. unfold signature. f_equal.
  apply sorted_of_permutation. apply Permutation_map.
  assert (Hin : forall t0, NoDup (map fst t0) -> forall b p,
            In (b, p) (filter nonzero_power t0) <-> (power_of b t0 = p /\ p <> 0%Z)).
  { intros t0 Hn0 b p. rewrite filter_In. rewrite (lookup_nodup t0 b p Hn0).
    unfold power_of, nonzero_power. cbn [snd].
    destruct (Z.eqb_spec p 0) as [-> | Hp0]; cbn [negb].
    - split; [intros [_ H]; discriminate | intros [_ H]; congruence].
    - destruct (lookup b t0) as [q |].
      + split; [intros [[= ->] _]; auto | intros [-> _]; auto].
      + split; [intros [H _]; discriminate | intros [<- _]; congruence]. }
  apply NoDup_Permutation.
  - apply NoDup_filter. apply nodup_pairs. exact Hn.
  - apply NoDup_filter. apply nodup_pairs. exact Hn'.
  - intros [b p]. change (fun e : string * Z => negb (snd e =? 0)%Z) with nonzero_power.
    rewrite (Hin t Hn), (Hin t' Hn'), Hp. reflexivity.
Qed.

Lemma totals_permutation (adds adds' : list (string * Z)) :
  Permutation adds adds' ->
  signature (add_all adds []) = signature (add_all adds' []).
Proof.
  intros Hp. apply signature_of_powers.
  - apply add_all_nodup. constructor.
  - apply add_all_nodup. constructor.
  - intros b. rewrite !power_of_add_all. rewrite (share_of_permutation b _ _ Hp).
    reflexivity.
Qed.

(** *** [breakdown] *)

Lemma solved_from_tokens (u : string) (ls : list (list string)) :
  mapM token_units (Py.split u) = Ok ls ->
  exists s, solve_aliases u = Ok s /\ Py.split s = List.concat ls.
Proof.
  intros H. pose proof (solve_aliases_tokens u) as E. rewrite H in E.
  cbn [bind] in E.
  destruct (solve_aliases u) as [s | e |]; cbn [bind] in E; try discriminate.
  exists s. split; [reflexivity | congruence].
Qed.

(** [breakdown] returns exactly when every token resolves and
    contributes, and the factors multiply. *)
Lemma breakdown_ok (K : Constants) (maxint : Z) (u : string) (f : fac)
    (sig : string) :
  breakdown K maxint u = Ok (f, sig) <->
  exists ls cs,
    mapM token_units (Py.split u) = Ok ls /\
    mapM (contribution K maxint) (List.concat ls) = Ok cs /\
    foldM fac_mul (FNum 1) (map fst cs) = Ok f /\
    sig = signature (add_all (List.concat (map snd cs)) []).
Proof.
  unfold breakdown. split.
  - destruct (solve_aliases u) as [s | e |] eqn:Hs; cbn [bind]; try discriminate.
    destruct (foldM (breakdown_unit K maxint) (FNum 1, []) (Py.split s))
      as [[tf totals] | e |] eqn:Hf; cbn [bind]; try discriminate.
    intros [= <- <-].
    destruct (solved_tokens u s Hs) as (ls & Hls & Hc).
    apply breakdown_loop_ok in Hf. destruct Hf as (cs & Hcs & Hm & Ht).
    cbn [fst snd] in Hm, Ht. exists ls, cs. rewrite Hc. subst totals. auto.
  - intros (ls & cs & Hls & Hcs & Hm & ->).
    destruct (solved_from_tokens u ls Hls) as (s & -> & Hsplit). cbn [bind].
    assert (E : foldM (breakdown_unit K maxint) (FNum 1, []) (Py.split s)
                = Ok (f, add_all (List.concat (map snd cs)) [])).
    { apply breakdown_loop_ok. exists cs. rewrite Hsplit. auto. }
    rewrite E. reflexivity.
Qed.

(** X19.  A unit string whose tokens are those of another in a different
    order (with any white space between them) breaks down to the same
    factor and the same signature, when that factor is a plain number (no
    token is a nonlinear unit such as a magnitude or a temperature in
    Fahrenheit). *)
Theorem breakdown_permutation :
  forall (K : Constants) (maxint : Z) (u u' : string) (f : fac) (sig : string),
    Permutation (Py.split u) (Py.split u') ->
    breakdown K maxint u = Ok (f, sig) ->
    numeric f = true ->
    breakdown K maxint u' = Ok (f, sig).
Proof.
  intros K maxint u u' f sig Hp H Hn.
  apply breakdown_ok in H. destruct H as (ls & cs & Hls & Hcs & Hm & ->).
  destruct (mapM_permutation token_units _ _ Hp ls Hls) as (ls' & Hls' & Pls).
  destruct (mapM_permutation (contribution K maxint) _ _
              (concat_permutation _ _ Pls) cs Hcs) as (cs' & Hcs' & Pcs).
  apply breakdown_ok. exists ls', cs'. repeat split; auto.
  - apply (factors_permutation (map fst cs)); auto.
    apply Permutation_map. exact Pcs.
  - apply totals_permutation. apply concat_permutation.
    apply Permutation_map. exact Pcs.
Qed.

Lemma breakdown_permutation_witness :
  exists (x : R) (sig : string),
    breakdown si_constants maxint64 "s-1   erg" = Ok (FNum x, sig).
Proof.
  eexists. eexists.
  eapply (breakdown_permutation si_constants maxint64 "erg s-1" "s-1   erg").
  - apply perm_swap.
  - pyrun. reflexivity.
  - reflexivity.
Defined.

(** ** The signature, broken down again *)

(** *** Numbers as [str] writes them *)

Lemma uint_digits (d : uint) : all Py.isdigit (NilEmpty.string_of_uint d) = true.
Proof. induction d; cbn [NilEmpty.string_of_uint all]; try rewrite IHd; reflexivity. Qed.

Lemma uint_nonempty (d : uint) : d <> Nil -> NilEmpty.string_of_uint d <> EmptyString.
Proof. destruct d; intros H; try discriminate. congruence. Qed.

(** [str(p)]: an optional minus sign and at least one digit. *)
Lemma str_of_int_shape (p : Z) :
  exists sgn ds : string,
    Py.str_of_int p = (sgn ++ ds)%string /\
    (sgn = EmptyString \/ sgn = "-"%string) /\
    all Py.isdigit ds = true /\ ds <> EmptyString.
Proof.
  assert (H : forall q, exists ds,
            NilZero.string_of_uint (Pos.to_uint q) = ds /\
            all Py.isdigit ds = true /\ ds <> EmptyString).
  { intros q. pose proof (Unsigned.to_uint_nonnil q) as Hq.
    exists (NilEmpty.string_of_uint (Pos.to_uint q)). repeat split.
    - unfold NilZero.string_of_uint. destruct (Pos.to_uint q); congruence.
    - apply uint_digits.
    - apply uint_nonempty. exact Hq. }
  unfold Py.str_of_int. destruct p as [| q | q]; cbn [Z.to_int NilZero.string_of_int].
  - exists EmptyString, "0"%string. repeat split; auto. discriminate.
  - destruct (H q) as (ds & -> & Hd & Hn). exists EmptyString, ds. auto.
  - destruct (H q) as (ds & -> & Hd & Hn). exists "-"%string, ds. auto.
Qed.

(** [int(str(p))] is [p]. *)
Lemma int_of_str_of_int (p : Z) : int_of (Py.str_of_int p) = Ok p.
Proof.
  unfold int_of, Py.int_of_str, Py.str_of_int.
  rewrite NilZero.isi.
  - cbn [option_map]. rewrite DecimalZ.of_to. reflexivity.
  - destruct p as [| q | q]; cbn [Z.to_int]; try discriminate.
    intros [= E]. exact (Unsigned.to_uint_nonnil q E).
  - destruct p as [| q | q]; cbn [Z.to_int]; try discriminate.
    intros [= E]. exact (Unsigned.to_uint_nonnil q E).
Qed.

(** *** The patterns on a name followed by a number *)

(** A character of a name: not a digit, not a minus sign, not a newline. *)
Definition plain (c : ascii) : bool :=
  Re.dot c && negb (Py.isdigit c) && negb (Ascii.eqb "-" c).

Lemma plain_parts (c : ascii) :
  plain c = true ->
  Re.dot c = true /\ Re.digit c = false /\ Re.lit "-" c = false.
Proof.
  unfold plain, Re.digit, Re.lit. intros H.
  apply andb_prop in H. destruct H as [H H3].
  apply andb_prop in H. destruct H as [H1 H2].
  apply negb_true_iff in H2, H3. auto.
Qed.

Lemma digit_not_minus (c : ascii) : Py.isdigit c = true -> Re.lit "-" c = false.
Proof.
  intros H. unfold Re.lit. destruct (Ascii.eqb_spec "-" c) as [<- | _]; [discriminate H | reflexivity].
Qed.

Section Continuation.

Context {A : Type}.
Variable k : string -> string -> option A.

(** A greedy run of digits to the end of the string takes them all, when
    what follows accepts that. *)
Lemma greedy_digits (ds : string) :
  all Py.isdigit ds = true ->
  forall (acc : string) (l : nat) (r : A),
    (l <= String.length ds)%nat ->
    k (acc ++ ds) EmptyString = Some r ->
    Re.quant Re.digit true l None k acc ds = Some r.
Proof.
  induction ds as [| d ds IH]; intros Hd acc l r Hl Hk.
  - cbn in Hl. assert (l = 0%nat) by lia. subst l.
    rewrite append_empty_r in Hk. exact Hk.
  - cbn [all] in Hd. apply andb_prop in Hd. destruct Hd as [Hd Hds].
    cbn [Re.quant]. unfold Re.digit at 1. rewrite Hd.
    cbn [Re.allows andb Re.decr option_map].
    rewrite (IH Hds (acc ++ String d "")%string (pred l) r).
    + reflexivity.
    + cbn [String.length] in Hl. lia.
    + rewrite append_assoc. exact Hk.
Qed.

(** A lazy run stops at the first place where what follows accepts. *)
Lemma lazy_run (p : ascii -> bool) (b rest : string) :
  all p b = true ->
  forall (acc : string),
    (forall x y, b = (x ++ y)%string -> y <> EmptyString ->
                 k (acc ++ x) (y ++ rest) = None) ->
    Re.quant p false 0 None k acc (b ++ rest) = 
    match k (acc ++ b) rest with
    | Some r => Some r
    | None => Re.quant p false 0 None k (acc ++ b) rest
    end.
Proof.
  induction b as [| c b IH]; intros Hb acc Hk.
  - cbn [append]. rewrite append_empty_r.
    destruct rest as [| c rest]; cbn [Re.quant Re.stop].
    + destruct (k acc ""); reflexivity.
    + destruct (p c && Re.allows None); [| destruct (k acc (String c rest)); reflexivity].
      destruct (k acc (String c rest)) eqn:E; [reflexivity |].
      cbn [Re.quant]. destruct (p c); cbn [andb Re.allows]; rewrite ?E; reflexivity.
  - cbn [all] in Hb. apply andb_prop in Hb. destruct Hb as [Hc Hb].
    cbn [append Re.quant]. rewrite Hc. cbn [andb Re.allows Re.stop].
    assert (E : k acc (String c (b ++ rest)) = None).
    { specialize (Hk EmptyString (String c b) eq_refl).
      rewrite append_empty_r in Hk. apply Hk. discriminate. }
    rewrite E. cbn [pred Re.decr option_map].
    rewrite (IH Hb (acc ++ String c "")%string).
    + rewrite append_assoc. reflexivity.
    + intros x y Hxy Hy. rewrite append_assoc. apply (Hk (String c x) y); [| exact Hy].
      cbn [append]. now rewrite Hxy.
Qed.

End Continuation.

Definition number_tail : list Re.atom :=
  [ Re.Atom (Re.lit "-") 0%nat (Some 1%nat) true; Re.Atom Re.digit 1%nat None true ].

Lemma all_weaken (p q : ascii -> bool) (s : string) :
  (forall c, p c = true -> q c = true) -> all p s = true -> all q s = true.
Proof.
  intros H. induction s as [| c s IH]; [reflexivity |]. cbn [all]. intros Hs.
  apply andb_prop in Hs. destruct Hs as [Hc Hs]. rewrite (H c Hc), (IH Hs).
  reflexivity.
Qed.

Lemma quant_miss {A} (p : ascii -> bool) (g : bool) (l : nat) (h : option nat)
    (k : string -> string -> option A) (acc : string) (c : ascii) (s : string) :
  p c = false ->
  Re.quant p g l h k acc (String c s) = Re.stop l k acc (String c s).
Proof. intros H. cbn [Re.quant]. rewrite H. reflexivity. Qed.

Lemma quant_greedy_hit {A} (p : ascii -> bool) (l : nat) (h : option nat)
    (k : string -> string -> option A) (acc : string) (c : ascii) (s : string) :
  p c = true -> Re.allows h = true ->
  Re.quant p true l h k acc (String c s) =
  match Re.quant p true (pred l) (Re.decr h) k (acc ++ String c "") s with
  | Some r => Some r
  | None => Re.stop l k acc (String c s)
  end.
Proof. intros H H'. cbn [Re.quant]. rewrite H, H'. reflexivity. Qed.

Lemma quant_lazy_hit {A} (p : ascii -> bool) (l : nat) (h : option nat)
    (k : string -> string -> option A) (acc : string) (c : ascii) (s : string) :
  p c = true -> Re.allows h = true ->
  Re.quant p false l h k acc (String c s) =
  match Re.stop l k acc (String c s) with
  | Some r => Some r
  | None => Re.quant p false (pred l) (Re.decr h) k (acc ++ String c "") s
  end.
Proof. intros H H'. cbn [Re.quant]. rewrite H, H'. reflexivity. Qed.

Lemma match_here_cons (a : Re.atom) (rest : list Re.atom) (s : string) :
  Re.match_here (a :: rest) s =
  Re.quant (Re.cls a) (Re.greedy a) (Re.lo a) (Re.hi a)
    (fun taken s' => option_map (cons taken) (Re.match_here rest s'))
    EmptyString s.
Proof. reflexivity. Qed.

Lemma digits_run (ds : string) :
  all Py.isdigit ds = true -> ds <> EmptyString ->
  Re.match_here [Re.Atom Re.digit 1%nat None true] ds = Some [ds].
Proof.
  intros Hd Hn. rewrite match_here_cons. cbn [Re.cls Re.greedy Re.lo Re.hi].
  apply greedy_digits; [exact Hd | | reflexivity].
  destruct ds; [congruence | cbn; lia].
Qed.

Lemma number_tail_matches (sgn ds : string) :
  (sgn = EmptyString \/ sgn = "-"%string) ->
  all Py.isdigit ds = true -> ds <> EmptyString ->
  Re.match_here number_tail (sgn ++ ds) = Some [sgn; ds].
Proof.
  intros Hs Hd Hn. pose proof (digits_run ds Hd Hn) as Hrun.
  destruct ds as [| d ds]; [congruence |].
  assert (Hm : Re.lit "-" d = false).
  { apply digit_not_minus. cbn [all] in Hd. apply andb_prop in Hd. tauto. }
  unfold number_tail. rewrite match_here_cons. cbn [Re.cls Re.greedy Re.lo Re.hi].
  destruct Hs as [-> | ->]; cbn [append].
  - rewrite quant_miss by exact Hm. cbn [Re.stop]. rewrite Hrun. reflexivity.
  - rewrite quant_greedy_hit by reflexivity.
    cbn [pred Re.decr option_map append].
    rewrite quant_miss by exact Hm. cbn [Re.stop]. rewrite Hrun. reflexivity.
Qed.

Lemma number_tail_fails (c : ascii) (s : string) :
  plain c = true -> Re.match_here number_tail (String c s) = None.
Proof.
  intros Hc. destruct (plain_parts c Hc) as (_ & Hd & Hm).
  unfold number_tail. rewrite match_here_cons. cbn [Re.cls Re.greedy Re.lo Re.hi].
  rewrite quant_miss by exact Hm. cbn [Re.stop].
  rewrite match_here_cons. cbn [Re.cls Re.greedy Re.lo Re.hi].
  rewrite quant_miss by exact Hd. reflexivity.
Qed.

(** The pattern of [components] on a name followed by a number: no
    leading factor, the name, the sign, the digits. *)
Lemma unit_pattern_name_number (b sgn ds : string) :
  b <> EmptyString -> all plain b = true ->
  (sgn = EmptyString \/ sgn = "-"%string) ->
  all Py.isdigit ds = true -> ds <> EmptyString ->
  Re.search Re.unit_pattern (b ++ sgn ++ ds) = Some [EmptyString; b; sgn; ds].
Proof.
  intros Hb Hp Hs Hd Hn. rewrite search_unfold.
  destruct b as [| c b]; [congruence |].
  cbn [all] in Hp. apply andb_prop in Hp. destruct Hp as [Hc Hp].
  destruct (plain_parts c Hc) as (Hdot & Hdig & _).
  assert (E : Re.match_here Re.unit_pattern (String c b ++ sgn ++ ds)
              = Some [EmptyString; String c b; sgn; ds]); [| now rewrite E].
  unfold Re.unit_pattern.
  change (Re.Atom (Re.lit "-") 0%nat (Some 1%nat) true :: Re.Atom Re.digit 1%nat None true :: nil)
    with number_tail.
  rewrite match_here_cons. cbn [Re.cls Re.greedy Re.lo Re.hi append].
  rewrite quant_miss by exact Hdig. cbn [Re.stop].
  rewrite match_here_cons. cbn [Re.cls Re.greedy Re.lo Re.hi].
  rewrite quant_lazy_hit by (exact Hdot || reflexivity).
  cbn [Re.stop pred Re.decr option_map append].
  rewrite lazy_run.
  - cbn [append]. rewrite number_tail_matches by assumption. reflexivity.
  - apply (all_weaken plain); [| exact Hp].
    intros a Ha. apply plain_parts in Ha. tauto.
  - intros x y Hxy Hy. destruct y as [| a y]; [congruence |].
    cbn [append]. rewrite number_tail_fails; [reflexivity |].
    assert (Hall : all plain (x ++ String a y) = true) by (rewrite <- Hxy; exact Hp).
    rewrite all_append in Hall. apply andb_prop in Hall. destruct Hall as [_ Hall].
    cbn [all] in Hall. apply andb_prop in Hall. tauto.
Qed.

Definition nondigit (c : ascii) : bool := negb (Py.isdigit c).

(** No prefactor is found in a string where a digit is only followed by
    digits. *)
Lemma no_prefactor_found (q : ascii -> bool) (rest : list Re.atom) :
  (forall c, Py.isdigit c = true -> q c = false) ->
  forall u ds : string,
    all nondigit u = true -> all Py.isdigit ds = true ->
    Re.search (Re.one Re.digit :: Re.one Re.digit :: Re.one q :: rest) (u ++ ds)
    = None.
Proof.
  intros Hq u ds Hu Hd.
  assert (Hds : forall t, all Py.isdigit t = true ->
            Re.search (Re.one Re.digit :: Re.one Re.digit :: Re.one q :: rest) t = None).
  { clear u Hu ds Hd. induction t as [| d t IH]; intros Ht.
    - reflexivity.
    - cbn [all] in Ht. apply andb_prop in Ht. destruct Ht as [Hd Ht].
      rewrite search_unfold, (IH Ht).
      rewrite match_one by exact Hd.
      destruct t as [| d' t]; [reflexivity |].
      cbn [all] in Ht. apply andb_prop in Ht. destruct Ht as [Hd' Ht].
      rewrite match_one by exact Hd'.
      destruct t as [| d'' t]; [reflexivity |].
      cbn [all] in Ht. apply andb_prop in Ht. destruct Ht as [Hd'' Ht].
      rewrite match_one_fails by (apply Hq; exact Hd''). reflexivity. }
  induction u as [| c u IH].
  - apply Hds. exact Hd.
  - cbn [all] in Hu. apply andb_prop in Hu. destruct Hu as [Hc Hu].
    cbn [append]. rewrite search_unfold, (IH Hu).
    rewrite match_one_fails; [reflexivity |].
    unfold nondigit in Hc. apply negb_true_iff in Hc. exact Hc.
Qed.

Lemma all_take (p : ascii -> bool) (n : nat) (s : string) :
  all p s = true -> all p (Py.take n s) = true.
Proof.
  revert s. induction n as [| n IH]; intros [| c s]; cbn [Py.take all]; auto.
  intros H. apply andb_prop in H. destruct H as [Hc Hs].
  rewrite Hc, (IH s Hs). reflexivity.
Qed.

Lemma take_app (n : nat) (u v : string) :
  Py.take n (u ++ v) = (Py.take n u ++ Py.take (n - String.length u) v)%string.
Proof.
  revert u. induction n as [| n IH]; intros [| c u]; cbn [Py.take append String.length Nat.sub].
  - destruct v; reflexivity.
  - reflexivity.
  - reflexivity.
  - rewrite IH. reflexivity.
Qed.

Lemma sign_rejects_digits (c : ascii) :
  Py.isdigit c = true -> Re.any_of ["-"; "+"]%char c = false.
Proof.
  destruct c as [[] [] [] [] [] [] [] []]; intros H; try discriminate H; reflexivity.
Qed.

Lemma mark_rejects_digits (c : ascii) :
  Py.isdigit c = true -> Re.any_of ["["; "e"; "E"]%char c = false.
Proof.
  destruct c as [[] [] [] [] [] [] [] []]; intros H; try discriminate H; reflexivity.
Qed.

Lemma no_prefactor (n : nat) (u ds : string) :
  all nondigit u = true -> all Py.isdigit ds = true ->
  Re.search Re.sci_pattern (Py.take n (u ++ ds)) = None /\
  Re.search Re.sci_e_pattern (Py.take n (u ++ ds)) = None.
Proof.
  intros Hu Hd. rewrite take_app. split.
  - apply no_prefactor_found; [apply sign_rejects_digits | |]; apply all_take; assumption.
  - apply no_prefactor_found; [apply mark_rejects_digits | |]; apply all_take; assumption.
Qed.

Lemma last_char_app (u ds : string) :
  ds <> EmptyString -> Py.last_char (u ++ ds) = Py.last_char ds.
Proof.
  intros Hn. induction u as [| c u IH]; [reflexivity |].
  cbn [append]. 
  change (Py.last_char (String c (u ++ ds)))
    with (match (u ++ ds)%string with
          | EmptyString => Some c
          | String _ _ => Py.last_char (u ++ ds)
          end).
  destruct (u ++ ds)%string eqn:E; [| exact IH].
  destruct u; cbn in E; [congruence | discriminate].
Qed.

Lemma digits_end_with_digit (ds : string) :
  all Py.isdigit ds = true -> ds <> EmptyString -> ends_with_digit ds.
Proof.
  induction ds as [| d ds IH]; intros Hd Hn; [congruence |].
  cbn [all] in Hd. apply andb_prop in Hd. destruct Hd as [Hd Hds].
  destruct ds as [| d' ds].
  - exists d. auto.
  - destruct IH as (c & Hc & Hdc); [exact Hds | discriminate |].
    exists c. split; [exact Hc | exact Hdc].
Qed.

Lemma ensure_power_keeps (s : string) :
  ends_with_digit s -> ensure_power s = Ok s.
Proof.
  intros (c & Hc & Hd). unfold ensure_power. rewrite Hc, Hd. reflexivity.
Qed.

(** *** The base units of the signature *)

(** The SI base units the table [_factors] is written in. *)
Definition SI_bases : list string :=
  [ "m"; "kg"; "s"; "cy"; "JD"; "rad"; "complex_coord"; "K"; "flux_ratio";
    "ampl" ].

(** A factor that stands for one: [1.] or [1+0j]. *)
Definition is_one (f : fac) : Prop := numeric f = true /\ value_of f = 1.

Lemma bases_plain : forallb (fun b => nonempty b && all plain b) SI_bases = true.
Proof. reflexivity. Qed.

Lemma base_is_plain (b : string) :
  In b SI_bases -> b <> EmptyString /\ all plain b = true.
Proof.
  intros H. pose proof bases_plain as Hb. rewrite forallb_forall in Hb.
  specialize (Hb b H). apply andb_prop in Hb. destruct Hb as [Hn Hp].
  split; [| exact Hp]. intros ->. discriminate Hn.
Qed.

(** A base unit is its own SI equivalent, with factor one. *)
Lemma to_SI_base_of_base (K : Constants) (b : string) (p : Z) :
  In b SI_bases ->
  exists f, to_SI_base K 1 b p = Ok (f, b, p) /\ is_one f.
Proof.
  unfold SI_bases. cbn [In]. intros H.
  repeat (destruct H as [<- | H]; [
    eexists; split; [whd_lhs; reflexivity | split; [reflexivity | cbn; lra]] |]).
  contradiction.
Qed.

(** [components] on a base unit followed by a power. *)
Lemma components_name_number (K : Constants) (b : string) (p : Z) :
  In b SI_bases ->
  exists f, components K (b ++ Py.str_of_int p) = Ok (f, b, p) /\ is_one f.
Proof.
  intros Hb. destruct (base_is_plain b Hb) as [Hne Hpl].
  destruct (str_of_int_shape p) as (sgn & ds & E & Hs & Hd & Hn).
  pose proof (int_of_str_of_int p) as Hint. rewrite E in *.
  assert (Hu : all nondigit (b ++ sgn) = true).
  { rewrite all_append. apply andb_true_intro. split.
    - apply (all_weaken plain); [| exact Hpl].
      intros c Hc. apply plain_parts in Hc. unfold nondigit.
      apply negb_true_iff. tauto.
    - destruct Hs as [-> | ->]; reflexivity. }
  destruct (no_prefactor 5 (b ++ sgn) ds Hu Hd) as [E5 _].
  destruct (no_prefactor 6 (b ++ sgn) ds Hu Hd) as [_ E6].
  rewrite append_assoc in E5, E6.
  assert (Hend : ends_with_digit (b ++ sgn ++ ds)).
  { destruct (digits_end_with_digit ds Hd Hn) as (c & Hc & Hdc).
    exists c. split; [| exact Hdc].
    rewrite last_char_app.
    - rewrite last_char_app by exact Hn. exact Hc.
    - destruct sgn; cbn [append]; [exact Hn | discriminate]. }
  unfold components. rewrite E5. cbn [bind]. rewrite E6. cbn [bind].
  unfold components_from. rewrite (ensure_power_keeps _ Hend). cbn [bind].
  rewrite unit_pattern_name_number by assumption.
  rewrite Hint. cbn [bind].
  apply to_SI_base_of_base. exact Hb.
Qed.

Lemma base_is_word (b : string) (p : Z) :
  In b SI_bases ->
  all nonspace (b ++ Py.str_of_int p) = true /\
  all noslash (b ++ Py.str_of_int p) = true /\
  (b ++ Py.str_of_int p)%string <> EmptyString /\
  all nonspace b = true.
Proof.
  intros Hb. destruct (base_is_plain b Hb) as [Hne Hpl].
  destruct (str_of_int_shape p) as (sgn & ds & -> & Hs & Hd & Hn).
  assert (Hb1 : forallb (fun b => all nonspace b && all noslash b) SI_bases = true)
    by reflexivity.
  rewrite forallb_forall in Hb1. specialize (Hb1 b Hb).
  apply andb_prop in Hb1. destruct Hb1 as [Hsp Hsl].
  assert (Hdsp : all nonspace ds = true).
  { apply (all_weaken Py.isdigit); [| exact Hd].
    intros c. destruct c as [[] [] [] [] [] [] [] []]; intros H;
      try discriminate H; reflexivity. }
  assert (Hdsl : all noslash ds = true).
  { apply (all_weaken Py.isdigit); [| exact Hd].
    intros c. destruct c as [[] [] [] [] [] [] [] []]; intros H;
      try discriminate H; reflexivity. }
  repeat split.
  - rewrite !all_append, Hsp, Hdsp. destruct Hs as [-> | ->]; reflexivity.
  - rewrite !all_append, Hsl, Hdsl. destruct Hs as [-> | ->]; reflexivity.
  - destruct b; [congruence | discriminate].
  - exact Hsp.
Qed.

Lemma components_of_base (K : Constants) (b : string) :
  In b SI_bases -> exists f, components K b = Ok (f, b, 1%Z).
Proof.
  unfold SI_bases. cbn [In]. intros H.
  repeat (destruct H as [<- | H]; [eexists; whd_lhs; reflexivity |]).
  contradiction.
Qed.

(** What a base unit with its power contributes: the factor one and that
    power of the base. *)
Lemma contribution_of_base (K : Constants) (maxint : Z) (b : string) (p : Z) :
  In b SI_bases ->
  exists f, contribution K maxint (b ++ Py.str_of_int p) = Ok (f, [(b, p)]) /\
            is_one f.
Proof.
  intros Hb. destruct (components_name_number K b p Hb) as (f & Hc & Hn & Hv).
  destruct (base_is_word b 1 Hb) as (_ & _ & _ & Hsp).
  destruct (base_is_plain b Hb) as [Hne _].
  destruct (components_of_base K b Hb) as (f1 & Hb1).
  unfold contribution. rewrite Hc. cbn [bind].
  assert (Hpow : exists fp, fac_pow maxint f p = Ok fp /\ is_one fp).
  { destruct f as [x | x | |]; cbn in Hn, Hv; try discriminate; subst x;
      cbn [fac_pow]; unfold float_pow;
      destruct (Req_dec_T 1 0) as [E | _]; try lra;
      destruct (p <? 0)%Z; cbn [bind]; eexists; (split; [reflexivity |]);
      split; try reflexivity; cbn; apply powerRZ_R1. }
  destruct Hpow as (fp & -> & Hone). cbn [bind].
  rewrite word_split by assumption. cbn [mapM]. unfold base_share at 1.
  rewrite Hb1. cbn [bind]. rewrite Z.mul_1_l. exists fp. auto.
Qed.

(** *** The aliases leave the signature alone *)

Lemma prefix_class (cls : ascii -> bool) (o w rest : string) :
  all cls o = true ->
  match rest with
  | EmptyString => True
  | String c _ => cls c = false
  end ->
  prefix o (w ++ rest) = prefix o w.
Proof.
  revert w. induction o as [| a o IH]; intros w Ho Hb;
    [destruct w, rest; reflexivity |].
  cbn [all] in Ho. apply andb_prop in Ho. destruct Ho as [Ha Ho].
  destruct w as [| c w]; cbn [append].
  - destruct rest as [| d r]; [reflexivity |]. cbn [prefix].
    destruct (ascii_dec a d) as [-> | _]; [congruence | reflexivity].
  - cbn [prefix]. destruct (ascii_dec a c); [apply IH; auto | reflexivity].
Qed.

Lemma contains_unfold (sub : string) (c : ascii) (s : string) :
  Py.contains sub (String c s) = prefix sub (String c s) || Py.contains sub s.
Proof. reflexivity. Qed.

Lemma contains_not_in_number (cls : ascii -> bool) (old num : string) :
  old <> EmptyString -> all cls old = true ->
  all (fun c => negb (cls c)) num = true ->
  Py.contains old num = false.
Proof.
  intros Hne Ho. destruct old as [| a o]; [congruence |].
  cbn [all] in Ho. apply andb_prop in Ho. destruct Ho as [Ha _].
  induction num as [| d num IH]; intros Hn; [reflexivity |].
  cbn [all] in Hn. apply andb_prop in Hn. destruct Hn as [Hd Hn].
  rewrite contains_unfold, (IH Hn). cbn [prefix].
  destruct (ascii_dec a d) as [-> | _]; [| reflexivity].
  rewrite Ha in Hd. discriminate.
Qed.

Lemma contains_name_number (cls : ascii -> bool) (old b num : string) :
  old <> EmptyString -> all cls old = true ->
  all (fun c => negb (cls c)) num = true ->
  Py.contains old (b ++ num) = Py.contains old b.
Proof.
  intros Hne Ho Hn. induction b as [| c b IH].
  - cbn [append]. rewrite (contains_not_in_number cls) by assumption.
    destruct old; [congruence | reflexivity].
  - cbn [append]. rewrite !contains_unfold, IH.
    change (String c (b ++ num)) with (String c b ++ num)%string.
    rewrite (prefix_class cls); [reflexivity | exact Ho |].
    destruct num as [| d num]; [exact I |].
    cbn [all] in Hn. apply andb_prop in Hn. destruct Hn as [Hd _].
    apply negb_true_iff in Hd. exact Hd.
Qed.

Lemma replace_absent (old new s : string) :
  old <> EmptyString -> Py.contains old s = false -> Py.replace old new s = s.
Proof.
  intros Hne. destruct old as [| a o]; [congruence |].
  cbn [Py.replace]. induction s as [| c s IH]; intros H; [reflexivity |].
  rewrite contains_unfold in H. apply orb_false_elim in H. destruct H as [Hp Hs].
  cbn [Py.replace_from]. rewrite Hp, (IH Hs). reflexivity.
Qed.

Lemma resolve_absent (s : string) :
  forallb (fun a => nonempty (fst a) && negb (Py.contains (fst a) s)) _aliases = true ->
  resolve s = s.
Proof.
  unfold resolve. generalize _aliases as l.
  induction l as [| [old new] l IH]; intros H; [reflexivity |].
  cbn [forallb fst] in H. apply andb_prop in H. destruct H as [Ha Hl].
  apply andb_prop in Ha. destruct Ha as [Hne Hc]. apply negb_true_iff in Hc.
  cbn [fold_left fst snd]. rewrite replace_absent; [apply IH; exact Hl | | exact Hc].
  intros ->. discriminate Hne.
Qed.

Lemma number_not_plain (p : Z) :
  all (fun c => negb (plain c)) (Py.str_of_int p) = true.
Proof.
  destruct (str_of_int_shape p) as (sgn & ds & -> & Hs & Hd & _).
  rewrite all_append. apply andb_true_intro. split.
  - destruct Hs as [-> | ->]; reflexivity.
  - apply (all_weaken Py.isdigit); [| exact Hd].
    intros c Hc. unfold plain. rewrite Hc. cbn. now rewrite andb_false_r.
Qed.

Lemma aliases_plain :
  forallb (fun a => nonempty (fst a) && all plain (fst a)) _aliases = true.
Proof. reflexivity. Qed.

Lemma bases_without_alias :
  forallb (fun b => forallb (fun a => negb (Py.contains (fst a) b)) _aliases)
    SI_bases = true.
Proof. vm_compute. reflexivity. Qed.

(** A base unit with its power holds no alias. *)
Lemma resolve_base (b : string) (p : Z) :
  In b SI_bases -> resolve (b ++ Py.str_of_int p) = (b ++ Py.str_of_int p)%string.
Proof.
  intros Hb. apply resolve_absent.
  pose proof bases_without_alias as H1. rewrite forallb_forall in H1.
  specialize (H1 b Hb). rewrite forallb_forall in H1.
  pose proof aliases_plain as H2. rewrite forallb_forall in H2.
  apply forallb_forall. intros a Ha.
  specialize (H1 a Ha). specialize (H2 a Ha).
  apply andb_prop in H2. destruct H2 as [Hne Hpl]. rewrite Hne. cbn [andb].
  rewrite (contains_name_number plain).
  - exact H1.
  - intros E. rewrite E in Hne. discriminate.
  - exact Hpl.
  - apply number_not_plain.
Qed.

Lemma token_units_of_base (b : string) (p : Z) :
  In b SI_bases ->
  token_units (b ++ Py.str_of_int p) = Ok [(b ++ Py.str_of_int p)%string].
Proof.
  intros Hb. destruct (base_is_word b p Hb) as (Hsp & Hsl & Hne & _).
  unfold token_units. rewrite (resolve_base b p Hb).
  rewrite split_on_noslash by exact Hsl.
  cbn [divide_token mapM bind map List.concat].
  rewrite word_split by assumption. reflexivity.
Qed.

(** *** The totals hold base units only *)

(** The tokens of the SI equivalents in [_factors]. *)
Definition SI_tokens : list string :=
  [ "m"; "kg"; "s"; "cy"; "s-1"; "JD"; "rad"; "rad2"; "rad/s"; "complex_coord";
    "s-2"; "K"; "m2"; "s-3"; "m-1"; "cy-1"; "flux_ratio"; "ampl" ].

Lemma SI_tokens_complete (K : Constants) :
  forallb (fun e => forallb (fun t => existsb (String.eqb t) SI_tokens)
                      (Py.split (snd (snd e))))
    (_factors K) = true.
Proof. reflexivity. Qed.

Lemma to_SI_base_si (K : Constants) (f : R) (b : string) (p : Z)
    (r : fac * string * Z) :
  to_SI_base K f b p = Ok r ->
  exists key e, In (key, (e, snd (fst r))) (_factors K).
Proof.
  unfold to_SI_base.
  destruct (find_scaling K b _scalings) as [[scale v] |]; cbn [bind].
  - destruct (lookup _ (_factors K)) as [[e si] |] eqn:L; [| discriminate].
    apply lookup_In in L. destruct e; intros [= <-]; eauto.
  - destruct (has_key b (_factors K)); cbn [bind]; [| discriminate].
    destruct (lookup _ (_factors K)) as [[e si] |] eqn:L; [| discriminate].
    apply lookup_In in L. destruct e; intros [= <-]; eauto.
Qed.

Lemma components_from_si (K : Constants) (f : R) (u : string)
    (r : fac * string * Z) :
  components_from K f u = Ok r ->
  exists key e, In (key, (e, snd (fst r))) (_factors K).
Proof.
  unfold components_from.
  destruct (ensure_power u) as [u' | |]; cbn [bind]; try discriminate.
  match goal with
  | |- bind ?m _ = _ -> _ => destruct m as [[[f' b] p] | |]
  end; cbn [bind]; try discriminate.
  apply to_SI_base_si.
Qed.

Lemma components_si (K : Constants) (u : string) (r : fac * string * Z) :
  components K u = Ok r ->
  exists key e, In (key, (e, snd (fst r))) (_factors K).
Proof.
  unfold components.
  match goal with
  | |- bind ?m _ = _ -> _ => destruct m as [[f1 u1] | |]
  end; cbn [bind]; try discriminate.
  match goal with
  | |- bind ?m _ = _ -> _ => destruct m as [[f2 u2] | |]
  end; cbn [bind]; try discriminate.
  apply components_from_si.
Qed.

Ltac run_in Hc :=
  match type of Hc with
  | ?lhs = _ => let v := eval lazy head in lhs in change lhs with v in Hc
  end.

Lemma SI_tokens_bases (K : Constants) (tok : string) (r : fac * string * Z) :
  In tok SI_tokens -> components K tok = Ok r -> In (snd (fst r)) SI_bases.
Proof.
  unfold SI_tokens. cbn [In]. intros H.
  repeat (destruct H as [<- | H]; [
    intros Hc; run_in Hc;
    first [ discriminate Hc
          | injection Hc as <-; cbn [fst snd]; unfold SI_bases; cbn [In];
            repeat (first [left; reflexivity | right]) ] |]).
  contradiction.
Qed.

(** The bases [breakdown] adds up are SI base units. *)
Lemma share_in_bases (K : Constants) (u : string) (f : fac) (si : string) (p : Z)
    (base : string) (e : string * Z) :
  components K u = Ok (f, si, p) ->
  In base (Py.split si) ->
  base_share K p base = Ok e ->
  In (fst e) SI_bases.
Proof.
  intros Hc Hb He.
  destruct (components_si K u _ Hc) as (key & en & Hin). cbn [fst snd] in Hin.
  pose proof (SI_tokens_complete K) as Hall. rewrite forallb_forall in Hall.
  specialize (Hall _ Hin). cbn [snd] in Hall. rewrite forallb_forall in Hall.
  specialize (Hall base Hb). apply existsb_exists in Hall.
  destruct Hall as (t & Ht & Heq). apply String.eqb_eq in Heq. subst t.
  unfold base_share in He.
  destruct (components K base) as [[[f' b'] p'] | |] eqn:E; cbn [bind] in He;
    try discriminate.
  injection He as <-. cbn [fst].
  apply (SI_tokens_bases K base _ Ht E).
Qed.

Lemma mapM_In {A B} (f : A -> result B) (l : list A) (r : list B) (y : B) :
  mapM f l = Ok r -> In y r -> exists x, In x l /\ f x = Ok y.
Proof.
  revert r. induction l as [| a l IH]; intros r H Hy.
  - injection H as <-. destruct Hy.
  - cbn [mapM] in H. destruct (f a) as [b | |] eqn:E; cbn [bind] in H; try discriminate.
    destruct (mapM f l) as [bs | |]; cbn [bind] in H; try discriminate.
    injection H as <-. destruct Hy as [<- | Hy].
    + exists a. split; [left; reflexivity | exact E].
    + destruct (IH bs eq_refl Hy) as (x & Hx & Hfx). exists x. split; [right |]; auto.
Qed.

Lemma contribution_bases (K : Constants) (maxint : Z) (u : string) (f : fac)
    (adds : list (string * Z)) :
  contribution K maxint u = Ok (f, adds) ->
  Forall (fun e => In (fst e) SI_bases) adds.
Proof.
  unfold contribution.
  destruct (components K u) as [[[f0 si] p] | |] eqn:Hc; cbn [bind]; try discriminate.
  destruct (fac_pow maxint f0 p) as [fp | |]; cbn [bind]; try discriminate.
  destruct (mapM (base_share K p) (Py.split si)) as [l | |] eqn:Hm; cbn [bind];
    try discriminate.
  intros [= <- <-]. apply Forall_forall. intros e He.
  destruct (mapM_In _ _ _ _ Hm He) as (base & Hb & Hs).
  apply (share_in_bases K u f0 si p base e Hc Hb Hs).
Qed.

(** *** [breakdown] of a signature *)

(** An item of the signature: a base and its power. *)
Definition item (e : string * Z) : string := (fst e ++ Py.str_of_int (snd e))%string.

Lemma add_power_fresh (c : string) (p : Z) (t : list (string * Z)) :
  ~ In c (map fst t) -> add_power c p t = t ++ [(c, p)].
Proof.
  induction t as [| [b q] t IH]; cbn [add_power map fst In app]; intros H.
  - reflexivity.
  - destruct (String.eqb_spec b c) as [-> | _]; [exfalso; apply H; left; reflexivity |].
    rewrite IH; [reflexivity |]. intros Hin. apply H. right. exact Hin.
Qed.

Lemma add_all_fresh (adds : list (string * Z)) :
  forall t, NoDup (map fst (t ++ adds)) -> add_all adds t = t ++ adds.
Proof.
  induction adds as [| [c p] adds IH]; intros t H.
  - now rewrite app_nil_r.
  - change (add_all ((c, p) :: adds) t) with (add_all adds (add_power c p t)).
    rewrite add_power_fresh.
    + rewrite IH; rewrite <- app_assoc; [reflexivity | exact H].
    + rewrite map_app in H. cbn [map fst] in H.
      apply NoDup_remove_2 in H. intros Hin. apply H.
      apply in_or_app. left. exact Hin.
Qed.

Lemma add_all_keys (adds : list (string * Z)) :
  forall t k, In k (map fst (add_all adds t)) ->
              In k (map fst t) \/ In k (map fst adds).
Proof.
  induction adds as [| [c p] adds IH]; intros t k H; [left; exact H |].
  change (add_all ((c, p) :: adds) t) with (add_all adds (add_power c p t)) in H.
  apply IH in H. cbn [map fst In]. destruct H as [H | H]; [| auto].
  apply add_power_keys in H. destruct H as [-> | H]; auto.
Qed.

Lemma nodup_keys_filter (g : string * Z -> bool) (l : list (string * Z)) :
  NoDup (map fst l) -> NoDup (map fst (filter g l)).
Proof.
  induction l as [| e l IH]; cbn [filter map]; intros H; [constructor |].
  inversion H as [| ? ? Hn Hd]; subst.
  destruct (g e); cbn [map]; [| apply IH; exact Hd].
  constructor; [| apply IH; exact Hd].
  intros Hin. apply Hn. apply in_map_iff in Hin.
  destruct Hin as (x & Hx & Hf). apply filter_In in Hf.
  apply in_map_iff. exists x. tauto.
Qed.

Lemma filter_all {A} (g : A -> bool) (l : list A) :
  Forall (fun x => g x = true) l -> filter g l = l.
Proof.
  induction 1 as [| x l Hx _ IH]; [reflexivity |].
  cbn [filter]. rewrite Hx, IH. reflexivity.
Qed.

Lemma product_ones (l : list fac) : Forall is_one l -> product l = 1.
Proof.
  induction 1 as [| f l [_ Hv] _ IH]; [reflexivity |].
  cbn [product fold_right]. fold (product l). rewrite Hv, IH. ring.
Qed.

Lemma items_split (P : list (string * Z)) :
  Forall (fun e => In (fst e) SI_bases) P ->
  List.concat (map Py.split (map item P)) = map item P.
Proof.
  induction 1 as [| e l He _ IH]; [reflexivity |].
  cbn [map List.concat]. rewrite IH.
  destruct (base_is_word (fst e) (snd e) He) as (Hsp & _ & Hne & _).
  unfold item at 1. rewrite word_split by assumption. reflexivity.
Qed.

Lemma items_token_units (P : list (string * Z)) :
  Forall (fun e => In (fst e) SI_bases) P ->
  mapM token_units (map item P) = Ok (map (fun t => [t]) (map item P)).
Proof.
  induction 1 as [| e l He _ IH]; [reflexivity |].
  cbn [map mapM]. rewrite IH. unfold item at 1.
  rewrite (token_units_of_base _ _ He). reflexivity.
Qed.

Lemma items_contribute (K : Constants) (maxint : Z) (P : list (string * Z)) :
  Forall (fun e => In (fst e) SI_bases) P ->
  exists cs,
    mapM (contribution K maxint) (map item P) = Ok cs /\
    Forall is_one (map fst cs) /\
    List.concat (map snd cs) = P.
Proof.
  induction 1 as [| e l He _ (cs & Hcs & Hone & Hadds)].
  - exists []. repeat split. constructor.
  - destruct (contribution_of_base K maxint (fst e) (snd e) He) as (f & Hf & Hf1).
    exists ((f, [e]) :: cs). cbn [map mapM]. unfold item at 1.
    rewrite <- surjective_pairing in Hf. rewrite Hf, Hcs. cbn [bind map fst snd List.concat].
    rewrite Hadds. repeat split. constructor; assumption.
Qed.

Lemma singletons {A} (l : list A) : List.concat (map (fun t => [t]) l) = l.
Proof. induction l as [| a l IH]; [reflexivity |]. cbn. now rewrite IH. Qed.

(** X20.  [breakdown] of a signature it returned gives that signature
    back, with the factor one (as a float or, when the signature holds
    [complex_coord], as a complex number). *)
Theorem breakdown_idempotent :
  forall (K : Constants) (maxint : Z) (u : string) (f : fac) (sig : string),
    breakdown K maxint u = Ok (f, sig) ->
    exists f', breakdown K maxint sig = Ok (f', sig) /\ is_one f'.
Proof.
  intros K maxint u f sig H.
  apply breakdown_ok in H. destruct H as (ls & cs & Hls & Hcs & Hm & ->).
  set (adds := List.concat (map snd cs)).
  set (totals := add_all adds []).
  assert (Hnd : NoDup (map fst totals)) by (apply add_all_nodup; constructor).
  assert (Hadds : Forall (fun e => In (fst e) SI_bases) adds).
  { apply Forall_forall. intros e He. unfold adds in He.
    apply in_concat in He. destruct He as (l & Hl & He).
    apply in_map_iff in Hl. destruct Hl as ([f0 l0] & <- & Hc).
    destruct (mapM_In _ _ _ _ Hcs Hc) as (t & _ & Ht).
    pose proof (contribution_bases K maxint t f0 l0 Ht) as Hb.
    rewrite Forall_forall in Hb. apply Hb. exact He. }
  assert (Hkeys : Forall (fun e => In (fst e) SI_bases) totals).
  { apply Forall_forall. intros e He. apply (in_map fst) in He.
    apply add_all_keys in He. destruct He as [[] | He].
    apply in_map_iff in He. destruct He as (x & <- & Hx).
    rewrite Forall_forall in Hadds. apply Hadds. exact Hx. }
  set (F := filter nonzero_power totals).
  assert (Hsig : signature totals = Py.join " " (Py.sorted (map item F))) by reflexivity.
  destruct (Permutation_map_inv item F (Permutation_sym (sorted_perm (map item F))))
    as (P & HP & Perm).
  assert (HPnd : NoDup (map fst P)).
  { apply (Permutation_NoDup (Permutation_map fst Perm)).
    apply nodup_keys_filter. exact Hnd. }
  assert (HPb : Forall (fun e => In (fst e) SI_bases) P).
  { apply (Permutation_Forall Perm). apply Forall_forall. intros e He.
    apply filter_In in He. rewrite Forall_forall in Hkeys. apply Hkeys. tauto. }
  assert (HPnz : Forall (fun e => nonzero_power e = true) P).
  { apply (Permutation_Forall Perm). apply Forall_forall. intros e He.
    apply filter_In in He. tauto. }
  destruct (items_contribute K maxint P HPb) as (cs' & Hcs' & Hone & Hadds').
  assert (Hnum : Forall (fun f0 => numeric f0 = true) (map fst cs')).
  { eapply Forall_impl; [| exact Hone]. intros a [Ha _]. exact Ha. }
  exists (number (is_complex (FNum 1) || existsb is_complex (map fst cs'))
            (value_of (FNum 1) * product (map fst cs'))).
  split.
  - apply breakdown_ok. exists (map (fun t => [t]) (map item P)), cs'.
    rewrite Hsig, HP, split_join, (items_split P HPb).
    split; [apply items_token_units; exact HPb |].
    rewrite singletons. split; [exact Hcs' |].
    split; [apply numbers_multiply; [reflexivity | exact Hnum] |].
    rewrite Hadds'. rewrite (add_all_fresh P []) by exact HPnd.
    change (signature ([] ++ P))
      with (Py.join " " (Py.sorted (map item (filter nonzero_power P)))).
    rewrite (filter_all _ _ HPnz).
    rewrite <- HP.
    rewrite (sorted_of_permutation _ _ (Permutation_sym (sorted_perm (map item F)))).
    reflexivity.
  - split.
    + destruct (is_complex (FNum 1) || existsb is_complex (map fst cs')); reflexivity.
    + rewrite (product_ones _ Hone).
      destruct (is_complex (FNum 1) || existsb is_complex (map fst cs')); cbn; ring.
Qed.

Lemma breakdown_idempotent_witness :
  exists sig f',
    breakdown si_constants maxint64 sig = Ok (f', sig) /\ is_one f'.
Proof.
  eexists.
  eapply (breakdown_idempotent si_constants maxint64 "erg s-1").
  pyrun. reflexivity.
Defined.

(** ** Nonlinear units in [breakdown] *)

Lemma fac_mul_resets_power (l : list fac) :
  forall (a : fac) (c : converter) (p q : R),
    l <> [] -> foldM fac_mul a l = Ok (FConv c p q) -> q = 1.
Proof.
  induction l as [| b l IH]; intros a c p q Hl H; [congruence |].
  cbn [foldM] in H.
  destruct (fac_mul a b) as [ab | e |] eqn:E; cbn [bind] in H; try discriminate.
  destruct l as [| b' l].
  - cbn [foldM] in H. injection H as ->.
    destruct a, b; cbn in E; try discriminate; injection E as _ _ <-; reflexivity.
  - apply (IH ab c p q); [discriminate | exact H].
Qed.

(** X21.  When [breakdown] returns a nonlinear converter as factor, the
    power of that converter is 1, whatever exponent the unit string puts
    on the nonlinear unit: [__rmul__] builds the instance it returns with
    the default power. *)
Theorem breakdown_converter_power :
  forall (K : Constants) (maxint : Z) (u : string) (c : converter) (p q : R)
         (sig : string),
    breakdown K maxint u = Ok (FConv c p q, sig) -> q = 1.
Proof.
  intros K maxint u c p q sig H.
  apply breakdown_ok in H. destruct H as (ls & cs & _ & _ & Hm & _).
  apply (fac_mul_resets_power (map fst cs) (FNum 1) c p q); [| exact Hm].
  intros E. rewrite E in Hm. discriminate Hm.
Qed.

Lemma breakdown_converter_power_witness :
  exists (p q : R) (sig : string),
    breakdown si_constants maxint64 "F2" = Ok (FConv Fahrenheit p q, sig) /\ q = 1.
Proof.
  eexists. eexists. eexists. split.
  - pyrun. reflexivity.
  - eapply (breakdown_converter_power si_constants maxint64 "F2" Fahrenheit).
    pyrun. reflexivity.
Defined.

(** ** The shape of what [nconvert] returns *)

Lemma nconvert_loop_shape (K : Constants) (maxint : Z) (zp : list zp_row)
    (eff_wave : string -> pyfloat) (depth : nat) (arg : list pyfloat)
    (kwargs : list (string * nkwval)) (todo : list (string * string)) :
  forall (i : nat) (ret0 ret : list pyfloat),
    nconvert_loop K maxint zp eff_wave depth i todo arg kwargs ret0 = Ok ret ->
    List.length ret = List.length ret0 /\
    (todo <> [] -> (i + List.length todo <= List.length arg)%nat) /\
    (forall k, (i + List.length todo <= k)%nat ->
               nth_error ret k = nth_error ret0 k).
Proof.
  induction todo as [| [_from _to] todo IH]; intros i ret0 ret H.
  - injection H as <-. repeat split; auto. congruence.
  - cbn [nconvert_loop] in H.
    destruct (nth_error arg i) as [x |] eqn:Ex; [| discriminate].
    assert (Hi : (i < List.length arg)%nat) by (apply nth_error_Some; congruence).
    destruct (mapM (element i) kwargs) as [kw | e |]; cbn [bind] in H;
      try discriminate.
    assert (Hstep : exists v,
              nconvert_loop K maxint zp eff_wave depth (S i) todo arg kwargs
                (assign i v ret0) = Ok ret).
    { destruct (convert K maxint zp eff_wave depth _from _to x kw) as [v | e |];
        [eauto | | discriminate].
      destruct e; try discriminate. eauto. }
    destruct Hstep as (v & Hv). apply IH in Hv.
    destruct Hv as (Hlen & Hin & Hkeep). rewrite assign_length in Hlen.
    cbn [List.length]. repeat split.
    + exact Hlen.
    + intros _. destruct todo as [| t todo]; [cbn [List.length]; lia |].
      assert (Hne : t :: todo <> []) by discriminate.
      specialize (Hin Hne). lia.
    + intros k Hk. rewrite Hkeep by lia. apply assign_other. lia.
Qed.

(** X22.  When [nconvert] returns, it returns as many results as values
    were given, there were not more pairs of units than values, and the
    results past the last pair of units are the zeros the result array was
    created with. *)
Theorem nconvert_shape :
  forall (K : Constants) (maxint : Z) (zp : list zp_row)
         (eff_wave : string -> pyfloat) (depth : nat)
         (_froms _tos : units) (arg : list pyfloat)
         (kwargs : list (string * nkwval)) (ret : list pyfloat),
    nconvert K maxint zp eff_wave depth _froms _tos arg kwargs = Ok ret ->
    List.length ret = List.length arg /\
    (List.length (pairs _froms _tos) <= List.length arg)%nat /\
    (forall k, (List.length (pairs _froms _tos) <= k < List.length arg)%nat ->
               nth_error ret k = Some (F 0)).
Proof.
  intros K maxint zp eff_wave depth _froms _tos arg kwargs ret H.
  unfold nconvert in H. apply nconvert_loop_shape in H.
  destruct H as (Hlen & Hin & Hkeep). rewrite repeat_length in Hlen.
  repeat split.
  - exact Hlen.
  - destruct (pairs _froms _tos) as [| t todo]; [cbn; lia |].
    apply Hin. discriminate.
  - intros k [Hk1 Hk2]. rewrite Hkeep by (cbn [Nat.add]; exact Hk1).
    apply nth_error_repeat. exact Hk2.
Qed.

Lemma nconvert_shape_witness :
  exists ret : list pyfloat,
    nconvert si_constants maxint64 sample_zp no_curve 1
      (UList ["km"]) (UStr "cm") [F 1; F 2] [] = Ok ret /\
    List.length ret = 2%nat /\ nth_error ret 1 = Some (F 0).
Proof.
  assert (E : exists ret,
            nconvert si_constants maxint64 sample_zp no_curve 1
              (UList ["km"]) (UStr "cm") [F 1; F 2] [] = Ok ret).
  { eexists. pyrun. reflexivity. }
  destruct E as (ret & E). exists ret.
  destruct (nconvert_shape si_constants maxint64 sample_zp no_curve 1
              (UList ["km"]) (UStr "cm") [F 1; F 2] [] ret E) as (H1 & _ & H3).
  repeat split; [exact E | exact H1 |].
  apply H3. cbn. lia.
Defined.

(** ** The calendar converter *)

Local Open Scope Z_scope.

(** The day number of a date of the Gregorian calendar, as
    [JulianDay.__call__] computes it. *)
Definition day_number (y m d : Z) : Z :=
  let a := (14 - m) / 12 in
  let y' := y + 4800 - a in
  let m' := m + 12 * a - 3 in
  d + (153 * m' + 2) / 5 + 365 * y' + y' / 4 - y' / 100 + y' / 400 - 32045.

(** The steps of the inverse on a whole number [L]. *)
Definition date_of (L : Z) : Z * Z * Z :=
  let N := (4 * L) / 146097 in
  let L2 := L - (146097 * N + 3) / 4 in
  let I := (4000 * (L2 + 1)) / 1461001 in
  let L3 := L2 - (1461 * I) / 4 + 31 in
  let J := (80 * L3) / 2447 in
  let day := L3 - (2447 * J) / 80 in
  let L4 := J / 11 in
  (100 * (N - 49) + I + L4, J + 2 - 12 * L4, day).

Definition leap (y : Z) : bool :=
  ((y mod 4 =? 0) && negb (y mod 100 =? 0)) || (y mod 400 =? 0).

(** The days in a month. *)
Definition dim (y m : Z) : Z :=
  if m =? 2 then (if leap y then 29 else 28)
  else if (m =? 4) || (m =? 6) || (m =? 9) || (m =? 11) then 30 else 31.

Definition valid_date (y m d : Z) : Prop := 1 <= m <= 12 /\ 1 <= d <= dim y m.

Ltac euclid := Z.to_euclidean_division_equations; lia.

(** One century [c], year [r] of the century and day [t] of the year that
    begins in March. *)
Lemma date_of_century (c r t : Z) :
  0 <= r < 100 -> 0 <= t <= 365 ->
  (t = 365 -> r mod 4 = 3 /\ (r < 99 \/ c mod 4 = 3)) ->
  date_of (36524 * (c + 1) + c / 4 + 365 * r + r / 4 + t + 1)
  = (let J := (80 * (t + 31)) / 2447 in
     (100 * (c - 48) + r + J / 11, J + 2 - 12 * (J / 11), t + 31 - (2447 * J) / 80)).
Proof.
  intros Hr Ht Hleap. unfold date_of.
  set (L := 36524 * (c + 1) + c / 4 + 365 * r + r / 4 + t + 1).
  assert (HN : (4 * L) / 146097 = c + 1) by (subst L; euclid).
  cbv zeta. rewrite HN.
  assert (HL2 : L - (146097 * (c + 1) + 3) / 4 = 365 * r + r / 4 + t)
    by (subst L; euclid).
  rewrite HL2.
  assert (HI : (4000 * (365 * r + r / 4 + t + 1)) / 1461001 = r) by euclid.
  rewrite HI.
  assert (HL3 : 365 * r + r / 4 + t - (1461 * r) / 4 + 31 = t + 31) by euclid.
  rewrite HL3.
  f_equal. f_equal. lia.
Qed.

Lemma leap_spec (y : Z) :
  leap y = true <-> (y mod 4 = 0 /\ (y mod 100 <> 0 \/ y mod 400 = 0)).
Proof.
  unfold leap.
  destruct (Z.eqb_spec (y mod 4) 0), (Z.eqb_spec (y mod 100) 0),
    (Z.eqb_spec (y mod 400) 0); cbn; split; intros; try discriminate; try tauto;
    try (exfalso; euclid).
Qed.

Ltac booleans :=
  repeat match goal with
         | H : context [(?x =? ?y)] |- _ =>
             let b := eval vm_compute in (x =? y) in change (x =? y) with b in H
         | H : context [(?x <=? ?y)] |- _ =>
             let b := eval vm_compute in (x <=? y) in change (x <=? y) with b in H
         end.

Ltac months m :=
  let H := fresh in
  assert (H : m = 1 \/ m = 2 \/ m = 3 \/ m = 4 \/ m = 5 \/ m = 6 \/ m = 7 \/
              m = 8 \/ m = 9 \/ m = 10 \/ m = 11 \/ m = 12) by lia;
  destruct H as [-> | [-> | [-> | [-> | [-> | [-> | [-> | [-> | [-> | [-> | [-> | ->]]]]]]]]]]].

(** The steps of the inverse find the date of a day number. *)
Lemma date_of_day_number (y m d : Z) :
  valid_date y m d -> date_of (day_number y m d + 68569) = (y, m, d).
Proof.
  intros [Hm Hd].
  set (a := (14 - m) / 12).
  set (y' := y + 4800 - a).
  set (m' := m + 12 * a - 3).
  set (c := y' / 100). set (r := y' mod 100).
  set (t := (153 * m' + 2) / 5 + d - 1).
  assert (Ha : a = if m <=? 2 then 1 else 0).
  { subst a. destruct (Z.leb_spec m 2); euclid. }
  assert (Hfeb : d = 29 -> m = 2 -> leap y = true).
  { intros -> ->. unfold dim in Hd. cbn in Hd. destruct (leap y); [reflexivity | lia]. }
  assert (Hdim : d <= if m =? 2 then 29
                      else if (m =? 4) || (m =? 6) || (m =? 9) || (m =? 11) then 30 else 31).
  { unfold dim in Hd. destruct (m =? 2); [destruct (leap y); lia | lia]. }
  assert (HL : day_number y m d + 68569
               = 36524 * (c + 1) + c / 4 + 365 * r + r / 4 + t + 1).
  { unfold day_number. fold a. fold y'. fold m'. subst c r t. euclid. }
  assert (Ht : 0 <= t <= 365 /\ (t = 365 -> m = 2 /\ d = 29) /\
               (80 * (t + 31)) / 2447 = m' + 1 /\
               t + 31 - (2447 * (m' + 1)) / 80 = d).
  { subst t m'.
    assert (Hd1 : 1 <= d) by lia.
    clearbody a. clear HL Hfeb Hd y' c r.
    months m; booleans; cbn [orb] in Hdim; cbv iota in Ha, Hdim; subst a;
      repeat split; try (intros; euclid). }
  destruct Ht as (Ht1 & Ht2 & HJ & Hday).
  rewrite HL, date_of_century.
  - cbv zeta. rewrite HJ, Hday.
    assert (HL4 : (m' + 1) / 11 = a).
    { subst m'. rewrite Ha. destruct (Z.leb_spec m 2); euclid. }
    rewrite HL4.
    assert (Hy : 100 * (c - 48) + r + a = y) by (subst c r y'; euclid).
    assert (Hmo : m' + 1 + 2 - 12 * a = m) by (subst m'; lia).
    rewrite Hy, Hmo. reflexivity.
  - subst r. euclid.
  - exact Ht1.
  - intros E. destruct (Ht2 E) as [-> ->].
    specialize (Hfeb eq_refl eq_refl). apply leap_spec in Hfeb.
    subst r c y'. rewrite Ha. cbn. euclid.
Qed.

Local Close Scope Z_scope.

(** The floor of a quotient of whole numbers is their quotient. *)
Lemma floor_div_IZR (a b : Z) :
  (0 < b)%Z -> floor_div (IZR a) (IZR b) = IZR (a / b).
Proof.
  intros Hb. unfold floor_div. f_equal. symmetry. apply Int_part_spec.
  assert (Hb' : 0 < IZR b) by (apply IZR_lt; exact Hb).
  pose proof (Z.div_mod a b) as E.
  pose proof (Z.mod_pos_bound a b Hb) as [H0 H1].
  assert (Ea : IZR a = IZR b * IZR (a / b) + IZR (a mod b)).
  { rewrite <- mult_IZR, <- plus_IZR. f_equal. apply E. lia. }
  apply IZR_le in H0. apply IZR_lt in H1.
  assert (Eq : IZR a / IZR b = IZR (a / b) + IZR (a mod b) / IZR b).
  { rewrite Ea. field. lra. }
  rewrite Eq.
  assert (Hf : 0 <= IZR (a mod b) / IZR b < 1).
  { split.
    - apply Rmult_le_pos; [exact H0 | left; apply Rinv_0_lt_compat; exact Hb'].
    - apply (Rmult_lt_reg_r (IZR b)); [exact Hb' |].
      unfold Rdiv. rewrite Rmult_assoc, Rinv_l by lra. lra. }
  lra.
Qed.

(** The inverse on a Julian date that is a whole number (noon). *)
Lemma JulianDay_inverse_noon (j : Z) :
  JulianDay_inverse (IZR j) =
  let '(y, m, d) := date_of (j + 68569) in (IZR y, IZR m, IZR d + 0.5).
Proof.
  unfold JulianDay_inverse, date_of. cbv zeta.
  set (L := (j + 68569)%Z).
  replace (IZR j + 68569) with (IZR L) by (subst L; rewrite plus_IZR; lra).
  replace (4 * IZR L) with (IZR (4 * L)) by (rewrite mult_IZR; lra).
  rewrite (floor_div_IZR (4 * L) 146097) by lia.
  set (N := (4 * L / 146097)%Z).
  replace (146097 * IZR N + 3) with (IZR (146097 * N + 3))
    by (rewrite plus_IZR, mult_IZR; lra).
  rewrite (floor_div_IZR (146097 * N + 3) 4) by lia.
  set (L2 := (L - (146097 * N + 3) / 4)%Z).
  replace (IZR L - IZR ((146097 * N + 3) / 4)) with (IZR L2)
    by (subst L2; rewrite minus_IZR; reflexivity).
  replace (4000 * (IZR L2 + 1)) with (IZR (4000 * (L2 + 1)))
    by (rewrite mult_IZR, plus_IZR; lra).
  rewrite (floor_div_IZR (4000 * (L2 + 1)) 1461001) by lia.
  set (I := (4000 * (L2 + 1) / 1461001)%Z).
  replace (1461 * IZR I) with (IZR (1461 * I)) by (rewrite mult_IZR; lra).
  rewrite (floor_div_IZR (1461 * I) 4) by lia.
  set (L3 := (L2 - 1461 * I / 4 + 31)%Z).
  replace (IZR L2 - IZR (1461 * I / 4) + 31) with (IZR L3)
    by (subst L3; rewrite plus_IZR, minus_IZR; lra).
  replace (80 * IZR L3) with (IZR (80 * L3)) by (rewrite mult_IZR; lra).
  rewrite (floor_div_IZR (80 * L3) 2447) by lia.
  set (J := (80 * L3 / 2447)%Z).
  replace (2447 * IZR J) with (IZR (2447 * J)) by (rewrite mult_IZR; lra).
  rewrite (floor_div_IZR (2447 * J) 80) by lia.
  rewrite (floor_div_IZR J 11) by lia.
  repeat f_equal;
    repeat (rewrite plus_IZR || rewrite minus_IZR || rewrite mult_IZR); lra.
Qed.

Lemma JulianDay_forward_noon (y m d : Z) :
  JulianDay_forward y m (IZR d) 12 0 0 = IZR (day_number y m d).
Proof.
  unfold JulianDay_forward, day_number. cbv zeta.
  repeat (rewrite plus_IZR || rewrite minus_IZR || rewrite mult_IZR). lra.
Qed.

(** X23.  For every date of the Gregorian calendar (any year, a month from
    1 to 12, a day of that month), the inverse call of [JulianDay] on the
    Julian date the forward call returns for noon of that date gives the
    year, the month and the day plus one half. *)
Theorem JulianDay_round_trip_noon :
  forall y m d : Z,
    valid_date y m d ->
    JulianDay_inverse (JulianDay_forward y m (IZR d) 12 0 0)
    = (IZR y, IZR m, IZR d + 0.5).
Proof.
  intros y m d H.
  rewrite JulianDay_forward_noon, JulianDay_inverse_noon.
  rewrite (date_of_day_number y m d H). reflexivity.
Qed.

Lemma JulianDay_round_trip_noon_witness :
  JulianDay_inverse (JulianDay_forward 2000 2 (IZR 29) 12 0 0)
  = (IZR 2000, IZR 2, IZR 29 + 0.5).
Proof.
  apply (JulianDay_round_trip_noon 2000 2 29).
  split; [lia | vm_compute; split; discriminate].
Defined.

Local Open Scope Z_scope.

(** The steps of the inverse on a whole number and a half, [k + 1/2]. *)
Definition date_of_half (k : Z) : Z * Z * Z :=
  let N := (4 * k + 2) / 146097 in
  let k2 := k - (146097 * N + 3) / 4 in
  let I := (4000 * k2 + 6000) / 1461001 in
  let k3 := k2 - (1461 * I) / 4 + 31 in
  let J := (80 * k3 + 40) / 2447 in
  let day := k3 - (2447 * J) / 80 + 1 in
  let L4 := J / 11 in
  (100 * (N - 49) + I + L4, J + 2 - 12 * L4, day).

(** The first days the inverse misses at 0h. *)
Definition missed (m d : Z) : bool :=
  (d =? 1) && ((m =? 3) || (m =? 5) || (m =? 7) || (m =? 8) || (m =? 10) || (m =? 12)).

Lemma date_of_half_century (c r t : Z) :
  0 <= r < 100 -> 1 <= t <= 365 ->
  (t = 365 -> r mod 4 = 3 /\ (r < 99 \/ c mod 4 = 3)) ->
  date_of_half (36524 * (c + 1) + c / 4 + 365 * r + r / 4 + t)
  = (let J := (80 * (t + 30) + 40) / 2447 in
     (100 * (c - 48) + r + J / 11, J + 2 - 12 * (J / 11), t + 31 - (2447 * J) / 80)).
Proof.
  intros Hr Ht Hleap. unfold date_of_half.
  set (k := 36524 * (c + 1) + c / 4 + 365 * r + r / 4 + t).
  assert (HN : (4 * k + 2) / 146097 = c + 1) by (subst k; euclid).
  cbv zeta. rewrite HN.
  assert (Hk2 : k - (146097 * (c + 1) + 3) / 4 = 365 * r + r / 4 + t - 1)
    by (subst k; euclid).
  rewrite Hk2.
  assert (HI : (4000 * (365 * r + r / 4 + t - 1) + 6000) / 1461001 = r) by euclid.
  rewrite HI.
  assert (Hk3 : 365 * r + r / 4 + t - 1 - (1461 * r) / 4 + 31 = t + 30) by euclid.
  rewrite Hk3.
  f_equal; [f_equal; lia | lia].
Qed.

Lemma missed_spec (m d : Z) :
  if missed m d
  then d = 1 /\ (m = 3 \/ m = 5 \/ m = 7 \/ m = 8 \/ m = 10 \/ m = 12)
  else d <> 1 \/ (m <> 3 /\ m <> 5 /\ m <> 7 /\ m <> 8 /\ m <> 10 /\ m <> 12).
Proof.
  unfold missed.
  destruct (Z.eqb_spec d 1), (Z.eqb_spec m 3), (Z.eqb_spec m 5), (Z.eqb_spec m 7),
    (Z.eqb_spec m 8), (Z.eqb_spec m 10), (Z.eqb_spec m 12); cbn; lia.
Qed.

(** At 0h the steps of the inverse find the date, unless it is one of the
    first days they miss; for those (1 March aside) they give a day past
    the end of the month before. *)
Lemma date_of_half_day_number (y m d : Z) :
  valid_date y m d -> (m = 3 -> d <> 1) ->
  date_of_half (day_number y m d + 68568)
  = if missed m d then (y, m - 1, if m =? 8 then 32 else 31) else (y, m, d).
Proof.
  intros [Hm Hd] Hnot.
  set (a := (14 - m) / 12).
  set (y' := y + 4800 - a).
  set (m' := m + 12 * a - 3).
  set (c := y' / 100). set (r := y' mod 100).
  set (t := (153 * m' + 2) / 5 + d - 1).
  assert (Ha : a = if m <=? 2 then 1 else 0).
  { subst a. destruct (Z.leb_spec m 2); euclid. }
  assert (Hfeb : d = 29 -> m = 2 -> leap y = true).
  { intros -> ->. unfold dim in Hd. cbn in Hd. destruct (leap y); [reflexivity | lia]. }
  assert (Hdim : d <= if m =? 2 then 29
                      else if (m =? 4) || (m =? 6) || (m =? 9) || (m =? 11) then 30 else 31).
  { unfold dim in Hd. destruct (m =? 2); [destruct (leap y); lia | lia]. }
  assert (HL : day_number y m d + 68568
               = 36524 * (c + 1) + c / 4 + 365 * r + r / 4 + t).
  { unfold day_number. fold a. fold y'. fold m'. subst c r t. euclid. }
  assert (Hy : 100 * (c - 48) + r + a = y) by (subst c r y'; euclid).
  pose proof (missed_spec m d) as Hmiss.
  set (miss := if missed m d then 1 else 0).
  set (day := if missed m d then (if m =? 8 then 32 else 31) else d).
  assert (Ht : 1 <= t <= 365 /\ (t = 365 -> m = 2 /\ d = 29) /\
               (80 * (t + 30) + 40) / 2447 = m' + 1 - miss /\
               (m' + 1 - miss) / 11 = a /\
               t + 31 - (2447 * (m' + 1 - miss)) / 80 = day).
  { subst t m' miss day.
    assert (Hd1 : 1 <= d) by lia.
    clearbody a. clear HL Hfeb Hd Hy y' c r.
    destruct (missed m d).
    - destruct Hmiss as [-> Hmiss].
      assert (Hc : m = 5 \/ m = 7 \/ m = 8 \/ m = 10 \/ m = 12) by lia.
      clear Hmiss Hnot Hm.
      destruct Hc as [-> | [-> | [-> | [-> | ->]]]]; booleans; cbv iota in Ha;
        subst a;
        repeat match goal with
               | |- context [(?u =? ?v)] =>
                   let b := eval vm_compute in (u =? v) in change (u =? v) with b
               end; cbv iota;
        repeat split; try (intros; euclid).
    - months m; booleans; cbn [orb] in Hdim; cbv iota in Ha, Hdim; subst a;
        repeat split; try (intros; euclid). }
  destruct Ht as (Ht1 & Ht2 & HJ & HL4 & Hday).
  rewrite HL, date_of_half_century.
  - cbv zeta. rewrite HJ, HL4, Hday, Hy.
    subst miss day m'. destruct (missed m d); f_equal; f_equal; lia.
  - subst r. euclid.
  - exact Ht1.
  - intros E. destruct (Ht2 E) as [-> ->].
    specialize (Hfeb eq_refl eq_refl). apply leap_spec in Hfeb.
    subst r c y'. rewrite Ha. cbn. euclid.
Qed.

(** On 1 March the steps of the inverse, at 0h, end in February. *)
Lemma date_of_half_march (y : Z) :
  exists d' : Z,
    date_of_half (day_number y 3 1 + 68568) = (y, 2, d') /\ (d' = 29 \/ d' = 31).
Proof.
  set (c := (y + 4800) / 100). set (r := (y + 4800) mod 100).
  assert (HL : day_number y 3 1 + 68568
               = 36524 * (c + 1) + c / 4 + 365 * r + r / 4).
  { unfold day_number. subst c r. euclid. }
  assert (Hy : 100 * (c - 48) + r = y) by (subst c r; euclid).
  assert (Hr : 0 <= r < 100) by (subst r; euclid).
  rewrite HL. clearbody c r. clear HL.
  set (k := 36524 * (c + 1) + c / 4 + 365 * r + r / 4).
  unfold date_of_half. cbv zeta.
  assert (Hcase : (r = 0 /\ 2 <= c mod 4) \/
                  (~ (r = 0 /\ 2 <= c mod 4) /\ r mod 4 <= 1) \/
                  (2 <= r mod 4)) by euclid.
  destruct Hcase as [[Hr0 Hc] | [[Hn Hr4] | Hr4]].
  - assert (HN : (4 * k + 2) / 146097 = c) by (subst k; euclid).
    rewrite HN.
    assert (Hk2 : k - (146097 * c + 3) / 4 = 36523) by (subst k; euclid).
    rewrite Hk2.
    exists 29. split; [| left; reflexivity].
    repeat f_equal; euclid.
  - assert (HN : (4 * k + 2) / 146097 = c + 1) by (subst k; euclid).
    rewrite HN.
    assert (Hk2 : k - (146097 * (c + 1) + 3) / 4 = 365 * r + r / 4 - 1)
      by (subst k; euclid).
    rewrite Hk2.
    assert (HI : (4000 * (365 * r + r / 4 - 1) + 6000) / 1461001 = r) by euclid.
    rewrite HI.
    assert (Hk3 : 365 * r + r / 4 - 1 - (1461 * r) / 4 + 31 = 30) by euclid.
    rewrite Hk3.
    exists 31. split; [| right; reflexivity].
    repeat f_equal; euclid.
  - assert (HN : (4 * k + 2) / 146097 = c + 1) by (subst k; euclid).
    rewrite HN.
    assert (Hk2 : k - (146097 * (c + 1) + 3) / 4 = 365 * r + r / 4 - 1)
      by (subst k; euclid).
    rewrite Hk2.
    assert (HI : (4000 * (365 * r + r / 4 - 1) + 6000) / 1461001 = r - 1) by euclid.
    rewrite HI.
    assert (Hk3 : 365 * r + r / 4 - 1 - (1461 * (r - 1)) / 4 + 31 = 395) by euclid.
    rewrite Hk3.
    exists 29. split; [| left; reflexivity].
    repeat f_equal; euclid.
Qed.

Local Close Scope Z_scope.

(** The inverse on a Julian date that is a whole number less one half
    (0h). *)
Lemma JulianDay_inverse_midnight (j : Z) :
  JulianDay_inverse (IZR j - 0.5) =
  let '(y, m, d) := date_of_half (j + 68568) in (IZR y, IZR m, IZR d).
Proof.
  unfold JulianDay_inverse, date_of_half. cbv zeta.
  set (k := (j + 68568)%Z).
  replace (IZR j - 0.5 + 68569) with (IZR k + 0.5)
    by (subst k; rewrite plus_IZR; lra).
  replace (4 * (IZR k + 0.5)) with (IZR (4 * k + 2))
    by (rewrite plus_IZR, mult_IZR; lra).
  rewrite (floor_div_IZR (4 * k + 2) 146097) by lia.
  set (N := ((4 * k + 2) / 146097)%Z).
  replace (146097 * IZR N + 3) with (IZR (146097 * N + 3))
    by (rewrite plus_IZR, mult_IZR; lra).
  rewrite (floor_div_IZR (146097 * N + 3) 4) by lia.
  set (k2 := (k - (146097 * N + 3) / 4)%Z).
  replace (IZR k + 0.5 - IZR ((146097 * N + 3) / 4)) with (IZR k2 + 0.5)
    by (subst k2; rewrite minus_IZR; lra).
  replace (4000 * (IZR k2 + 0.5 + 1)) with (IZR (4000 * k2 + 6000))
    by (rewrite plus_IZR, mult_IZR; lra).
  rewrite (floor_div_IZR (4000 * k2 + 6000) 1461001) by lia.
  set (I := ((4000 * k2 + 6000) / 1461001)%Z).
  replace (1461 * IZR I) with (IZR (1461 * I)) by (rewrite mult_IZR; lra).
  rewrite (floor_div_IZR (1461 * I) 4) by lia.
  set (k3 := (k2 - 1461 * I / 4 + 31)%Z).
  replace (IZR k2 + 0.5 - IZR (1461 * I / 4) + 31) with (IZR k3 + 0.5)
    by (subst k3; rewrite plus_IZR, minus_IZR; lra).
  replace (80 * (IZR k3 + 0.5)) with (IZR (80 * k3 + 40))
    by (rewrite plus_IZR, mult_IZR; lra).
  rewrite (floor_div_IZR (80 * k3 + 40) 2447) by lia.
  set (J := ((80 * k3 + 40) / 2447)%Z).
  replace (2447 * IZR J) with (IZR (2447 * J)) by (rewrite mult_IZR; lra).
  rewrite (floor_div_IZR (2447 * J) 80) by lia.
  rewrite (floor_div_IZR J 11) by lia.
  repeat f_equal;
    repeat (rewrite plus_IZR || rewrite minus_IZR || rewrite mult_IZR); lra.
Qed.

Lemma JulianDay_forward_midnight (y m d : Z) :
  JulianDay_forward y m (IZR d) 0 0 0 = IZR (day_number y m d) - 0.5.
Proof.
  unfold JulianDay_forward, day_number. cbv zeta.
  repeat (rewrite plus_IZR || rewrite minus_IZR || rewrite mult_IZR). lra.
Qed.

(** X24.  For every date of the Gregorian calendar other than the first
    day of March, May, July, August, October and December, the inverse
    call of [JulianDay] on the Julian date the forward call returns for
    that date (at 0h, no time of day given) gives the date back. *)
Theorem JulianDay_round_trip_midnight :
  forall y m d : Z,
    valid_date y m d -> missed m d = false ->
    JulianDay_inverse (JulianDay_forward y m (IZR d) 0 0 0)
    = (IZR y, IZR m, IZR d).
Proof.
  intros y m d H Hmiss.
  rewrite JulianDay_forward_midnight.
  rewrite JulianDay_inverse_midnight.
  rewrite (date_of_half_day_number y m d H), Hmiss; [reflexivity |].
  intros -> ->. discriminate Hmiss.
Qed.

Lemma JulianDay_round_trip_midnight_witness :
  JulianDay_inverse (JulianDay_forward 1985 7 (IZR 11) 0 0 0)
  = (IZR 1985, IZR 7, IZR 11).
Proof.
  apply (JulianDay_round_trip_midnight 1985 7 11).
  - split; [lia | vm_compute; split; discriminate].
  - reflexivity.
Defined.

(** X25.  For the first day of March, May, July, August, October and
    December of any year, the inverse call of [JulianDay] on the Julian
    date of that day at 0h does not give the date back: it gives the month
    before, with a day number from 29 to 32. *)
Theorem JulianDay_misses_first_days :
  forall y m : Z,
    In m [3; 5; 7; 8; 10; 12]%Z ->
    exists d' : Z,
      JulianDay_inverse (JulianDay_forward y m (IZR 1) 0 0 0)
      = (IZR y, IZR (m - 1), IZR d') /\ (29 <= d' <= 32)%Z.
Proof.
  intros y m Hm.
  rewrite JulianDay_forward_midnight, JulianDay_inverse_midnight.
  cbn [In] in Hm. destruct Hm as [<- | Hm].
  - destruct (date_of_half_march y) as (d' & -> & Hd').
    exists d'. split; [reflexivity | lia].
  - assert (Hv : valid_date y m 1).
    { unfold valid_date, dim.
      destruct Hm as [<- | [<- | [<- | [<- | [<- | []]]]]]; cbn; lia. }
    rewrite (date_of_half_day_number y m 1 Hv) by lia.
    destruct Hm as [<- | [<- | [<- | [<- | [<- | []]]]]]; cbn;
      eexists; (split; [reflexivity | lia]).
Qed.

Lemma JulianDay_misses_first_days_witness :
  exists d' : Z,
    JulianDay_inverse (JulianDay_forward 2000 3 (IZR 1) 0 0 0)
    = (IZR 2000, IZR (3 - 1), IZR d') /\ (29 <= d' <= 32)%Z.
Proof.
  apply (JulianDay_misses_first_days 2000 3). left. reflexivity.
Defined.

(** ** Logarithmic units in [convert] *)

(** A greedy run that may take the whole string gives back one character
    when what follows needs one. *)
Lemma greedy_gives_back {A} (p : ascii -> bool) (k : string -> string -> option A)
    (u : string) (c : ascii) :
  all p u = true -> p c = true ->
  (forall x, k x EmptyString = None) ->
  forall (acc : string) (r : A),
    k (acc ++ u)%string (String c "") = Some r ->
    Re.quant p true 0 None k acc (u ++ String c "")%string = Some r.
Proof.
  intros Hu Hc Hk. induction u as [| a u IH]; intros acc r Hr.
  - cbn [append]. rewrite quant_greedy_hit by (exact Hc || reflexivity).
    cbn [pred Re.decr option_map Re.quant Re.stop]. rewrite Hk.
    rewrite append_empty_r in Hr. exact Hr.
  - cbn [all] in Hu. apply andb_prop in Hu. destruct Hu as [Ha Hu].
    cbn [append]. rewrite quant_greedy_hit by (exact Ha || reflexivity).
    cbn [pred Re.decr option_map].
    rewrite (IH Hu (acc ++ String a "")%string r); [reflexivity |].
    rewrite append_assoc. exact Hr.
Qed.

(** The pattern of [convert] on a unit between brackets. *)
Lemma log_pattern_brackets (u : string) :
  all Re.dot u = true ->
  Re.search Re.log_pattern ("[" ++ u ++ "]")%string = Some ["["%string; u; "]"%string].
Proof.
  intros Hu. rewrite search_unfold.
  assert (E : Re.match_here Re.log_pattern ("[" ++ u ++ "]")%string
              = Some ["["%string; u; "]"%string]); [| now rewrite E].
  unfold Re.log_pattern. cbn [append].
  rewrite match_one by reflexivity.
  rewrite match_here_cons. cbn [Re.cls Re.greedy Re.lo Re.hi].
  rewrite (greedy_gives_back Re.dot _ u "]" Hu eq_refl) with (r := [u; "]"%string]).
  - reflexivity.
  - intros x. reflexivity.
  - cbn [append]. rewrite match_one by reflexivity. reflexivity.
Qed.

(** X26.  A unit written between brackets is a logarithm.  From ['[u]']
    to a unit of the same signature (plain non-zero numbers as factors),
    [convert] raises ten to the value and converts that; to ['[u]'], it
    converts and takes the logarithm of a positive result. *)
Theorem convert_logarithmic :
  forall (K : Constants) (maxint : Z) (zp : list zp_row)
         (eff_wave : string -> pyfloat) (depth : nat)
         (u v : string) (x fU fV : R) (uni : string),
    all Re.dot u = true ->
    Re.search Re.log_pattern v = None ->
    breakdown K maxint u = Ok (FNum fU, uni) ->
    breakdown K maxint v = Ok (FNum fV, uni) ->
    fU <> 0 -> fV <> 0 ->
    convert K maxint zp eff_wave (S depth) ("[" ++ u ++ "]")%string v (F x) []
    = Ok (F (fU / fV * Rpower 10 x)) /\
    (0 < fV / fU * x ->
     convert K maxint zp eff_wave (S depth) v ("[" ++ u ++ "]")%string (F x) []
     = Ok (F (ln (fV / fU * x) / ln 10))).
Proof.
  intros K maxint zp eff_wave depth u v x fU fV uni Hu Hv HbU HbV HU HV.
  assert (HSI : forall w f s, breakdown K maxint w = Ok (f, s) ->
                              String.eqb w "SI" = false).
  { intros w f s Hw. destruct (String.eqb_spec w "SI") as [-> | _]; [| reflexivity].
    rewrite breakdown_SI in Hw. discriminate. }
  pose proof (log_pattern_brackets u Hu) as Hlog. cbn [append] in Hlog.
  split.
  - simpl convert. unfold convert_body. simpl remove. cbn [append].
    rewrite Hlog, Hv. cbv iota.
    rewrite HbU. simpl bind. rewrite (HSI v _ _ HbV). simpl negb. cbv iota.
    rewrite HbV. simpl bind.
    unfold defaults. rewrite String.eqb_refl. simpl.
    destruct (Req_dec_T fV 0) as [E | _]; [contradiction |].
    unfold bind. do 2 f_equal. field. exact HV.
  - intros Hpos.
    simpl convert. unfold convert_body. simpl remove. cbn [append].
    rewrite Hlog, Hv. cbv iota.
    rewrite HbV. simpl bind. rewrite (HSI u _ _ HbU). simpl negb. cbv iota.
    rewrite HbU. simpl bind.
    unfold defaults. rewrite String.eqb_refl. simpl.
    destruct (Req_dec_T fU 0) as [E | _]; [contradiction |].
    unfold bind.
    replace (1 * (fV * x) / fU) with (fV / fU * x) by (field; exact HU).
    unfold log10.
    destruct (Rlt_dec 0 (fV / fU * x)) as [_ | N]; [reflexivity | contradiction].
Qed.

Lemma convert_logarithmic_witness :
  exists f : R,
    sample_convert 1 ("[" ++ "km" ++ "]")%string "cm" (F 2) []
    = Ok (F (f * Rpower 10 2)) /\
    f = 100000.
Proof.
  eexists. split.
  - refine (proj1 (convert_logarithmic si_constants maxint64 sample_zp no_curve 0
                     "km" "cm" 2 _ _ _ _ _ _ _ _ _)).
    + reflexivity.
    + reflexivity.
    + pyrun. reflexivity.
    + pyrun. reflexivity.
    + lra.
    + lra.
  - lra.
Defined.

(** ** Surface gravity and mass *)

(** X27.  [derive_mass] undoes [derive_logg]: for a positive mass in kg
    and a radius in m that is not zero, the mass derived from the
    logarithmic surface gravity [derive_logg] returns (in ['[cm/s2]']) and
    the same radius is the mass again, when the constant of gravitation in
    cgs units is 1000 times the one in SI units. *)
Theorem derive_mass_of_logg :
  forall (K : Constants) (maxint : Z) (zp : list zp_row)
         (eff_wave : string -> pyfloat) (depth : nat) (GG GG_cgs M R : R),
    0 < GG -> GG_cgs = 1000 * GG -> 0 < M -> R <> 0 ->
    (logg <- derive_logg K maxint zp eff_wave (S depth) GG_cgs (F M, "kg") (F R, "m") ;;
     derive_mass K maxint zp eff_wave (S depth) GG (logg, "[cm/s2]") (F R, "m"))
    = Ok (F M).
Proof.
  intros K maxint zp eff_wave depth GG GG_cgs M R HG Hcgs HM HR.
  assert (Hkg : exists f u, breakdown K maxint "kg" = Ok (FNum f, u) /\
                            breakdown K maxint "g" = Ok (FNum (f / 1000), u) /\ f = 1).
  { eexists. eexists. split; [pyrun; reflexivity |].
    split; [pyrun; do 3 f_equal; lra | lra]. }
  assert (Hm : exists f u, breakdown K maxint "m" = Ok (FNum f, u) /\
                           breakdown K maxint "cm" = Ok (FNum (f / 100), u) /\ f = 1).
  { eexists. eexists. split; [pyrun; reflexivity |].
    split; [pyrun; do 3 f_equal; lra | lra]. }
  assert (Hg : exists f u, breakdown K maxint "m/s2" = Ok (FNum f, u) /\
                           breakdown K maxint "cm/s2" = Ok (FNum (f / 100), u) /\ f = 1).
  { eexists. eexists. split; [pyrun; reflexivity |].
    split; [pyrun; do 3 f_equal; lra | lra]. }
  destruct Hkg as (fk & uk & Hkg & Hgr & ->).
  destruct Hm as (fm & um & Hm & Hcm & ->).
  destruct Hg as (fg & ug & Hms & Hcms & ->).
  unfold derive_logg, derive_mass. cbn [fst snd].
  rewrite (convert_fast_path K maxint zp eff_wave depth "kg" "g" (F M) _ _ _
             eq_refl eq_refl Hkg Hgr).
  cbn [fmul lift2 fdiv].
  destruct (Req_dec_T (1 / 1000) 0) as [E | _]; [lra |]. cbn [bind lift2].
  rewrite (convert_fast_path K maxint zp eff_wave depth "m" "cm" (F R) _ _ _
             eq_refl eq_refl Hm Hcm).
  cbn [fmul lift2 fdiv].
  destruct (Req_dec_T (1 / 100) 0) as [E | _]; [lra |]. cbn [bind lift2 sqr lift1 fmul].
  set (Rcm := 1 * (1 * R) / (1 / 100)).
  set (Mg := 1 * (1 * M) / (1 / 1000)).
  assert (HRcm : Rcm = 100 * R) by (subst Rcm; field).
  assert (HMg : Mg = 1000 * M) by (subst Mg; field).
  assert (Hsq : Rcm ^ 2 <> 0) by (apply pow_nonzero; rewrite HRcm; lra).
  unfold fdiv at 1.
  destruct (Req_dec_T (Rcm ^ 2) 0) as [E | _]; [contradiction |]. cbn [bind lift2].
  assert (Hq : 0 < GG_cgs * Mg / Rcm ^ 2).
  { apply Rdiv_lt_0_compat.
    - rewrite Hcgs, HMg. apply Rmult_lt_0_compat; lra.
    - rewrite HRcm. pose proof (pow2_ge_0 R) as H0.
      assert (H1 : R ^ 2 <> 0) by (apply pow_nonzero; exact HR). nra. }
  unfold log10.
  destruct (Rlt_dec 0 (GG_cgs * Mg / Rcm ^ 2)) as [_ | N]; [| contradiction].
  cbn [bind].
  assert (Hgrav : convert K maxint zp eff_wave (S depth) "[cm/s2]" "m/s2"
                    (F (ln (GG_cgs * Mg / Rcm ^ 2) / ln 10)) []
                  = Ok (F (1 / 100 / 1 * Rpower 10 (ln (GG_cgs * Mg / Rcm ^ 2) / ln 10)))).
  { refine (proj1 (convert_logarithmic K maxint zp eff_wave depth "cm/s2" "m/s2"
                     _ _ _ _ eq_refl eq_refl Hcms Hms _ _)); lra. }
  rewrite Hgrav. cbn [bind]. rewrite pow10_log10 by exact Hq.
  rewrite (convert_fast_path K maxint zp eff_wave depth "m" "m" (F R) _ _ _
             eq_refl eq_refl Hm Hm).
  cbn [fmul lift2 fdiv].
  destruct (Req_dec_T 1 0) as [E | _]; [lra |]. cbn [bind lift2 sqr lift1 fmul].
  destruct (Req_dec_T GG 0) as [E | _]; [lra |].
  do 2 f_equal. subst Rcm Mg. rewrite Hcgs. field. split; first [assumption | lra].
Qed.

Lemma derive_mass_of_logg_witness :
  (logg <- derive_logg si_constants maxint64 sample_zp no_curve 1 6.674e-8
             (F 2, "kg") (F 3, "m") ;;
   derive_mass si_constants maxint64 sample_zp no_curve 1 6.674e-11
     (logg, "[cm/s2]") (F 3, "m"))
  = Ok (F 2).
Proof.
  apply (derive_mass_of_logg si_constants maxint64 sample_zp no_curve 0
           6.674e-11 6.674e-8 2 3); lra.
Defined.

(** ** From a distance to a velocity *)

Lemma left_over_velocity (K : Constants) (maxint : Z) :
  left_over K maxint "m1" "m1 s-1" = Ok "s1"%string.
Proof. pyrun. reflexivity. Qed.

(** X28.  From a unit of length to a unit of velocity (plain numbers as
    factors, no logarithms), with the reference wavelength given in
    metres, [convert] returns the Doppler velocity of the value brought to
    metres, divided by the factor of the target unit. *)
Theorem convert_distance_to_velocity :
  forall (K : Constants) (maxint : Z) (zp : list zp_row)
         (eff_wave : string -> pyfloat) (depth : nat)
         (_from _to : string) (x w fF fT : R),
    Re.search Re.log_pattern _from = None ->
    Re.search Re.log_pattern _to = None ->
    breakdown K maxint _from = Ok (FNum fF, "m1"%string) ->
    breakdown K maxint _to = Ok (FNum fT, "m1 s-1"%string) ->
    w <> 0 -> fT <> 0 ->
    convert K maxint zp eff_wave (S depth) _from _to (F x) [("wave", KNum (F w))]
    = Ok (F ((fF * x - w) / w * cc K / fT)).
Proof.
  intros K maxint zp eff_wave depth _from _to x w fF fT Hin Hout Hfrom Hto Hw HT.
  assert (HSI : String.eqb _to "SI" = false).
  { destruct (String.eqb_spec _to "SI") as [-> | _]; [| reflexivity].
    rewrite breakdown_SI in Hto. discriminate. }
  simpl convert. unfold convert_body.
  change (remove "unpack" [("wave", KNum (F w))]) with [("wave", KNum (F w))].
  rewrite Hin, Hout, Hfrom. cbn [bind]. rewrite HSI. cbn [negb]. cbv iota.
  rewrite Hto. cbn [bind].
  change (foldM (to_SI K maxint) [] [("wave", KNum (F w))])
    with (@Ok ctx [("wave", CNum (F w))]).
  cbn [bind].
  change (defaults (FNum fF) "m1" "m1 s-1" (F x) [("wave", CNum (F w))])
    with (@Ok ctx [("wave", CNum (F w))]).
  cbn [bind].
  change (String.eqb "m1" "m1 s-1") with false. cbv iota.
  unfold bridge. rewrite left_over_velocity. cbn [bind].
  change (radians K eff_wave (convert K maxint zp eff_wave depth) (FNum fF) (F x)
            "s1" [("wave", CNum (F w))])
    with (@Ok (fac * pyfloat * string) (FNum fF, F x, "s1"%string)).
  cbn [bind]. change (negb (String.eqb "s1" "")) with true. cbv iota.
  change (switch K eff_wave (convert K maxint zp eff_wave depth) ("s1" ++ "_to_"))
    with (@Ok (pyfloat -> ctx -> result pyfloat) (distance2velocity K)).
  cbn [bind apply_from fac_times fmul lift2].
  unfold distance2velocity. cbn [lookup String.eqb Ascii.eqb Bool.eqb num bind fsub lift2 fdiv].
  destruct (Req_dec_T w 0) as [E | _]; [contradiction |].
  cbn [bind lift2 fmul apply_to fdiv].
  destruct (Req_dec_T fT 0) as [E | _]; [contradiction |].
  cbn [bind lift2]. do 2 f_equal. field. split; assumption.
Qed.

Lemma convert_distance_to_velocity_witness :
  exists v : R,
    sample_convert 1 "nm" "km/s" (F 2) [("wave", KNum (F 1))] = Ok (F v).
Proof.
  eexists.
  eapply (convert_distance_to_velocity si_constants maxint64 sample_zp no_curve 0
            "nm" "km/s" 2 1).
  - reflexivity.
  - reflexivity.
  - pyrun. do 3 f_equal.
  - pyrun. do 3 f_equal.
  - lra.
  - lra.
Defined.

(** ** Keyword arguments given with their unit *)

Lemma to_SI_pair (K : Constants) (maxint : Z) (acc : ctx) (key unit sig : string)
    (x : pyfloat) (fU : R) :
  breakdown K maxint unit = Ok (FNum fU, sig) ->
  to_SI K maxint acc (key, KPair x unit)
  = to_SI K maxint acc (key, KNum (fmul (F fU) x)).
Proof. intros H. unfold to_SI. rewrite H. reflexivity. Qed.

Lemma foldM_same {A B} (f : A -> B -> result A) (i i' : B) (l1 l2 : list B) :
  (forall a, f a i = f a i') ->
  forall a, foldM f a (l1 ++ i :: l2) = foldM f a (l1 ++ i' :: l2).
Proof.
  intros H. induction l1 as [| b l1 IH]; intros a.
  - change (foldM f a ([] ++ i :: l2)) with (a' <- f a i ;; foldM f a' l2).
    change (foldM f a ([] ++ i' :: l2)) with (a' <- f a i' ;; foldM f a' l2).
    rewrite H. reflexivity.
  - change (foldM f a ((b :: l1) ++ i :: l2))
      with (a' <- f a b ;; foldM f a' (l1 ++ i :: l2)).
    change (foldM f a ((b :: l1) ++ i' :: l2))
      with (a' <- f a b ;; foldM f a' (l1 ++ i' :: l2)).
    destruct (f a b); cbn [bind]; [apply IH | reflexivity | reflexivity].
Qed.

Lemma remove_app {A} (k : string) (l1 l2 : list (string * A)) :
  remove k (l1 ++ l2) = (remove k l1 ++ remove k l2)%list.
Proof.
  induction l1 as [| [k' v] l1 IH]; [reflexivity |].
  change (remove k (((k', v) :: l1) ++ l2))
    with (if String.eqb k' k then remove k (l1 ++ l2)
          else (k', v) :: remove k (l1 ++ l2)).
  change (remove k ((k', v) :: l1))
    with (if String.eqb k' k then remove k l1 else (k', v) :: remove k l1).
  destruct (String.eqb k' k); [exact IH |].
  rewrite IH. reflexivity.
Qed.

(** X29.  A keyword argument given as a pair of a value and a unit whose
    factor is a plain number counts as that factor times the value: the
    call returns what it returns when the keyword holds the product,
    wherever the keyword stands among the others. *)
Theorem convert_keyword_with_unit :
  forall (K : Constants) (maxint : Z) (zp : list zp_row)
         (eff_wave : string -> pyfloat) (depth : nat)
         (_from _to key unit sig : string) (v x : pyfloat) (fU : R)
         (before after : list (string * kwval)),
    breakdown K maxint unit = Ok (FNum fU, sig) ->
    convert K maxint zp eff_wave depth _from _to v
      (before ++ (key, KPair x unit) :: after)
    = convert K maxint zp eff_wave depth _from _to v
        (before ++ (key, KNum (fmul (F fU) x)) :: after).
Proof.
  intros K maxint zp eff_wave depth _from _to key unit sig v x fU before after H.
  destruct depth as [| d]; [reflexivity |].
  cbn [convert]. unfold convert_body.
  rewrite !remove_app. cbn [remove].
  destruct (String.eqb key "unpack"); [reflexivity |].
  rewrite (foldM_same (to_SI K maxint) (key, KPair x unit)
             (key, KNum (fmul (F fU) x)));
    [reflexivity |].
  intros a. apply (to_SI_pair K maxint a key unit sig x fU H).
Qed.

Lemma convert_keyword_with_unit_witness :
  exists fU : R,
    sample_convert 1 "nm" "km/s" (F 2)
      ([("unpack", KStr "no")] ++ ("wave", KPair (F 1000) "nm") :: [])
    = sample_convert 1 "nm" "km/s" (F 2)
        ([("unpack", KStr "no")] ++ ("wave", KNum (fmul (F fU) (F 1000))) :: []).
Proof.
  eexists.
  eapply (convert_keyword_with_unit si_constants maxint64 sample_zp no_curve 1
            "nm" "km/s" "wave" "nm" "m1").
  pyrun. reflexivity.
Defined.

(** ** Names that are no unit *)

Lemma find_scaling_none (K : Constants) (b : string) (l : list (string * R)) :
  (forall scale v, In (scale, v) l ->
     Py.take (String.length scale) b = scale ->
     has_key (Py.drop (String.length scale) b) (_factors K) = false) ->
  find_scaling K b l = None.
Proof.
  induction l as [| [scale v] l IH]; intros H; cbn [find_scaling]; [reflexivity |].
  destruct (String.eqb_spec (Py.take (String.length scale) b) scale) as [E | _].
  - rewrite (H scale v (or_introl eq_refl) E). cbn [andb]. apply IH.
    intros s w Hin. apply (H s w). right. exact Hin.
  - cbn [andb]. apply IH. intros s w Hin. apply (H s w). right. exact Hin.
Qed.

Lemma to_SI_base_unknown (K : Constants) (factor : R) (b : string) (p : Z) :
  has_key b (_factors K) = false ->
  (forall scale v, In (scale, v) _scalings ->
     Py.take (String.length scale) b = scale ->
     has_key (Py.drop (String.length scale) b) (_factors K) = false) ->
  to_SI_base K factor b p = Raise ValueError.
Proof.
  intros Hk Hs. unfold to_SI_base.
  rewrite (find_scaling_none K b _scalings Hs), Hk. reflexivity.
Qed.

Lemma last_char_all (q : ascii -> bool) (s : string) :
  s <> EmptyString -> all q s = true ->
  exists c, Py.last_char s = Some c /\ q c = true.
Proof.
  induction s as [| a s IH]; intros Hn Hq; [congruence |].
  cbn [all] in Hq. apply andb_prop in Hq. destruct Hq as [Ha Hs].
  destruct s as [| a' s].
  - exists a. auto.
  - destruct IH as (c & Hc & Hqc); [discriminate | exact Hs |].
    exists c. split; [exact Hc | exact Hqc].
Qed.

Lemma append_empty (s : string) : (s ++ "")%string = s.
Proof. induction s as [| c s IH]; cbn [append]; [reflexivity | now rewrite IH]. Qed.

(** X30.  A name (no digit, no minus sign, no newline) that is no key of
    [_factors], and that is no prefix of [_scalings] followed by a key of
    [_factors], is refused by [components] with a [ValueError], bare or
    followed by a power. *)
Theorem components_unknown_unit :
  forall (K : Constants) (b : string) (p : Z),
    b <> EmptyString -> all plain b = true ->
    has_key b (_factors K) = false ->
    (forall scale v, In (scale, v) _scalings ->
       Py.take (String.length scale) b = scale ->
       has_key (Py.drop (String.length scale) b) (_factors K) = false) ->
    components K b = Raise ValueError /\
    components K (b ++ Py.str_of_int p) = Raise ValueError.
Proof.
  intros K b p Hne Hpl Hk Hs.
  assert (Hnd : all nondigit b = true).
  { apply (all_weaken plain); [| exact Hpl].
    intros c Hc. apply plain_parts in Hc. unfold nondigit.
    apply negb_true_iff. tauto. }
  split.
  - destruct (no_prefactor 5 b "" Hnd eq_refl) as [E5 _].
    destruct (no_prefactor 6 b "" Hnd eq_refl) as [_ E6].
    rewrite append_empty in E5, E6.
    destruct (last_char_all nondigit b Hne Hnd) as (c & Hc & Hdc).
    apply negb_true_iff in Hdc.
    unfold components. rewrite E5. cbn [bind]. rewrite E6. cbn [bind].
    unfold components_from, ensure_power. rewrite Hc, Hdc. cbn [bind].
    assert (Hm : Re.search Re.unit_pattern (b ++ "1")
                 = Some [EmptyString; b; EmptyString; "1"%string]).
    { apply (unit_pattern_name_number b "" "1" Hne Hpl (or_introl eq_refl) eq_refl).
      discriminate. }
    rewrite Hm.
    change (int_of ("" ++ "1")) with (@Ok Z 1%Z). cbn [bind].
    apply to_SI_base_unknown; assumption.
  - destruct (str_of_int_shape p) as (sgn & ds & E & Hsg & Hd & Hn).
    pose proof (int_of_str_of_int p) as Hint. rewrite E in *.
    assert (Hu : all nondigit (b ++ sgn) = true).
    { rewrite all_append. apply andb_true_intro. split; [exact Hnd |].
      destruct Hsg as [-> | ->]; reflexivity. }
    destruct (no_prefactor 5 (b ++ sgn) ds Hu Hd) as [E5 _].
    destruct (no_prefactor 6 (b ++ sgn) ds Hu Hd) as [_ E6].
    rewrite append_assoc in E5, E6.
    assert (Hend : ends_with_digit (b ++ sgn ++ ds)).
    { destruct (digits_end_with_digit ds Hd Hn) as (c & Hc & Hdc).
      exists c. split; [| exact Hdc].
      rewrite last_char_app.
      - rewrite last_char_app by exact Hn. exact Hc.
      - destruct sgn; cbn [append]; [exact Hn | discriminate]. }
    unfold components. rewrite E5. cbn [bind]. rewrite E6. cbn [bind].
    unfold components_from. rewrite (ensure_power_keeps _ Hend). cbn [bind].
    rewrite unit_pattern_name_number by assumption.
    rewrite Hint. cbn [bind].
    apply to_SI_base_unknown; assumption.
Qed.

Lemma components_unknown_unit_witness :
  components si_constants "foo" = Raise ValueError /\
  components si_constants ("foo" ++ Py.str_of_int (-2)) = Raise ValueError.
Proof.
  apply (components_unknown_unit si_constants "foo" (-2)).
  - discriminate.
  - reflexivity.
  - reflexivity.
  - intros scale v H _. unfold _scalings in H. cbn [In] in H.
    repeat (destruct H as [H | H]; [injection H as <- _; reflexivity |]).
    contradiction.
Defined.

(** ** The radian step within one call *)

(** The four markers of the radian step, in the order they are tested. *)
Definition markers : list string := ["rad2"; "rad-2"; "rad1"; "rad-1"].

(** A marker: [rad] followed by the first characters of a power. *)
Definition radian (power : string) : string :=
  String "r" (String "a" (String "d" power)).

(** A character of a printed integer. *)
Definition numeral (c : ascii) : bool := Py.isdigit c || Ascii.eqb "-" c.

Lemma prefix_cons (a b : ascii) (s t : string) :
  prefix (String a s) (String b t) = if ascii_dec a b then prefix s t else false.
Proof. reflexivity. Qed.

(** Where the pattern does not begin, the search and the replacement move
    on by one character. *)
Lemma contains_skip (sub : string) (c : ascii) (s : string) :
  prefix sub (String c s) = false ->
  Py.contains sub (String c s) = Py.contains sub s.
Proof. intros H. rewrite contains_unfold, H. reflexivity. Qed.

Lemma replace_skip (old new : string) (c : ascii) (s : string) :
  prefix old (String c s) = false ->
  Py.replace_from old new 0 (String c s) = String c (Py.replace_from old new 0 s).
Proof. intros H. cbn [Py.replace_from]. rewrite H. reflexivity. Qed.

Lemma numeral_no_r (c : ascii) (power s : string) :
  numeral c = true -> prefix (radian power) (String c s) = false.
Proof.
  intros H. unfold radian. rewrite prefix_cons.
  destruct (ascii_dec "r" c) as [<- | _]; [discriminate H | reflexivity].
Qed.

Lemma contains_number (power n s : string) :
  all numeral n = true ->
  Py.contains (radian power) (n ++ s) = Py.contains (radian power) s.
Proof.
  induction n as [| c n IH]; intros H; [reflexivity |].
  cbn [all] in H. apply andb_prop in H. destruct H as [Hc Hn].
  cbn [append]. rewrite contains_skip by (apply numeral_no_r; exact Hc).
  apply IH. exact Hn.
Qed.

Lemma replace_number (power new n s : string) :
  all numeral n = true ->
  Py.replace_from (radian power) new 0 (n ++ s)
  = (n ++ Py.replace_from (radian power) new 0 s)%string.
Proof.
  induction n as [| c n IH]; intros H; [reflexivity |].
  cbn [all] in H. apply andb_prop in H. destruct H as [Hc Hn].
  cbn [append]. rewrite replace_skip by (apply numeral_no_r; exact Hc).
  rewrite IH by exact Hn. reflexivity.
Qed.

Lemma str_of_int_numeral (p : Z) : all numeral (Py.str_of_int p) = true.
Proof.
  destruct (str_of_int_shape p) as (sgn & ds & -> & Hs & Hd & _).
  rewrite all_append. apply andb_true_intro. split.
  - destruct Hs as [-> | ->]; reflexivity.
  - apply (all_weaken Py.isdigit); [| exact Hd].
    intros c Hc. unfold numeral. rewrite Hc. reflexivity.
Qed.

(** The name of a base unit other than [rad] holds no [rad], also when
    something follows it. *)
Lemma contains_base (power b s : string) :
  In b SI_bases -> b <> "rad"%string ->
  Py.contains (radian power) (b ++ s) = Py.contains (radian power) s.
Proof.
  unfold SI_bases. cbn [In]. intros H Hb.
  repeat (destruct H as [<- | H]; [
    first [ congruence
          | cbn [append]; repeat (rewrite contains_skip by reflexivity);
            reflexivity ] |]).
  contradiction.
Qed.

Lemma replace_base (power new b s : string) :
  In b SI_bases -> b <> "rad"%string ->
  Py.replace_from (radian power) new 0 (b ++ s)
  = (b ++ Py.replace_from (radian power) new 0 s)%string.
Proof.
  unfold SI_bases. cbn [In]. intros H Hb.
  repeat (destruct H as [<- | H]; [
    first [ congruence
          | cbn [append]; repeat (rewrite replace_skip by reflexivity);
            reflexivity ] |]).
  contradiction.
Qed.

(** The pieces of a signature written without spaces. *)
Definition glued (P : list (string * Z)) : string := Py.join "" (map item P).

Lemma join_empty_cons (w : string) (l : list string) :
  Py.join "" (w :: l) = (w ++ Py.join "" l)%string.
Proof.
  destruct l as [| x l]; [cbn [Py.join]; now rewrite append_empty_r | reflexivity].
Qed.

Lemma glued_cons (e : string * Z) (P : list (string * Z)) :
  glued (e :: P) = (fst e ++ Py.str_of_int (snd e) ++ glued P)%string.
Proof.
  unfold glued. cbn [map]. rewrite join_empty_cons. unfold item.
  apply append_assoc.
Qed.

Lemma glued_app (P Q : list (string * Z)) :
  glued (P ++ Q) = (glued P ++ glued Q)%string.
Proof.
  induction P as [| e P IH]; [reflexivity |].
  change ((e :: P) ++ Q)%list with (e :: (P ++ Q))%list.
  rewrite !glued_cons, IH, !append_assoc. reflexivity.
Qed.

(** Pieces none of which is a power of [rad]. *)
Definition quiet (P : list (string * Z)) : Prop :=
  Forall (fun e => In (fst e) SI_bases /\ fst e <> "rad"%string) P.

Lemma contains_quiet (power : string) (P : list (string * Z)) (s : string) :
  quiet P ->
  Py.contains (radian power) (glued P ++ s) = Py.contains (radian power) s.
Proof.
  induction 1 as [| e P [Hb Hr] _ IH]; [reflexivity |].
  rewrite glued_cons, !append_assoc.
  rewrite contains_base by assumption.
  rewrite contains_number by apply str_of_int_numeral.
  exact IH.
Qed.

Lemma replace_quiet (power new : string) (P : list (string * Z)) (s : string) :
  quiet P ->
  Py.replace_from (radian power) new 0 (glued P ++ s)
  = (glued P ++ Py.replace_from (radian power) new 0 s)%string.
Proof.
  induction 1 as [| e P [Hb Hr] _ IH]; [reflexivity |].
  rewrite glued_cons, !append_assoc.
  rewrite replace_base by assumption.
  rewrite replace_number by apply str_of_int_numeral.
  rewrite IH. reflexivity.
Qed.

Lemma contains_quiet_end (power : string) (P : list (string * Z)) :
  quiet P -> Py.contains (radian power) (glued P) = false.
Proof.
  intros H. rewrite <- (append_empty_r (glued P)).
  rewrite contains_quiet by exact H. reflexivity.
Qed.

Lemma replace_quiet_end (power new : string) (P : list (string * Z)) :
  quiet P -> Py.replace_from (radian power) new 0 (glued P) = glued P.
Proof.
  intros H. rewrite <- (append_empty_r (glued P)) at 1.
  rewrite replace_quiet by exact H. cbn [Py.replace_from].
  apply append_empty_r.
Qed.

Lemma prefix_same (a : ascii) (s t : string) :
  prefix (String a s) (String a t) = prefix s t.
Proof.
  rewrite prefix_cons. destruct (ascii_dec a a) as [_ | N]; [reflexivity | congruence].
Qed.

Lemma prefix_first (a b : ascii) (s t : string) :
  prefix (String a s) (String b t) = true -> a = b /\ prefix s t = true.
Proof.
  rewrite prefix_cons. destruct (ascii_dec a b) as [E | _]; [auto | discriminate].
Qed.

Lemma replace_hit (old new : string) (c : ascii) (s : string) :
  prefix old (String c s) = true ->
  Py.replace_from old new 0 (String c s)
  = (new ++ Py.replace_from old new (String.length old - 1) s)%string.
Proof. intros H. cbn [Py.replace_from]. rewrite H. reflexivity. Qed.

(** A signature holds each base once: what is left when a marker has been
    cut out holds no [rad] any more. *)
Lemma marker_removed (P : list (string * Z)) (m : string) :
  In m markers ->
  NoDup (map fst P) ->
  Forall (fun e => In (fst e) SI_bases) P ->
  Py.contains m (glued P) = true ->
  Py.contains "rad" (Py.replace m "" (glued P)) = false.
Proof.
  intros Hm Hnd Hb Hc.
  assert (Hq : forall Q, Forall (fun e => In (fst e) SI_bases) Q ->
                 ~ In "rad"%string (map fst Q) -> quiet Q).
  { intros Q HQ Hn. apply Forall_forall. intros e He.
    rewrite Forall_forall in HQ. split; [apply HQ; exact He |].
    intros E. apply Hn. rewrite <- E. apply in_map. exact He. }
  assert (Hr : exists power, m = radian power /\ In power ["2"; "-2"; "1"; "-1"]%string).
  { unfold markers in Hm. cbn [In] in Hm.
    destruct Hm as [<- | [<- | [<- | [<- | []]]]]; eexists; (split; [reflexivity |]);
      cbn [In]; auto. }
  destruct Hr as (power & -> & Hpow).
  destruct (in_dec string_dec "rad"%string (map fst P)) as [Hin | Hout].
  - apply in_map_iff in Hin. destruct Hin as ([b p] & Hbp & Hin).
    cbn [fst] in Hbp. subst b.
    apply in_split in Hin. destruct Hin as (P1 & P2 & ->).
    rewrite map_app in Hnd. cbn [map fst] in Hnd.
    pose proof (NoDup_remove_2 _ _ _ Hnd) as Hfresh.
    apply Forall_app in Hb. destruct Hb as [Hb1 Hb2].
    inversion Hb2 as [| ? ? _ Hb2']; subst.
    assert (Hq1 : quiet P1).
    { apply Hq; [exact Hb1 |]. intros H. apply Hfresh. apply in_or_app. auto. }
    assert (Hq2 : quiet P2).
    { apply Hq; [exact Hb2' |]. intros H. apply Hfresh. apply in_or_app. auto. }
    rewrite glued_app, glued_cons in *. cbn [fst snd] in *.
    destruct (str_of_int_shape p) as (sgn & ds & Ep & Hs & Hd & Hne).
    rewrite Ep in *. clear Ep.
    assert (Hds : forall ds', all Py.isdigit ds' = true -> all numeral ds' = true).
    { intros ds' H. apply (all_weaken Py.isdigit); [| exact H].
      intros c Hc'. unfold numeral. rewrite Hc'. reflexivity. }
    assert (Htail : forall pw n, all numeral n = true ->
              Py.contains (radian pw) (n ++ glued P2) = false).
    { intros pw n Hn. rewrite contains_number by exact Hn.
      apply contains_quiet_end. exact Hq2. }
    assert (Hkeep : forall n, all numeral n = true ->
              Py.replace_from (radian power) "" 0 (n ++ glued P2)
              = (n ++ glued P2)%string).
    { intros n Hn. rewrite replace_number by exact Hn.
      rewrite replace_quiet_end by exact Hq2. reflexivity. }
    rewrite contains_quiet in Hc by exact Hq1.
    change (Py.replace (radian power) "" ?s)
      with (Py.replace_from (radian power) "" 0 s).
    rewrite replace_quiet by exact Hq1.
    change "rad"%string with (radian "").
    rewrite contains_quiet by exact Hq1.
    destruct ds as [| d ds']; [congruence |].
    cbn [all] in Hd. apply andb_prop in Hd. destruct Hd as [Hd Hd'].
    assert (Hnum : all numeral (sgn ++ String d ds') = true).
    { rewrite all_append. apply andb_true_intro. split.
      - destruct Hs as [-> | ->]; reflexivity.
      - apply Hds. cbn [all]. rewrite Hd, Hd'. reflexivity. }
    change ("rad" ++ (sgn ++ String d ds') ++ glued P2)%string
      with (String "r" (String "a" (String "d" ((sgn ++ String d ds') ++ glued P2)))) in *.
    rewrite contains_unfold in Hc.
    rewrite (contains_skip _ "a") in Hc by reflexivity.
    rewrite (contains_skip _ "d") in Hc by reflexivity.
    rewrite (Htail _ _ Hnum), orb_false_r in Hc.
    rewrite (replace_hit _ _ _ _ Hc).
    unfold radian in Hc. rewrite !prefix_same in Hc.
    cbn [In] in Hpow.
    destruct Hs as [-> | ->]; cbn [append] in *;
      destruct Hpow as [<- | [<- | [<- | [<- | []]]]];
      repeat (apply prefix_first in Hc; destruct Hc as [E Hc];
              first [discriminate E | subst d]);
      try discriminate Hd;
      cbn [radian String.length Nat.sub Py.replace_from append];
      rewrite (Hkeep ds' (Hds ds' Hd')); apply Htail; apply Hds; exact Hd'.
  - rewrite contains_quiet_end in Hc by (apply Hq; assumption). discriminate Hc.
Qed.

(** The pieces of the signature [breakdown] returns: SI base units, each
    once, with the power it is raised to. *)
Lemma signature_pieces (K : Constants) (maxint : Z) (u : string) (f : fac)
    (sig : string) :
  breakdown K maxint u = Ok (f, sig) ->
  exists P,
    NoDup (map fst P) /\ Forall (fun e => In (fst e) SI_bases) P /\
    Forall (fun e => nonzero_power e = true) P /\
    Py.sorted (map item P) = map item P /\
    sig = Py.join " " (map item P).
Proof.
  intros H.
  apply breakdown_ok in H. destruct H as (ls & cs & Hls & Hcs & Hm & ->).
  set (adds := List.concat (map snd cs)).
  set (totals := add_all adds []).
  assert (Hnd : NoDup (map fst totals)) by (apply add_all_nodup; constructor).
  assert (Hadds : Forall (fun e => In (fst e) SI_bases) adds).
  { apply Forall_forall. intros e He. unfold adds in He.
    apply in_concat in He. destruct He as (l & Hl & He).
    apply in_map_iff in Hl. destruct Hl as ([f0 l0] & <- & Hc).
    destruct (mapM_In _ _ _ _ Hcs Hc) as (t & _ & Ht).
    pose proof (contribution_bases K maxint t f0 l0 Ht) as Hb.
    rewrite Forall_forall in Hb. apply Hb. exact He. }
  assert (Hkeys : Forall (fun e => In (fst e) SI_bases) totals).
  { apply Forall_forall. intros e He. apply (in_map fst) in He.
    apply add_all_keys in He. destruct He as [[] | He].
    apply in_map_iff in He. destruct He as (x & <- & Hx).
    rewrite Forall_forall in Hadds. apply Hadds. exact Hx. }
  set (kept := filter nonzero_power totals).
  assert (Hsig : signature totals = Py.join " " (Py.sorted (map item kept)))
    by reflexivity.
  destruct (Permutation_map_inv item kept
              (Permutation_sym (sorted_perm (map item kept))))
    as (P & HP & Perm).
  exists P. split; [| split; [| split; [| split]]].
  - apply (Permutation_NoDup (Permutation_map fst Perm)).
    apply nodup_keys_filter. exact Hnd.
  - apply (Permutation_Forall Perm). apply Forall_forall. intros e He.
    apply filter_In in He. rewrite Forall_forall in Hkeys. apply Hkeys. tauto.
  - apply (Permutation_Forall Perm). apply Forall_forall. intros e He.
    apply filter_In in He. tauto.
  - rewrite <- HP.
    apply sorted_of_permutation, Permutation_sym, sorted_perm.
  - rewrite Hsig, HP. reflexivity.
Qed.

(** What is left over between two signatures is again a signature, written
    without spaces. *)
Lemma left_over_glued (K : Constants) (maxint : Z) (uni_from uni_to lo : string) :
  left_over K maxint uni_from uni_to = Ok lo ->
  exists P,
    NoDup (map fst P) /\ Forall (fun e => In (fst e) SI_bases) P /\ lo = glued P.
Proof.
  unfold left_over.
  destruct (mapM (base_power K) (difference (Py.split uni_from) (Py.split uni_to)))
    as [a | |]; cbn [bind]; try discriminate.
  destruct (mapM (base_power K) (difference (Py.split uni_to) (Py.split uni_from)))
    as [b | |]; cbn [bind]; try discriminate.
  match goal with
  | |- context [breakdown K maxint ?l] =>
      destruct (breakdown K maxint l) as [[f sig] | |] eqn:Hb
  end; cbn [bind]; try discriminate.
  intros [= <-].
  destruct (signature_pieces K maxint _ f sig Hb) as (P & Hnd & Hbases & _ & _ & ->).
  exists P. split; [exact Hnd | split; [exact Hbases |]].
  rewrite split_join, (items_split P Hbases). reflexivity.
Qed.

(** C5.  In the bridged path of [convert] the markers are looked for in
    the order [rad2], [rad-2], [rad1], [rad-1] in what [left_over] returns.
    The first one found applies its transform to [fac_from*start_value], is
    cut out of the leftover and resets [fac_from] to 1; the leftover then
    holds no [rad] any more, so that the step for what is left over, the
    only other look-up in [_switch] of the call, is no radian transform.
    Without marker the value and the factor go to that step unchanged. *)
Theorem bridge_one_radian_transform :
  forall (K : Constants) (maxint : Z) (zp : list zp_row)
         (eff_wave : string -> pyfloat) (conv : converting)
         (facFrom value : R) (uni_from uni_to only_from : string) (kwargs : ctx),
    left_over K maxint uni_from uni_to = Ok only_from ->
    let run :=
      bridge K maxint zp eff_wave conv (FNum facFrom) uni_from uni_to (F value)
        kwargs in
    let left_over_step := fun (fac_from : fac) (start_value : pyfloat)
                              (only_from : string) =>
      if negb (String.eqb only_from "") then
        f <- switch K eff_wave conv (only_from ++ "_to_") ;;
        a <- apply_from zp conv fac_from start_value kwargs ;;
        r <- f a kwargs ;;
        Ok (fmul (F 1) r)
      else Ok (fmul (F 1) start_value) in
    let fired := fun (marker : string) (w : pyfloat) =>
      run = left_over_step (FNum 1) w (Py.replace marker "" only_from) /\
      Py.contains "rad" (Py.replace marker "" only_from) = false in
    (Py.contains "rad2" only_from = true ->
     forall w, per_sr (F (facFrom * value)) kwargs = Ok w -> fired "rad2"%string w) /\
    (Py.contains "rad2" only_from = false ->
     Py.contains "rad-2" only_from = true ->
     forall w, times_sr (F (facFrom * value)) kwargs = Ok w -> fired "rad-2"%string w) /\
    (Py.contains "rad2" only_from = false ->
     Py.contains "rad-2" only_from = false ->
     Py.contains "rad1" only_from = true ->
     forall w, per_cy (F (facFrom * value)) kwargs = Ok w -> fired "rad1"%string w) /\
    (Py.contains "rad2" only_from = false ->
     Py.contains "rad-2" only_from = false ->
     Py.contains "rad1" only_from = false ->
     Py.contains "rad-1" only_from = true ->
     forall w, times_cy (F (facFrom * value)) kwargs = Ok w -> fired "rad-1"%string w) /\
    (Py.contains "rad2" only_from = false ->
     Py.contains "rad-2" only_from = false ->
     Py.contains "rad1" only_from = false ->
     Py.contains "rad-1" only_from = false ->
     run = left_over_step (FNum facFrom) (F value) only_from).
Proof.
  intros K maxint zp eff_wave conv facFrom value uni_from uni_to only_from kwargs
         Hleft run left_over_step fired.
  destruct (left_over_glued K maxint uni_from uni_to only_from Hleft)
    as (P & Hnd & Hb & ->).
  destruct (radians_first_marker K eff_wave conv facFrom value (glued P) kwargs)
    as (H1 & H2 & H3 & H4 & H5).
  assert (Hrun : forall fac_from start_value left,
            radians K eff_wave conv (FNum facFrom) (F value) (glued P) kwargs
            = Ok (fac_from, start_value, left) ->
            run = left_over_step fac_from start_value left).
  { intros fac_from start_value left Hr. unfold run, bridge.
    rewrite Hleft. cbn [bind]. rewrite Hr. reflexivity. }
  assert (Hgone : forall m, In m markers -> Py.contains m (glued P) = true ->
            Py.contains "rad" (Py.replace m "" (glued P)) = false).
  { intros m Hm Hc. apply marker_removed; assumption. }
  unfold fired, markers in *. cbn [In] in Hgone.
  split; [| split; [| split; [| split]]].
  - intros N1 w Hw. split; [apply Hrun, H1; assumption | apply Hgone; auto].
  - intros N1 N2 w Hw. split; [apply Hrun, H2; assumption | apply Hgone; auto].
  - intros N1 N2 N3 w Hw. split; [apply Hrun, H3; assumption | apply Hgone; auto].
  - intros N1 N2 N3 N4 w Hw.
    split; [apply Hrun, H4; assumption | apply Hgone; auto 6].
  - intros N1 N2 N3 N4. apply Hrun, H5; assumption.
Qed.

(** A signature with steradians on the side of the target only: [per_sr]
    is applied, and nothing is left over. *)
Lemma bridge_one_radian_transform_witness :
  bridge si_constants maxint64 sample_zp no_curve (sample_convert 1) (FNum 2)
    "kg1 s-3" "kg1 rad-2 s-3" (F 3) [("pix", CNum (F 4))]
  = Ok (fmul (F 1) (F (2 * 3 / (4 ^ 2)))) /\
  Py.contains "rad" (Py.replace "rad2" "" "rad2") = false.
Proof.
  refine (proj1 (bridge_one_radian_transform si_constants maxint64 sample_zp
                   no_curve (sample_convert 1) 2 3 "kg1 s-3" "kg1 rad-2 s-3"
                   "rad2" [("pix", CNum (F 4))] _) _ (F (2 * 3 / (4 ^ 2))) _).
  - pyrun. reflexivity.
  - reflexivity.
  - pyrun. reflexivity.
Defined.

(** ** The order of the tokens, and the signature broken down again *)




